(** * Agility / Solis inverter adapter: a shallow embedding of [solis.mjs]

    The development follows the class [Solis] of [mapped/solis.mjs]:
    - [Settings]: the legacy (pre-4B00) settings-string rewrites;
    - [Signer]: the request-signing pipeline;
    - [Js]: the fragment of JavaScript values and arithmetic the class uses;
    - [TimeSeries]: the snapshot store and the statistics read from it;
    - [Control]: the inverter control and scheduling operations.

    JavaScript numbers are the kernel's binary64 floats;
    collaborators that are not part of the class (the persistent store,
    the date utility, the hash functions, the vendor) are modelled by
    their interface.

    The first part of the file holds the embedding, module by module; the
    second part holds the properties, in modules of the same names
    followed by [Facts]. *)

From Stdlib Require Import ZArith QArith Ascii String DecimalString.
From Stdlib Require PrimFloat SpecFloat FloatOps.
From stdpp Require Import base tactics option list sorting gmap strings.

Local Open Scope Z_scope.

(** ** Text helpers shared by the modules *)

Module Text.
Definition comma : ascii := ","%char.

(** [contains c s]: the character [c] occurs in [s]. *)
Fixpoint contains (c : ascii) (s : string) : bool :=
  match s with
  | EmptyString => false
  | String a s' => if Ascii.eqb a c then true else contains c s'
  end.

(** [String.prototype.split] with a one-character separator. *)
Fixpoint split (c : ascii) (s : string) : list string :=
  match s with
  | EmptyString => [EmptyString]
  | String a s' =>
      if Ascii.eqb a c then EmptyString :: split c s'
      else match split c s' with
           | [] => [String a EmptyString]
           | h :: t => String a h :: t
           end
  end.

(** [Array.prototype.join] with a one-character separator, on elements
    that are already strings. *)
Fixpoint join (c : ascii) (l : list string) : string :=
  match l with
  | [] => EmptyString
  | [x] => x
  | x :: t => x +:+ String c (join c t)
  end.

(** [Number.prototype.toString] on an integer. *)
Definition of_Z (n : Z) : string := NilZero.string_of_int (Z.to_int n).

End Text.

(** ** Legacy settings strings (pre-4B00 dialect) *)

Module Settings.
Import Text.

(** An element of the array [pcs]: a piece of the split string, a number
    assigned by a rewrite, or a hole left by an assignment past the end. *)
Inductive elt :=
| EStr (s : string)
| ENum (n : Z)
| EHole.

(** What [join] prints for an element. *)
Definition elt_text (e : elt) : string :=
  match e with
  | EStr s => s
  | ENum n => of_Z n
  | EHole => EmptyString
  end.

(** [pcs[i] = v]: in range the element is replaced; past the end the
    array grows, the gap being holes. *)
Definition array_set (i : nat) (v : elt) (pcs : list elt) : list elt :=
  if decide (i < length pcs)%nat then <[i:=v]> pcs
  else pcs ++ replicate (i - length pcs) EHole ++ [v].

Definition split_setting (currentSetting : string) : list elt :=
  EStr <$> split comma currentSetting.

Definition join_setting (pcs : list elt) : string :=
  join comma (elt_text <$> pcs).

Definition window (fromTimeText toTimeText : string) : string :=
  fromTimeText +:+ "-" +:+ toTimeText.

Definition zero_window : string := "00:00-00:00".

(** The six assignments every rewrite makes, in source order. *)
Definition rewrite6 (v0 v1 v2 v3 : elt) (pcs : list elt) : list elt :=
  array_set 10 (EStr zero_window)
    (array_set 6 (EStr zero_window)
       (array_set 3 v3 (array_set 2 v2 (array_set 1 v1 (array_set 0 v0 pcs))))).

Definition chargeTimeString (chargeCurrent : Z)
    (currentSetting fromTimeText toTimeText : string) : string :=
  join_setting
    (rewrite6 (ENum chargeCurrent) (ENum 0)
       (EStr (window fromTimeText toTimeText)) (EStr zero_window)
       (split_setting currentSetting)).

Definition dischargeTimeString (dischargeCurrent : Z)
    (currentSetting fromTimeText toTimeText : string) : string :=
  join_setting
    (rewrite6 (ENum 0) (ENum dischargeCurrent)
       (EStr zero_window) (EStr (window fromTimeText toTimeText))
       (split_setting currentSetting)).

Definition gridOnlyTimeString
    (currentSetting fromTimeText toTimeText : string) : string :=
  join_setting
    (rewrite6 (ENum 0) (ENum 0)
       (EStr zero_window) (EStr (window fromTimeText toTimeText))
       (split_setting currentSetting)).

Definition resetTimeString (currentSetting : string) : string :=
  join_setting
    (rewrite6 (ENum 0) (ENum 0) (EStr zero_window) (EStr zero_window)
       (split_setting currentSetting)).

(** The fields of a settings string. *)
Definition fields (s : string) : list string := split comma s.

(** The positions a rewrite assigns. *)
Definition rewritten (i : nat) : bool :=
  match i with
  | 0 | 1 | 2 | 3 | 6 | 10 => true
  | _ => false
  end%nat.

Definition comma_free (e : elt) : Prop := contains comma (elt_text e) = false.

(** Reading position [i] of an array of texts; an absent position reads
    as the empty text, which is what [join] prints for it. *)
Definition text_at (i : nat) (l : list string) : string :=
  default EmptyString (l !! i).

(** [array_set] seen through [elt_text]. *)
Definition text_set (i : nat) (x : string) (l : list string) : list string :=
  if decide (i < length l)%nat then <[i:=x]> l
  else l ++ replicate (i - length l) EmptyString ++ [x].

Definition texts6 (t0 t1 t2 t3 : string) (l : list string) : list string :=
  text_set 10 zero_window
    (text_set 6 zero_window
       (text_set 3 t3 (text_set 2 t2 (text_set 1 t1 (text_set 0 t0 l))))).

Definition field_at (i : nat) (s : string) : string := text_at i (fields s).

(** What a rewrite leaves at position [j] of a string whose field there
    was [old]. *)
Definition written (t0 t1 t2 t3 : string) (j : nat) (old : string) : string :=
  match j with
  | 0 => t0
  | 1 => t1
  | 2 => t2
  | 3 => t3
  | 6 | 10 => zero_window
  | _ => old
  end%nat.

End Settings.

(** ** The fragment of JavaScript numbers and results the class relies on *)

Module Js.
(** A number: an IEEE-754 double, the kernel's binary64 float, with NaN
    and the infinities. The arithmetic of the class is the arithmetic of
    the doubles, each operation rounding to nearest, ties to even. *)
Definition num : Type := PrimFloat.float.

Definition NaN : num := PrimFloat.nan.

(** An integer of any size as a mantissa with exponent 0. *)
Definition exact (z : Z) : SpecFloat.spec_float :=
  match z with
  | Z0 => SpecFloat.S754_zero false
  | Zpos p => SpecFloat.S754_finite false p 0
  | Zneg p => SpecFloat.S754_finite true p 0
  end.

(** The double nearest to [a / b], ties to even. *)
Definition nearest_double (a b : Z) : num :=
  FloatOps.SF2Prim
    (SpecFloat.SFdiv FloatOps.prec FloatOps.emax (exact a) (exact b)).

(** The number a decimal numeral denotes, in a JSON text or in the
    source: the double nearest to it. *)
Definition Num (q : Q) : num := nearest_double (Qnum q) (Zpos (Qden q)).

(** [a === b] on numbers: NaN equals nothing, the two zeros are equal. *)
Definition strict_eqb (a b : num) : bool := PrimFloat.eqb a b.

Definition zero : num := PrimFloat.zero.

Definition add (a b : num) : num := PrimFloat.add a b.

Definition sub (a b : num) : num := PrimFloat.sub a b.

(** [a / n] for an integer [n]. *)
Definition div_int (a : num) (n : Z) : num :=
  PrimFloat.div a (nearest_double n 1).

(** [a < b] on numbers: false as soon as one of them is NaN. *)
Definition lt (a b : num) : bool := PrimFloat.ltb a b.

(** [!x] on a number: zero and NaN are falsy. *)
Definition falsy_num (x : num) : bool :=
  PrimFloat.is_nan x || PrimFloat.is_zero x.

(** The integer nearest to [m * 2 ^ e * 100], the larger one on a tie:
    the digits [toFixed(2)] prints for the double [m * 2 ^ e]. *)
Definition hundredths (m : positive) (e : Z) : Z :=
  match e with
  | Zneg k => (2 * (Zpos m * 100) + 2 ^ Zpos k) / 2 ^ (Zpos k + 1)
  | _ => Zpos m * 2 ^ e * 100
  end.

(** [+(x.toFixed(2))]: [toFixed] rounds the exact value of the double to
    hundredths, a tie going away from zero, and [+] reads the numeral
    back as the nearest double; from 10^21 on [toFixed] prints the number
    itself, as it does for NaN and the infinities. *)
Definition toFixed2 (x : num) : num :=
  if PrimFloat.leb (Num (inject_Z (10 ^ 21))) (PrimFloat.abs x) then x
  else
    match FloatOps.Prim2SF x with
    | SpecFloat.S754_finite s m e =>
        let r := nearest_double (hundredths m e) 100 in
        if s then PrimFloat.opp r else r
    | SpecFloat.S754_zero _ => zero
    | _ => x
    end.

(** A property of an object or a value read from the store: a property
    the object lacks, the empty text the store gives for a node without
    data, or a number. *)
Inductive cell :=
| Undefined
| Empty
| Number (n : num).

(** [c + 0] followed by arithmetic: [undefined + 0] is NaN; the empty text
    becomes the text ["0"], which arithmetic reads as zero. *)
Definition plus_zero (c : cell) : num :=
  match c with
  | Undefined => NaN
  | Empty => zero
  | Number n => add n zero
  end.

(** Exceptions the class can raise. *)
Inductive exn :=
| TypeError (what : string)
| ReferenceError (name : string).

Inductive result (A : Type) :=
| Ok (a : A)
| Throw (e : exn).
Arguments Ok {A} a.
Arguments Throw {A} e.

#[global] Instance result_fmap : FMap result :=
  λ A B f r, match r with
             | Ok a => Ok (f a)
             | Throw e => Throw e
             end.

(** The sum of a list of numbers, as a loop adding from the right. *)
Definition total (l : list num) : num := foldr add zero l.

End Js.

(** ** JSON-like values exchanged with the vendor *)

Module Json.
Import Js.

(** A JavaScript value as far as the class inspects it. The numbers
    exchanged with the control endpoints are integers. *)
#[warnings="-register-all"]
Inductive json :=
| JUndef
| JNull
| JBool (b : bool)
| JNum (n : Z)
| JStr (s : string)
| JArr (items : list json)
| JObj (fields : list (string * json)).

(** [!!v]. *)
Definition truthy (v : json) : bool :=
  match v with
  | JUndef | JNull => false
  | JBool b => b
  | JNum n => negb (n =? 0)
  | JStr s => negb (String.eqb s "")
  | JArr _ | JObj _ => true
  end.

(** [typeof v === 'object']. *)
Definition is_object (v : json) : bool :=
  match v with
  | JNull | JArr _ | JObj _ => true
  | _ => false
  end.

Fixpoint assoc (name : string) (fields : list (string * json)) : json :=
  match fields with
  | [] => JUndef
  | (k, v) :: fields' => if String.eqb k name then v else assoc name fields'
  end.

(** [v.name]: a [TypeError] on [undefined] and [null]; [undefined] for a
    property the value lacks. Indices and [length] are not properties the
    class reads. *)
Definition prop (v : json) (name : string) : result json :=
  match v with
  | JUndef | JNull => Throw (TypeError ("cannot read " +:+ name))
  | JObj fields => Ok (assoc name fields)
  | _ => Ok JUndef
  end.

End Json.

(** ** The request signer *)

Module Signer.
Import Js Json.

Definition lf : string := String (ascii_of_nat 10) EmptyString.

(** [x || d] for an optional text argument. *)
Definition or_default (x : option string) (d : string) : string :=
  match x with
  | None | Some EmptyString => d
  | Some s => s
  end.

Record signed := {
  stringToSign_ : string;
  md5_ : string
}.

(** The five lines of the string to sign. *)
Definition text (method md5 contentType date url : string) : string :=
  method +:+ lf +:+ md5 +:+ lf +:+ contentType +:+ lf +:+ date +:+ lf +:+ url.

Section pipeline.
(** [createHash('md5')...digest('base64')], the base64 HMAC-SHA1 under a
    key, and [JSON.stringify], by their interface. *)
Variable md5 : string → string.
Variable hmac_sha1 : string → string → string.
Variable stringify : json → string.

(** The text the digest is taken of: a structured body is serialised, a
    text is taken as it is; the hash refuses anything else. *)
Definition canonical (body : json) : result string :=
  if is_object body then Ok (stringify body)
  else match body with
       | JStr s => Ok s
       | _ => Throw (TypeError "data must be a string or a buffer")
       end.

(** [stringToSign(body, url, method, contentType, date)]; [utcNow] is
    what [new Date().toUTCString()] gives at the call. *)
Definition stringToSign (utcNow : string) (body : json) (url : string)
    (method contentType date : option string) : result signed :=
  let method := or_default method "POST" in
  let date := or_default date utcNow in
  let contentType := or_default contentType "application/json;charset=UTF-8" in
  match canonical body with
  | Throw e => Throw e
  | Ok data =>
      let md5 := md5 data in
      let str := text method md5 contentType date url in
      Ok {| stringToSign_ := str; md5_ := md5 |}
  end.

(** [signature(stringToSign, secretKey)]. *)
Definition signature (stringToSign secretKey : string) : string :=
  hmac_sha1 secretKey stringToSign.

(** The Authorization value [api] builds from a signed request. *)
Definition authorization (key secret : string) (sts : signed) : string :=
  "API " +:+ key +:+ ":" +:+ signature (stringToSign_ sts) secret.

(** What [api(url, payload, method)] hands to [request]. *)
Record requestArgs := {
  r_url : string;
  r_method : string;
  r_body : json;
  r_date : string;
  r_auth : string;
  r_md5 : string
}.

Definition api_args (utcNow key secret : string) (url : string)
    (payload : json) (method : option string) : result requestArgs :=
  let method := or_default method "POST" in
  let date := utcNow in
  match stringToSign utcNow payload url (Some method)
          (Some "application/json") (Some date) with
  | Throw e => Throw e
  | Ok sts =>
      Ok {| r_url := url; r_method := method; r_body := payload;
            r_date := date; r_auth := authorization key secret sts;
            r_md5 := md5_ sts |}
  end.

(** The whole pipeline: [stringToSign], then the Authorization value. *)
Definition sign (utcNow key secret : string) (body : json) (url : string)
    (method contentType date : option string) : result string :=
  match stringToSign utcNow body url method contentType date with
  | Throw e => Throw e
  | Ok sts => Ok (authorization key secret sts)
  end.

End pipeline.

(** Stand-ins for the digests, for worked examples only. *)
Definition echo (s : string) : string := s.
Definition echo_keyed (k s : string) : string := k +:+ "/" +:+ s.
Definition no_json (v : json) : string := "".

End Signer.

(** ** The date utility, by its interface *)

Module DateUtil.
(** What [date.now()], [date.at(t)], [date.atMidnight(offset)] and
    [date.atTime(text, dateIndex)] yield. *)
Record dateRec := {
  timeIndex : Z;
  dateIndex : Z;
  timeText : string;
  fullTimeText : string;
  slotTimeText : string;
  dayText : string;
  monthText : string;
  year : string;
  daylightSaving : bool;
  minute : Z;
  slotTimeIndex : Z;
  slotEndTimeIndex : Z;
  previousSlotTimeIndex : Z
}.

Record t := {
  now : dateRec;
  at_ : Z → dateRec;
  atMidnight : Z → dateRec;
  atTime : string → Z → dateRec
}.

Definition halfHour : Z := 1800000.
Definition dayMs : Z := 86400000.

(** A concrete instance for examples: UTC without daylight saving, the
    current time being [T]. *)
Definition pad2 (n : Z) : string :=
  if n <? 10 then "0" +:+ Text.of_Z n else Text.of_Z n.

Definition digit (a : ascii) : Z := Z.of_nat (nat_of_ascii a) - 48.

Definition minutesOfText (s : string) : Z :=
  match s with
  | String h1 (String h2 (String _ (String m1 (String m2 _)))) =>
      (digit h1 * 10 + digit h2) * 60 + digit m1 * 10 + digit m2
  | _ => 0
  end.

Definition utc_at (t : Z) : dateRec :=
  let ms := t mod dayMs in
  let mins := ms / 60000 in
  let slot := t - t mod halfHour in
  let hhmm (m : Z) := pad2 (m / 60) +:+ ":" +:+ pad2 (m mod 60) in
  {| timeIndex := t;
     dateIndex := t - ms;
     timeText := hhmm mins;
     fullTimeText := hhmm mins +:+ ":" +:+ pad2 ((ms / 1000) mod 60);
     slotTimeText := hhmm ((slot mod dayMs) / 60000);
     dayText := Text.of_Z (t / dayMs);
     monthText := "01";
     year := "1970";
     daylightSaving := false;
     minute := mins mod 60;
     slotTimeIndex := slot;
     slotEndTimeIndex := slot + halfHour;
     previousSlotTimeIndex := slot - halfHour |}.

Definition utc (T : Z) : t :=
  {| now := utc_at T;
     at_ := utc_at;
     atMidnight := λ offset, utc_at (T - T mod dayMs + offset * dayMs);
     atTime := λ text d, utc_at (d + minutesOfText text * 60000) |}.

End DateUtil.

(** ** The hierarchical store, by its interface

    A node of the store with numeric children is a finite map from keys
    to sub-trees; children are visited in numeric key order. A node
    exists when it has data or children. *)

Module Store.
Fixpoint max_key (l : list Z) : option Z :=
  match l with
  | [] => None
  | k :: l' => match max_key l' with
               | None => Some k
               | Some m => Some (Z.max k m)
               end
  end.

Fixpoint min_key (l : list Z) : option Z :=
  match l with
  | [] => None
  | k :: l' => match min_key l' with
               | None => Some k
               | Some m => Some (Z.min k m)
               end
  end.

Section node.
Context {A : Type}.

Definition keys (m : gmap Z A) : list Z := elements (dom m).

(** [node.childBefore(k)]: the key of the nearest child below [k]. *)
Definition childBefore (m : gmap Z A) (k : Z) : option Z :=
  max_key (filter (λ j, j < k) (keys m)).

(** [node.childAfter(k)]: the key of the nearest child above [k]. *)
Definition childAfter (m : gmap Z A) (k : Z) : option Z :=
  min_key (filter (λ j, k < j) (keys m)).

(** [node.lastChild]. *)
Definition lastChild (m : gmap Z A) : option Z := max_key (keys m).

(** The children in ascending and in descending ('reverse') key order. *)
Definition keys_asc (m : gmap Z A) : list Z := merge_sort Z.le (keys m).
Definition keys_desc (m : gmap Z A) : list Z := reverse (keys_asc m).

End node.

(** The two-level tree rooted at a named node: day, then time. A day
    without any child does not exist as a node. *)
Definition prune {A} (s : gmap Z (gmap Z A)) : gmap Z (gmap Z A) :=
  filter (λ kv, kv.2 ≠ ∅) s.

Definition day_node {A} (s : gmap Z (gmap Z A)) (d : Z) : option (gmap Z A) :=
  prune s !! d.

(** [root.$(d).$(k).document = v]. *)
Definition put {A} (s : gmap Z (gmap Z A)) (d k : Z) (v : A) : gmap Z (gmap Z A) :=
  <[d := <[k := v]> (default ∅ (s !! d))]> s.

(** [root.$(d).$(k)], when it exists. *)
Definition get {A} (s : gmap Z (gmap Z A)) (d k : Z) : option A :=
  s !! d ≫= λ m, m !! k.

End Store.

(** ** The snapshot store and the statistics read from it *)

Module TimeSeries.
Import Js DateUtil Store.

(** One row of the vendor's [inverterDay] answer. The time stamp is the
    integer the store key and [+time] stand for; the telemetry fields are
    JSON numbers, on which [+x] is the identity. *)
Record snapshot := {
  dataTimestamp : Z;
  pac : num;
  eToday : num;
  familyLoadPower : num;
  homeLoadTodayEnergy : num;
  pSum : num;
  gridPurchasedTodayEnergy : num;
  gridSellTodayEnergy : num;
  batteryCapacitySoc : num;
  batteryPower : num
}.

(** The document stored under [solis/dateIndex/timeIndex]. The store
    gives a number back as the number that was written. *)
Record doc := {
  at_text : string;
  time : string;
  pvOutputNow : num;
  pvOutputTotal : num;
  houseLoadNow : num;
  houseLoadTotal : num;
  gridImportNow : num;
  gridImportTotal : num;
  gridExportTotal : num;
  batteryLevel : num;
  batteryChargePower : num
}.

Abbreviation store := (gmap Z (gmap Z doc)).

(** The document [update] builds from a row. *)
Definition doc_of (date : DateUtil.t) (snap : snapshot) : doc :=
  let d := at_ date (dataTimestamp snap) in
  {| at_text := dayText d +:+ "/" +:+ monthText d +:+ "/" +:+ year d
                +:+ ": " +:+ timeText d;
     time := timeText d;
     pvOutputNow := div_int (pac snap) 1000;
     pvOutputTotal := eToday snap;
     houseLoadNow := div_int (familyLoadPower snap) 1000;
     houseLoadTotal := homeLoadTodayEnergy snap;
     gridImportNow := div_int (sub zero (pSum snap)) 1000;
     gridImportTotal := gridPurchasedTodayEnergy snap;
     gridExportTotal := gridSellTodayEnergy snap;
     batteryLevel := batteryCapacitySoc snap;
     batteryChargePower := batteryPower snap |}.

(** [tsRec.exists]. *)
Definition exists_at (s : store) (d k : Z) : bool :=
  bool_decide (is_Some (Store.get s d k)).

(** The body of the loop of [update]. *)
Definition ingest_one (date : DateUtil.t) (dateIndex : Z)
    (s : store) (snap : snapshot) : store :=
  if negb (exists_at s dateIndex (dataTimestamp snap))
     && negb (strict_eqb (homeLoadTodayEnergy snap) zero)
  then Store.put s dateIndex (dataTimestamp snap) (doc_of date snap)
  else s.

(** The loop of [update] over rows that all have their fields. *)
Definition ingest (date : DateUtil.t) (dateIndex : Z)
    (rows : list snapshot) (s : store) : store :=
  foldl (ingest_one date dateIndex) s rows.

(** An element of the array the vendor answers with: a row with its
    fields, or a value whose time stamp cannot be read and used as a
    key: [null], or a value without [dataTimestamp]. *)
Inductive row :=
| Row (snap : snapshot)
| BadRow.

(** The loop of [update] over the elements of the answer: reading the
    time stamp of a bad element throws, what was written before it
    stays. *)
Fixpoint ingest_rows (date : DateUtil.t) (dateIndex : Z)
    (rows : list row) (s : store) : result unit * store :=
  match rows with
  | [] => (Ok tt, s)
  | Row snap :: rows' =>
      ingest_rows date dateIndex rows' (ingest_one date dateIndex s snap)
  | BadRow :: _ => (Throw (TypeError "dataTimestamp of a row"), s)
  end.

(** The first of the rows that [update] writes under time stamp [k] when
    nothing is stored there. *)
Definition first_fresh (k : Z) (rows : list snapshot) : option snapshot :=
  List.find (λ r, (dataTimestamp r =? k)
                  && negb (strict_eqb (homeLoadTodayEnergy r) zero)) rows.

(** The object [powerAt] returns. The exact-match branch names its
    fourth property [gridimportTotal] and reads the node of that name;
    the neighbour branch names and reads [gridImportTotal]. *)
Record pview := {
  v_batteryLevel : cell;
  v_houseLoadTotal : cell;
  v_gridExportTotal : cell;
  v_gridImportTotal : cell;
  v_gridimportTotal : cell;
  v_pvOutputTotal : cell
}.

(** [timeNode.$(name).value] for a field every document has; a node
    that does not exist gives the empty value. *)
Definition read (n : option doc) (f : doc → num) : cell :=
  match n with
  | Some d => Number (f d)
  | None => Empty
  end.

(** [!index] for an index that is a number or undefined. *)
Definition falsy (o : option Z) : bool :=
  match o with
  | None => true
  | Some k => k =? 0
  end.

(** The time index [powerAt] settles on when there is no exact match. *)
Definition nearest (m : gmap Z doc) (timeIndex : Z) : option Z :=
  let beforeIndex := childBefore m timeIndex in
  let afterIndex := childAfter m timeIndex in
  if falsy beforeIndex then afterIndex
  else if falsy afterIndex then beforeIndex
  else
    match beforeIndex, afterIndex with
    | Some b, Some a =>
        let diff1 := timeIndex - b in
        let diff2 := a - timeIndex in
        if diff1 <? diff2 then Some b
        else if diff2 <? diff1 then Some a
        else Some b
    | _, _ => None
    end.

(** [powerAt] once the day node [m] is known to exist. When there is no
    exact match and no index is settled on, [timeIndex] is [undefined]
    and [dateNode.$(timeIndex)] throws in the store. *)
Definition powerAt_in (m : gmap Z doc) (timeIndex : Z) : result pview :=
  match m !! timeIndex with
  | Some d =>
      Ok {| v_batteryLevel := Number (batteryLevel d);
            v_houseLoadTotal := Number (houseLoadTotal d);
            v_gridExportTotal := Number (gridExportTotal d);
            v_gridImportTotal := Undefined;
            v_gridimportTotal := Empty;
            v_pvOutputTotal := Number (pvOutputTotal d) |}
  | None =>
      match nearest m timeIndex with
      | None => Throw (TypeError "path of undefined")
      | Some k =>
          let timeNode := m !! k in
          Ok {| v_batteryLevel := read timeNode batteryLevel;
                v_houseLoadTotal := read timeNode houseLoadTotal;
                v_gridExportTotal := read timeNode gridExportTotal;
                v_gridImportTotal := read timeNode gridImportTotal;
                v_gridimportTotal := Undefined;
                v_pvOutputTotal := read timeNode pvOutputTotal |}
      end
  end.

(** [powerAt(dateIndex, timeIndex)]; [Ok None] is [undefined]. *)
Definition powerAt (s : store) (dateIndex timeIndex : Z)
    : result (option pview) :=
  match day_node s dateIndex with
  | None => Ok None
  | Some m => Some <$> powerAt_in m timeIndex
  end.

(** The price attached to a slot. *)
Inductive price :=
| NotAvailable
| Price (p : num).

Abbreviation prices := (gmap Z (gmap Z num)).

Definition priceAt (agile : prices) (dateIndex timeIndex : Z) : price :=
  match Store.get agile dateIndex timeIndex with
  | Some p => Price p
  | None => NotAvailable
  end.

(** The running [sum] object of [getHistory]. *)
Record sums := {
  s_houseLoadTotal : num;
  s_gridExportTotal : num;
  s_gridImportTotal : num;
  s_pvOutputTotal : num
}.

Definition sums0 : sums :=
  {| s_houseLoadTotal := zero; s_gridExportTotal := zero;
     s_gridImportTotal := zero; s_pvOutputTotal := zero |}.

(** A per-slot record of [getHistory]: the object of [powerAt] with
    [time] and [price] added and the four summed properties replaced by
    their deltas. *)
Record hrec := {
  h_time : string;
  h_price : price;
  h_batteryLevel : cell;
  h_houseLoadTotal : num;
  h_gridExportTotal : num;
  h_gridImportTotal : num;
  h_gridimportTotal : cell;
  h_pvOutputTotal : num
}.

(** [value = data[name] + 0]. *)
Definition value_of (c : cell) : num := plus_zero c.

(** [data[name] = +(value - sum[name]).toFixed(2)]. *)
Definition delta (c : cell) (prev : num) : num :=
  toFixed2 (sub (value_of c) prev).

Definition slot_record (timeText : string) (p : price) (data : pview)
    (sum : sums) : hrec * sums :=
  ({| h_time := timeText;
      h_price := p;
      h_batteryLevel := v_batteryLevel data;
      h_houseLoadTotal := delta (v_houseLoadTotal data) (s_houseLoadTotal sum);
      h_gridExportTotal := delta (v_gridExportTotal data) (s_gridExportTotal sum);
      h_gridImportTotal := delta (v_gridImportTotal data) (s_gridImportTotal sum);
      h_gridimportTotal := v_gridimportTotal data;
      h_pvOutputTotal := delta (v_pvOutputTotal data) (s_pvOutputTotal sum) |},
   {| s_houseLoadTotal := value_of (v_houseLoadTotal data);
      s_gridExportTotal := value_of (v_gridExportTotal data);
      s_gridImportTotal := value_of (v_gridImportTotal data);
      s_pvOutputTotal := value_of (v_pvOutputTotal data) |}).

(** The loop of [getHistory]: [i] iterations are left, [timeIndex] is the
    boundary reached so far. What [powerAt] throws ends the loop and the
    operation. *)
Fixpoint history_loop (date : DateUtil.t) (agile : prices)
    (m : gmap Z doc) (dateIndex : Z)
    (i : nat) (timeIndex : Z) (sum : sums) : result (list hrec) :=
  match i with
  | O => Ok []
  | S i' =>
      let timeIndex := timeIndex + 1800000 in
      if timeIndex >? DateUtil.timeIndex (now date) then Ok []
      else
        match powerAt_in m timeIndex with
        | Throw e => Throw e
        | Ok data =>
            let '(r, sum') :=
              slot_record (timeText (at_ date timeIndex))
                (priceAt agile dateIndex timeIndex) data sum in
            cons r <$> history_loop date agile m dateIndex i' timeIndex sum'
        end
  end.

(** [getHistory(dateIndex)]; [Ok None] is the answer [false]. *)
Definition getHistory (date : DateUtil.t) (agile : prices) (s : store)
    (dateIndex : Z) : result (option (list hrec)) :=
  match day_node s dateIndex with
  | None => Ok None
  | Some m =>
      Some <$> history_loop date agile m dateIndex 47 dateIndex sums0
  end.

(** [x || d] on a text: the empty text is falsy. *)
Definition or_text (x d : string) : string :=
  match x with
  | EmptyString => d
  | _ => x
  end.

(** [getDataAt(timeText, offset)]; [None] is [undefined]. *)
Definition getDataAt (date : DateUtil.t) (s : store)
    (timeText : string) (offset : Z) : option doc :=
  let dateIndex := timeIndex (atMidnight date offset) in
  let timeIndex := timeIndex (atTime date timeText dateIndex) in
  let dataRecord := default ∅ (s !! dateIndex) in
  match dataRecord !! timeIndex with
  | Some d => Some d
  | None =>
      match childAfter dataRecord timeIndex with
      | Some k => dataRecord !! k
      | None => childBefore dataRecord timeIndex ≫= λ k, dataRecord !! k
      end
  end.

(** The answer of the averaging operations. *)
Record power := {
  load : num;
  pv : num
}.

Definition no_power : power := {| load := zero; pv := zero |}.

(** The day nodes [forEachChildNode] visits in reverse from [start]. *)
Definition days_from (s : store) (start : Z) : list Z :=
  filter (λ d, d ≤ start) (keys_desc (prune s)).

(** The day before the last one, from which the averages start. *)
Definition startDateIndex (s : store) : option Z :=
  lastChild (prune s) ≫= childBefore (prune s).

(** The callback of [averagePowerBetween], once per visited day; reading
    a property of a missing document raises a [TypeError]. *)
Fixpoint average_loop (date : DateUtil.t) (s : store) (from_ to_ : string)
    (days : list Z) (offset count : Z) (totalLoad totalPV : num)
    : result (Z * num * num) :=
  match days with
  | [] => Ok (count, totalLoad, totalPV)
  | _ :: days' =>
      let offset := offset - 1 in
      let count := count + 1 in
      match getDataAt date s from_ offset with
      | None => Throw (TypeError "houseLoadTotal of undefined")
      | Some data =>
          let startLoad := houseLoadTotal data in
          let startPV := pvOutputTotal data in
          match getDataAt date s to_ offset with
          | None => Throw (TypeError "houseLoadTotal of undefined")
          | Some data =>
              let endLoad := houseLoadTotal data in
              let endPV := pvOutputTotal data in
              let totalDayLoad := sub endLoad startLoad in
              let totalDayPV := sub endPV startPV in
              average_loop date s from_ to_ days' offset count
                (add totalLoad totalDayLoad) (add totalPV totalDayPV)
          end
      end
  end.

Definition averagePowerBetween (date : DateUtil.t) (s : store)
    (from_ to_ : string) : result power :=
  let from_ := or_text from_ "00:00" in
  let to_ := or_text to_ "23:59" in
  match startDateIndex s with
  | None => Ok no_power
  | Some start =>
      match average_loop date s from_ to_ (days_from s start) 0 0 zero zero with
      | Throw e => Throw e
      | Ok (count, totalLoad, totalPV) =>
          Ok {| load := div_int totalLoad count; pv := div_int totalPV count |}
      end
  end.

(** What the operations write to the log. *)
Inductive logEntry :=
| LogText (text : string)
| LogPower (p : power).

(** [averagePowerBetweenTimeIndices(fromTimeIndex, toTimeIndex, log)]:
    the lines logged and the outcome. *)
Definition averagePowerBetweenTimeIndices (date : DateUtil.t) (s : store)
    (fromTimeIndex toTimeIndex : Z) (log : bool)
    : list logEntry * result power :=
  let fromD := at_ date fromTimeIndex in
  let fromTimeText := timeText fromD in
  let fromDateIndex := dateIndex fromD in
  let toD := at_ date toTimeIndex in
  let toTimeText := timeText toD in
  let toDateIndex := dateIndex toD in
  let logged (l : list logEntry) := if log then l else [] in
  if fromDateIndex =? toDateIndex then
    match averagePowerBetween date s fromTimeText toTimeText with
    | Throw e => ([], Throw e)
    | Ok power =>
        (logged [LogText ("Power between " +:+ fromTimeText +:+ " and "
                          +:+ toTimeText +:+ ":");
                 LogPower power],
         Ok power)
    end
  else
    match averagePowerBetween date s fromTimeText "23:30" with
    | Throw e => ([], Throw e)
    | Ok power1 =>
        let l1 := logged [LogText ("Power between " +:+ fromTimeText
                                   +:+ " and 22:30:");
                          LogPower power1] in
        match averagePowerBetween date s "00:00" toTimeText with
        | Throw e => (l1, Throw e)
        | Ok power2 =>
            (l1 ++ logged [LogText ("Power between 00:00 and "
                                    +:+ toTimeText +:+ ":");
                           LogPower power2],
             Ok {| load := add (load power1) (load power2);
                   pv := add (pv power1) (pv power2) |})
        end
    end.

(** One step of the callback of [cleardown]. *)
Definition cleardown_step (noOfDaysToKeep : Z) (st : Z * store) (d : Z)
    : Z * store :=
  let count := st.1 + 1 in
  (count, if count >? noOfDaysToKeep then delete d st.2 else st.2).

(** [cleardown()], the retained window being [movingAveragePeriod]. *)
Definition cleardown (movingAveragePeriod : Z) (s : store) : store :=
  let noOfDaysToKeep := movingAveragePeriod + 1 in
  (foldl (cleardown_step noOfDaysToKeep) (0, s) (keys_desc (prune s))).2.

(** *** Notions the properties are stated with *)

(** The view of a stored document, as the neighbour branch builds it. *)
Definition view_of (d : doc) : pview :=
  {| v_batteryLevel := Number (batteryLevel d);
     v_houseLoadTotal := Number (houseLoadTotal d);
     v_gridExportTotal := Number (gridExportTotal d);
     v_gridImportTotal := Number (gridImportTotal d);
     v_gridimportTotal := Undefined;
     v_pvOutputTotal := Number (pvOutputTotal d) |}.

(** The time indices of a day are all non-zero. *)
Definition nonzero_keys (m : gmap Z doc) : Prop :=
  map_Forall (λ k _, k ≠ 0) m.

#[global] Instance nonzero_keys_dec m : Decision (nonzero_keys m).
Proof. unfold nonzero_keys. apply _. Defined.

(** A row that [update] writes when it meets it on store [s]. *)
Definition writes (dateIndex : Z) (s : store) (r : snapshot) : bool :=
  negb (exists_at s dateIndex (dataTimestamp r))
  && negb (strict_eqb (homeLoadTodayEnergy r) zero).

(** The deltas [getHistory] computes for one property: each value less the
    value before it, rounded; [prev] is the running sum on entry. *)
Fixpoint deltas_from (prev : num) (vs : list num) : list num :=
  match vs with
  | [] => []
  | v :: vs' => toFixed2 (sub v prev) :: deltas_from v vs'
  end.

(** The boundaries the loop of [getHistory] visits. *)
Fixpoint boundaries (date : DateUtil.t) (i : nat) (timeIndex : Z) : list Z :=
  match i with
  | O => []
  | S i' =>
      let timeIndex := timeIndex + 1800000 in
      if timeIndex >? DateUtil.timeIndex (now date) then []
      else timeIndex :: boundaries date i' timeIndex
  end.

(** The time index [powerAt] reads: the one asked for when a document
    is stored there, else the one it settles on. *)
Definition settled (m : gmap Z doc) (timeIndex : Z) : option Z :=
  match m !! timeIndex with
  | Some _ => Some timeIndex
  | None => nearest m timeIndex
  end.

(** The cumulative value [getHistory] takes for a property at a
    boundary: that of the document [powerAt] reads, plus zero. *)
Definition value_at (f : doc → num) (m : gmap Z doc) (timeIndex : Z) : num :=
  plus_zero (read (settled m timeIndex ≫= λ k, m !! k) f).

(** One property of the object [powerAt] answers with, and the deltas
    of one property in the list [getHistory] answers with. *)
Definition seen (vp : pview → cell) (r : result (option pview))
    : result (option cell) :=
  (λ data : option pview, vp <$> data) <$> r.

Definition deltas_of (hp : hrec → num) (r : result (option (list hrec)))
    : result (option (list num)) :=
  (λ hs : option (list hrec), (λ l : list hrec, hp <$> l) <$> hs) <$> r.

(** The store without the days [ds]. *)
Definition delete_all (ds : list Z) (s : store) : store :=
  foldl (λ s d, delete d s) s ds.

(** The day nodes of a store, most recent first. *)
Definition day_keys (s : store) : list Z := keys_desc (prune s).

(** The sum of two averages, the first failure prevailing. *)
Definition sum_power (r1 r2 : result power) : result power :=
  match r1, r2 with
  | Ok power1, Ok power2 =>
      Ok {| load := add (load power1) (load power2);
            pv := add (pv power1) (pv power2) |}
  | Throw e, _ => Throw e
  | Ok _, Throw e => Throw e
  end.

(** *** The half-hourly profile and the dates on offer *)

(** The first inner loop of the callback of [profile]: the house load
    [powerAt] reports at the 47 boundaries of a day. *)
Fixpoint profile_slots (m : gmap Z doc) (i : nat) (timeIndex : Z)
    : result (list cell) :=
  match i with
  | O => Ok []
  | S i' =>
      let timeIndex := timeIndex + 1800000 in
      match powerAt_in m timeIndex with
      | Throw e => Throw e
      | Ok data =>
          cons (v_houseLoadTotal data) <$> profile_slots m i' timeIndex
      end
  end.

(** The second inner loop: the rise over the running value, a value below
    the running value counting as the running value. *)
Fixpoint profile_deltas (sum : num) (slots : list cell) : list num :=
  match slots with
  | [] => []
  | c :: slots' =>
      let value := plus_zero c in
      let value := if lt value sum then sum else value in
      toFixed2 (sub value sum) :: profile_deltas value slots'
  end.

(** The callback of [profile] for one day node. *)
Definition profile_day (s : store) (totals : list num) (dateIndex : Z)
    : result (list num) :=
  let m := default ∅ (s !! dateIndex) in
  (λ slots, zip_with add totals (profile_deltas zero slots))
  <$> profile_slots m 47 dateIndex.

(** The callback run over the day nodes visited. *)
Fixpoint profile_days (s : store) (totals : list num) (days : list Z)
    : result (list num) :=
  match days with
  | [] => Ok totals
  | dateIndex :: days' =>
      match profile_day s totals dateIndex with
      | Throw e => Throw e
      | Ok totals' => profile_days s totals' days'
      end
  end.

Inductive profileResult :=
| NoProfile (error : string)
| Profile (totals : list num).

(** The getter [profile]. *)
Definition profile (s : store) : result profileResult :=
  match startDateIndex s with
  | None => Ok (NoProfile "No historical Solis Data is available yet")
  | Some start =>
      let days := days_from s start in
      let count := Z.of_nat (length days) in
      (λ totals, Profile ((λ x, toFixed2 (div_int x count)) <$> totals))
      <$> profile_days s (replicate 47 zero) days
  end.

(** The getter [availableDataDates]. *)
Definition availableDataDates (date : DateUtil.t) (s : store)
    : list (Z * string) :=
  (λ dateIndex,
     let d := at_ date dateIndex in
     (dateIndex, dayText d +:+ "/" +:+ monthText d +:+ "/" +:+ year d))
  <$> keys_desc (prune s).

(** Every stored day has non-zero time indices. *)
Definition nonzero_days (s : store) : Prop :=
  map_Forall (λ _ m, nonzero_keys m) s.

#[global] Instance nonzero_days_dec s : Decision (nonzero_days s).
Proof. unfold nonzero_days. apply _. Defined.

(** *** Stores for worked examples *)

(** One day with samples at 00:30 and 01:00. *)

Definition sample_row (t : Z) (load pv imported exported : Q) : snapshot :=
  {| dataTimestamp := t;
     pac := Num 500;
     eToday := Num pv;
     familyLoadPower := Num 300;
     homeLoadTodayEnergy := Num load;
     pSum := Num 0;
     gridPurchasedTodayEnergy := Num imported;
     gridSellTodayEnergy := Num exported;
     batteryCapacitySoc := Num 50;
     batteryPower := Num 0 |}.

Definition sample_day : Z := 86400000.

Definition sample_date : DateUtil.t := utc (sample_day + 3600000).

Definition sample_store : store :=
  ingest sample_date sample_day
    [ sample_row (sample_day + 1800000) 1 2 (32 # 10) 0;
      sample_row (sample_day + 3600000) (15 # 10) (25 # 10) (34 # 10) 0 ] ∅.

Definition sample_tree : gmap Z doc := default ∅ (sample_store !! sample_day).

(** One day with the cumulative loads 0.1 at 00:30 and 0.3 at 01:00. *)
Definition tenths_store : store :=
  ingest sample_date sample_day
    [ sample_row (sample_day + 1800000) (1 # 10) 0 0 0;
      sample_row (sample_day + 3600000) (3 # 10) 0 0 0 ] ∅.

(** A store of [n] day sub-trees, one document each. *)
Definition days_store (n : nat) : store :=
  foldr (λ d s, Store.put s (Z.of_nat d * 86400000)
                  (Z.of_nat d * 86400000 + 1800000)
                  (doc_of (utc 0) (sample_row 0 1 1 1 1)))
        ∅ (seq 1 n).

(** Three stored days with samples at 00:00, 02:00, 22:00 and 23:30. *)
Definition day_rows (d : Z) : list snapshot :=
  [ sample_row d (1 # 10) 0 0 0;
    sample_row (d + 7200000) (13 # 10) 0 0 0;
    sample_row (d + 79200000) 8 5 0 0;
    sample_row (d + 84600000) (95 # 10) 5 0 0 ].

Definition three_days : store :=
  foldl (λ s d, ingest (utc d) d (day_rows d) s) ∅
        [86400000; 172800000; 259200000].

End TimeSeries.

(** ** Inverter control and scheduling operations *)

Module Control.
Import Js Json DateUtil Store TimeSeries.

(** One remote call made through [api]. Its headers are those of
    [Signer.api_args]. *)
Record call := {
  c_url : string;
  c_body : json
}.

(** What [api] gives for the [inverterDay] endpoint, its rows typed: a
    [null] answer; the elements of an answer without a truthy [error]
    whose [data] is an array; or any other answer. *)
Inductive dayAnswer :=
| DayNull
| DayOther (resp : json)
| DayRows (rows : list row).

(** What [fetch] does with a request: it answers with a status and a
    body, or it throws, as the reading of the body may. *)
Inductive outcome :=
| Responded (status : Z) (body : json)
| Failed (err : json).

(** What an operation reads and never writes: the date utility, the
    configuration, the Agility flags and the vendor. [transport] gives
    the outcome of the latest of the calls made so far, [clock] the text
    of [new Date().toUTCString()] when [request] announces it,
    [optionsText] the text of [JSON.stringify(options)] for it, and
    [vendorDay] what [request] returns for it when it is the call of
    [inverterDayAPI]. *)
Record env := {
  date : DateUtil.t;
  configExists : bool;
  endpoint : string;
  inverterSn : string;
  key : string;
  secret : string;
  chargeCurrentSetting : option Z;
  dischargeCurrentSetting : option Z;
  chargingEnabled : bool;
  dischargingEnabled : bool;
  movingAveragePeriod : Z;
  clock : list call → string;
  optionsText : list call → string;
  transport : list call → outcome;
  vendorDay : list call → dayAnswer
}.

(** An event of the charge history. *)
Record chargeEvent := {
  start : option num;
  startMinute : option Z;
  end_ : option num
}.

(** What an operation may change: the cached firmware version, the
    stores, the battery collaborator's flag, the calls made and the log. *)
Record state := {
  firmwareVersion : option string;
  data : store;
  chargeHistory : gmap Z chargeEvent;
  dischargeControlFlag : bool;
  calls : list call;
  log : list string
}.

Definition set_firmwareVersion (v : option string) (st : state) : state :=
  {| firmwareVersion := v; data := data st; chargeHistory := chargeHistory st;
     dischargeControlFlag := dischargeControlFlag st; calls := calls st;
     log := log st |}.

Definition set_data (d : store) (st : state) : state :=
  {| firmwareVersion := firmwareVersion st; data := d;
     chargeHistory := chargeHistory st;
     dischargeControlFlag := dischargeControlFlag st; calls := calls st;
     log := log st |}.

Definition set_chargeHistory (h : gmap Z chargeEvent) (st : state) : state :=
  {| firmwareVersion := firmwareVersion st; data := data st;
     chargeHistory := h; dischargeControlFlag := dischargeControlFlag st;
     calls := calls st; log := log st |}.

Definition set_dischargeControlFlag (b : bool) (st : state) : state :=
  {| firmwareVersion := firmwareVersion st; data := data st;
     chargeHistory := chargeHistory st; dischargeControlFlag := b;
     calls := calls st; log := log st |}.

Definition set_calls (c : list call) (st : state) : state :=
  {| firmwareVersion := firmwareVersion st; data := data st;
     chargeHistory := chargeHistory st;
     dischargeControlFlag := dischargeControlFlag st; calls := c;
     log := log st |}.

Definition set_log (l : list string) (st : state) : state :=
  {| firmwareVersion := firmwareVersion st; data := data st;
     chargeHistory := chargeHistory st;
     dischargeControlFlag := dischargeControlFlag st; calls := calls st;
     log := l |}.

(** An asynchronous operation: it reads the environment, threads the
    state, and either returns or throws (a rejected promise). *)
Definition M (A : Type) : Type := env → state → result A * state.

Definition ret {A} (a : A) : M A := λ _ st, (Ok a, st).

Definition throw {A} (e : exn) : M A := λ _ st, (Throw e, st).

Definition bind {A B} (m : M A) (k : A → M B) : M B :=
  λ e st, match m e st with
          | (Ok a, st') => k a e st'
          | (Throw x, st') => (Throw x, st')
          end.

#[global] Instance M_ret : MRet M := @ret.
#[global] Instance M_bind : MBind M := λ A B k m, bind m k.

Definition ask : M env := λ e st, (Ok e, st).
Definition get : M state := λ _ st, (Ok st, st).
Definition modify (f : state → state) : M unit := λ _ st, (Ok tt, f st).

Definition lift {A} (r : result A) : M A :=
  match r with
  | Ok a => ret a
  | Throw e => throw e
  end.

(** [this.logger.write(text)]. *)
Definition write (text : string) : M unit :=
  modify (λ st, set_log (log st ++ [text]) st).

(** [{status: text}], [{error: text}] and [{ok: text}]. *)
Definition status (text : string) : json := JObj [("status", JStr text)].
Definition error (text : string) : json := JObj [("error", JStr text)].
Definition ok (text : string) : json := JObj [("ok", JStr text)].

(** What [request] returns for the latest of the calls [cs]: the body of
    an answer of status 200, and an error object for any other status
    and for what the transport throws, which [request] catches. *)
Definition vendor (e : env) (cs : list call) : json :=
  match transport e cs with
  | Responded status body =>
      if status =? 200 then body
      else error ("solis.request returned status " +:+ Text.of_Z status)
  | Failed err => JObj [("error", JStr "solis.request failed"); ("err", err)]
  end.

(** The lines [request] writes to the log for the latest of the calls
    [cs]: two that announce it, and one for the status of an answer. *)
Definition request_lines (e : env) (cs : list call) (url : string)
    : list string :=
  [ "solis.request at " +:+ clock e cs +:+ ": " +:+ endpoint e +:+ url;
    "options: " +:+ optionsText e cs ]
  ++ match transport e cs with
     | Responded status _ =>
         if status =? 200 then ["solis.request successful"]
         else ["solis.request failed: status: " +:+ Text.of_Z status]
     | Failed _ => []
     end.

(** The state once [request] has made the call [c]. *)
Definition requested (e : env) (c : call) (st : state) : state :=
  let cs := calls st ++ [c] in
  set_log (log st ++ request_lines e cs (c_url c)) (set_calls cs st).

(** [api(url, payload)]: the call is made, its lines are logged and
    [request]'s answer is returned. *)
Definition api (url : string) (payload : json) : M json :=
  e ← ask;
  modify (requested e {| c_url := url; c_body := payload |});;
  st ← get;
  ret (vendor e (calls st)).

(** [v.name] under a guard that [v] is truthy. *)
Definition field (v : json) (name : string) : json :=
  match v with
  | JObj fields => assoc name fields
  | _ => JUndef
  end.

(** [get isConfigured]. *)
Definition isConfigured : M bool :=
  e ← ask;
  if negb (configExists e) then ret false
  else if String.eqb (inverterSn e) "" then
    write "InverterSn not set in SolisCloud configuration";; ret false
  else if String.eqb (key e) "" then
    write "Key not set in SolisCloud configuration";; ret false
  else if String.eqb (secret e) "" then
    write "Secret not set in SolisCloud configuration";; ret false
  else ret true.

(** [get chargeCurrent] and [get dischargeCurrent]. *)
Definition chargeCurrent (e : env) : Z := default 50 (chargeCurrentSetting e).
Definition dischargeCurrent (e : env) : Z :=
  default 50 (dischargeCurrentSetting e).

(** [String.prototype.toUpperCase] on the letters a to z. *)
Definition upper_char (a : ascii) : ascii :=
  let n := nat_of_ascii a in
  if ((97 <=? n) && (n <=? 122))%nat then ascii_of_nat (n - 32) else a.

Fixpoint toUpperCase (s : string) : string :=
  match s with
  | EmptyString => EmptyString
  | String a s' => String (upper_char a) (toUpperCase s')
  end.

(** The dialect of a software version: it starts with ['4'] and the code
    of its second character is at least 66. *)
Definition classify (firmwareVersion : string) : string :=
  match firmwareVersion with
  | String "4" (String c _) =>
      if (66 <=? nat_of_ascii c)%nat then "post-4B00" else "pre-4B00"
  | _ => "pre-4B00"
  end.

(** [for (let record of records)], [records] being truthy. *)
Definition iterate (records : json) : result (list json) :=
  match records with
  | JArr items => Ok items
  | JStr s => Ok ((λ c, JStr (String c EmptyString)) <$> list_ascii_of_string s)
  | _ => Throw (TypeError "records is not iterable")
  end.

(** The loop of [setFirmwareVersion]: the first truthy software version,
    upper-cased. *)
Fixpoint first_version (records : list json) : result (option string) :=
  match records with
  | [] => Ok None
  | record :: records' =>
      match prop record "inverterSoftwareVersion" with
      | Throw e => Throw e
      | Ok v =>
          if truthy v then
            match v with
            | JStr s => Ok (Some (toUpperCase s))
            | _ => Throw (TypeError "toUpperCase is not a function")
            end
          else first_version records'
      end
  end.

Definition setFirmwareVersion : M bool :=
  e ← ask;
  res ← api "/v1/api/inverterDetail" (JObj [("sn", JStr (inverterSn e))]);
  let stationId := field (field res "data") "stationId" in
  if truthy res && truthy (field res "data") && truthy stationId then
    res ← api "/v1/api/inverterList" (JObj [("stationId", stationId)]);
    let records := field (field (field res "data") "page") "records" in
    if truthy res && truthy (field res "data")
       && truthy (field (field res "data") "page") && truthy records then
      items ← lift (iterate records);
      found ← lift (first_version items);
      match found with
      | Some firmwareVersion =>
          modify (set_firmwareVersion (Some (classify firmwareVersion)));;
          ret true
      | None => ret false
      end
    else ret false
  else ret false.

Definition getFirmwareVersion : M string :=
  st ← get;
  match firmwareVersion st with
  | Some v => ret v
  | None =>
      ok ← setFirmwareVersion;
      if negb ok then ret "Unknown"
      else st ← get; ret (default "" (firmwareVersion st))
  end.

(** The common tail of the control calls: an answer with a truthy
    [error] is returned as it is, an answer without [data] becomes an
    error object, and otherwise [k] goes on. *)
Definition guarded (resp : json) (failure : string) (k : M json) : M json :=
  err ← lift (prop resp "error");
  if truthy err then ret resp
  else if negb (truthy (field resp "data")) then
    write failure;; ret (error failure)
  else k.

Definition controlAPI (cid : Z) (value : json) : M json :=
  e ← ask;
  api "/v2/api/control"
    (JObj [("inverterSn", JStr (inverterSn e)); ("cid", JNum cid);
           ("value", value)]).

Definition chargeAPI (chargeTimeString : string) : M json :=
  resp ← controlAPI 4643 (JStr chargeTimeString);
  guarded resp "Solis charge API failed" (ret resp).

Definition dischargeAPI (dischargeTimeString : string) : M json :=
  resp ← controlAPI 4643 (JStr dischargeTimeString);
  guarded resp "Solis discharge API failed" (ret resp).

(** [v.slice(0, n) === lit], [v] being truthy. *)
Definition slice_is (v : json) (n : nat) (lit : string) : result bool :=
  match v with
  | JStr s => Ok (String.eqb (substring 0 n s) lit)
  | JArr _ => Ok false
  | _ => Throw (TypeError "slice is not a function")
  end.

Definition is_string (v : json) : bool :=
  match v with
  | JStr _ => true
  | _ => false
  end.

Definition atReadAPI : M json :=
  e ← ask;
  resp ← api "/v2/api/atRead"
           (JObj [("inverterSn", JStr (inverterSn e)); ("cid", JNum 4643)]);
  err ← lift (prop resp "error");
  if truthy err then ret resp
  else
    let data := field resp "data" in
    if negb (truthy data) || is_string data then
      write "solis.atRead API failed (1)";;
      ret (error "solis.atRead API failed (1)")
    else if negb (truthy (field data "msg")) then
      write "solis.atRead API failed (2)";;
      ret (error "solis.atRead API failed (2)")
    else if negb (truthy (field data "yuanzhi")) then
      write "solis.atRead API failed (3)";;
      ret (error "solis.atRead API failed (3)")
    else
      let yuanzhi := field data "yuanzhi" in
      fail ← lift (slice_is yuanzhi 4 "fail");
      if fail : bool then
        write "solis.atRead API failed (4)";;
        ret (error "solis.atRead API failed (4)")
      else
        err ← lift (slice_is yuanzhi 5 "error");
        if err : bool then
          write "solis.atRead API failed (5)";;
          ret (error "solis.atRead API failed (5)")
        else ret resp.

(** [current || fallback] for an optional number. *)
Definition or_current (current : option Z) (fallback : Z) : Z :=
  match current with
  | None | Some 0 => fallback
  | Some c => c
  end.

Definition post4B00Charge (fromTimeText toTimeText : string)
    (current : option Z) : M json :=
  e ← ask;
  let current := or_current current (chargeCurrent e) in
  resp ← controlAPI 5948 (JNum current);
  guarded resp "Solis charge current setting 5948 API failed"
    (resp ← controlAPI 5928 (JNum 100);
     guarded resp "Solis charge SOC setting 5928 API failed"
       (resp ← controlAPI 5946 (JStr (fromTimeText +:+ "-" +:+ toTimeText));
        guarded resp "Solis charge setting 5946 API failed"
          (ret (status ("Inverter successfully set to charge between "
                        +:+ fromTimeText +:+ " and " +:+ toTimeText))))).

Definition post4B00Discharge (fromTimeText toTimeText : string)
    (current : option Z) : M json :=
  e ← ask;
  let current := or_current current (dischargeCurrent e) in
  resp ← controlAPI 5967 (JNum current);
  guarded resp "Solis discharge current setting 5967 API failed"
    (resp ← controlAPI 5965 (JNum 0);
     guarded resp "Solis discharge SOC setting 5965 API failed"
       (resp ← controlAPI 5964 (JStr (fromTimeText +:+ "-" +:+ toTimeText));
        guarded resp "Solis discharge setting 5964 API failed"
          (ret (status ("Inverter successfully set to discharge between "
                        +:+ fromTimeText +:+ " and " +:+ toTimeText))))).

(** [resp.data.msg] as the text [split] is called on. *)
Definition setting_of (resp : json) : M string :=
  match field (field resp "data") "msg" with
  | JStr s => ret s
  | _ => throw (TypeError "currentSetting.split is not a function")
  end.

(** [get dataNow]; [None] is [undefined]. Reading the document of a
    missing last child raises a [TypeError]. *)
Definition dataNow : M (option doc) :=
  e ← ask;
  st ← get;
  let now := DateUtil.now (date e) in
  let timeIndex := DateUtil.timeIndex now in
  let dataRecord := default ∅ (data st !! DateUtil.dateIndex now) in
  match dataRecord !! timeIndex with
  | Some d => ret (Some d)
  | None =>
      match childBefore dataRecord timeIndex with
      | Some k => ret (dataRecord !! k)
      | None =>
          if String.eqb (slotTimeText now) "00:00" then
            let d := atMidnight (date e) (-1) in
            let yesterday := default ∅ (data st !! DateUtil.dateIndex d) in
            match lastChild yesterday ≫= λ k, yesterday !! k with
            | Some record2 => ret (Some record2)
            | None => throw (TypeError "document of undefined")
            end
          else ret None
      end
  end.

Definition batteryLevelNow : M (option num) :=
  dataNow ← dataNow;
  ret (batteryLevel <$> dataNow).

(** [if (levelNow)]. *)
Definition level_truthy (levelNow : option num) : bool :=
  match levelNow with
  | Some x => negb (falsy_num x)
  | None => false
  end.

Definition startNewChargeHistoryRecord : M unit :=
  levelNow ← batteryLevelNow;
  if level_truthy levelNow then
    e ← ask;
    let d := DateUtil.now (date e) in
    modify (λ st,
      let old := chargeHistory st !! slotTimeIndex d in
      set_chargeHistory
        (<[slotTimeIndex d :=
             {| start := levelNow; startMinute := Some (minute d);
                end_ := old ≫= end_ |}]> (chargeHistory st)) st)
  else ret tt.

(** The legacy path shared by the operations: read the settings string,
    rewrite it, push it back, and report. *)
Definition legacy (rewrite_with : string → string) (push : string → M json)
    (done_text : string) (after : M unit) : M json :=
  resp ← atReadAPI;
  err ← lift (prop resp "error");
  if truthy err then ret resp
  else
    chargeString ← setting_of resp;
    let chargeString := rewrite_with chargeString in
    resp ← push chargeString;
    err ← lift (prop resp "error");
    if truthy err then ret resp
    else after;; ret (status done_text).

Definition between (fromTimeText toTimeText : string) : string :=
  fromTimeText +:+ " and " +:+ toTimeText.

Definition inverterCharge (override : bool) : M json :=
  e ← ask;
  if negb override && negb (chargingEnabled e) then
    write "Charging logic is currently disabled";;
    ret (status "Inverter Charge task ignored")
  else
    startNewChargeHistoryRecord;;
    let fromD := DateUtil.now (date e) in
    let toD := at_ (date e) (slotEndTimeIndex fromD) in
    firmwareVersion ← getFirmwareVersion;
    if String.eqb firmwareVersion "post-4B00" then
      post4B00Charge (timeText fromD) (timeText toD) None
    else
      legacy
        (λ s, Settings.chargeTimeString (chargeCurrent e) s
                (timeText fromD) (timeText toD))
        chargeAPI
        ("Inverter set to charge between "
         +:+ between (timeText fromD) (timeText toD))
        (ret tt).

Definition inverterChargeBetween (fromTimeText toTimeText : string) : M json :=
  e ← ask;
  firmwareVersion ← getFirmwareVersion;
  if String.eqb firmwareVersion "post-4B00" then
    post4B00Charge fromTimeText toTimeText None
  else
    legacy
      (λ s, Settings.chargeTimeString (chargeCurrent e) s
              fromTimeText toTimeText)
      chargeAPI
      ("Inverter set to charge between " +:+ between fromTimeText toTimeText)
      (ret tt).

Definition inverterDischarge (override : bool) : M json :=
  e ← ask;
  if negb override && negb (dischargingEnabled e) then
    write "Discharging logic is currently disabled";;
    ret (status "Inverter Discharge task ignored")
  else
    let fromD := DateUtil.now (date e) in
    let toD := at_ (date e) (slotEndTimeIndex fromD) in
    firmwareVersion ← getFirmwareVersion;
    if String.eqb firmwareVersion "post-4B00" then
      post4B00Discharge (timeText fromD) (timeText toD) None
    else
      legacy
        (λ s, Settings.dischargeTimeString (dischargeCurrent e) s
                (timeText fromD) (timeText toD))
        dischargeAPI
        ("Inverter set to discharge between "
         +:+ between (timeText fromD) (timeText toD))
        (modify (set_dischargeControlFlag false)).

(** [inverterDischargeBetween(fromTimeText, toTimeText)]. On the
    post-4B00 path the arguments of [post4B00Discharge] are
    [fromD.timeText] and [toD.timeText], and the function declares no
    [fromD]: evaluating them raises a [ReferenceError]. *)
Definition inverterDischargeBetween (fromTimeText toTimeText : string)
    : M json :=
  e ← ask;
  firmwareVersion ← getFirmwareVersion;
  if String.eqb firmwareVersion "post-4B00" then
    throw (ReferenceError "fromD")
  else
    legacy
      (λ s, Settings.dischargeTimeString (dischargeCurrent e) s
              fromTimeText toTimeText)
      dischargeAPI
      ("Inverter set to discharge between "
       +:+ between fromTimeText toTimeText)
      (ret tt).

Definition inverterGridOnly (override : bool) : M json :=
  e ← ask;
  if negb override && negb (chargingEnabled e) then
    write "Charging logic is currently disabled";;
    ret (status "Inverter Grid Only task ignored")
  else
    let fromD := DateUtil.now (date e) in
    let toD := at_ (date e) (slotEndTimeIndex fromD) in
    firmwareVersion ← getFirmwareVersion;
    if String.eqb firmwareVersion "post-4B00" then
      post4B00Discharge (timeText fromD) (timeText toD) (Some 0)
    else
      legacy
        (λ s, Settings.gridOnlyTimeString s (timeText fromD) (timeText toD))
        dischargeAPI
        ("Inverter set to only use grid power between "
         +:+ between (timeText fromD) (timeText toD))
        (ret tt).

Definition inverterGridPowerBetween (fromTimeText toTimeText : string)
    : M json :=
  firmwareVersion ← getFirmwareVersion;
  if String.eqb firmwareVersion "post-4B00" then
    post4B00Discharge fromTimeText toTimeText (Some 0)
  else
    legacy
      (λ s, Settings.gridOnlyTimeString s fromTimeText toTimeText)
      dischargeAPI
      ("Inverter set to only use grid power between "
       +:+ between fromTimeText toTimeText)
      (ret tt).

Definition inverterResetNow (override : bool) : M json :=
  e ← ask;
  if negb override && negb (chargingEnabled e) then
    ret (error "Charging logic is currently disabled, so no reset command sent")
  else
    firmwareVersion ← getFirmwareVersion;
    if String.eqb firmwareVersion "post-4B00" then
      post4B00Charge "00:00" "00:00" (Some 0)
    else
      legacy Settings.resetTimeString chargeAPI
        "Inverter reset successfully" (ret tt).

(** [inverterReset()]: the reset is made only when the time of day reads
    00:00; [inverterResetNow] is called without its argument. *)
Definition inverterReset : M json :=
  e ← ask;
  let d := DateUtil.now (date e) in
  if String.eqb (timeText d) "00:00" then inverterResetNow false
  else ret (status "Inverter reset only done at midnight").

(** What [inverterDayAPI] returns: an object, or the answer with the
    elements of its [data]. *)
Inductive dayResult :=
| DayResp (resp : json)
| DayData (rows : list row).

(** The call [inverterDayAPI(offset)] makes: the day as
    [year-month-day] and the time zone, 1 under daylight saving. *)
Definition day_call (e : env) (offset : Z) : call :=
  let d := atMidnight (date e) offset in
  {| c_url := "/v1/api/inverterDay";
     c_body :=
       JObj [("sn", JStr (inverterSn e)); ("money", JStr "UKP");
             ("time", JStr (year d +:+ "-" +:+ monthText d +:+ "-"
                            +:+ dayText d));
             ("timeZone", JNum (if daylightSaving d then 1 else 0))] |}.

Definition inverterDayAPI (offset : Z) : M dayResult :=
  configured ← isConfigured;
  if negb configured then
    ret (DayResp (error "SolisCloud credentials are incomplete"))
  else
    e ← ask;
    modify (requested e (day_call e offset));;
    st ← get;
    match vendorDay e (calls st) with
    | DayNull => throw (TypeError "cannot read error")
    | DayOther resp =>
        if truthy (field resp "error") then ret (DayResp resp)
        else
          write "solis.inverterDay API failed";;
          ret (DayResp (error "solis.inverterDay API failed"))
    | DayRows rows => ret (DayData rows)
    end.

Definition update (offset : Z) : M json :=
  resp ← inverterDayAPI offset;
  match resp with
  | DayResp resp => ret resp
  | DayData rows =>
      e ← ask;
      st ← get;
      let dateIndex := timeIndex (atMidnight (date e) offset) in
      let '(r, s) := ingest_rows (date e) dateIndex rows (data st) in
      modify (set_data s);;
      lift r;;
      ret (ok "Solis Data updated successfully")
  end.

(** [cleardown()] on the store of the class. *)
Definition cleardown : M unit :=
  e ← ask;
  modify (λ st, set_data (TimeSeries.cleardown (movingAveragePeriod e)
                            (data st)) st);;
  write ("Solis data cleared down to most recent "
         +:+ Text.of_Z (movingAveragePeriod e + 1) +:+ " days").

(** *** Notions the properties are stated with *)

(** The configuration holds the three credentials. *)
Definition credentials (e : env) : bool :=
  configExists e && negb (String.eqb (inverterSn e) "")
  && negb (String.eqb (key e) "") && negb (String.eqb (secret e) "").

(** The state after [update(offset)] has stored [rows]. *)
Definition updated (e : env) (offset : Z) (rows : list snapshot)
    (st : state) : state :=
  set_data
    (ingest (date e) (timeIndex (atMidnight (date e) offset)) rows (data st))
    (requested e (day_call e offset) st).

(** An object has a property of this name. *)
Definition has_field (v : json) (name : string) : bool :=
  match field v name with
  | JUndef => false
  | _ => true
  end.

(** A returned object that has a property of this name. *)
Definition reports (r : result json) (name : string) : bool :=
  match r with
  | Ok v => has_field v name
  | Throw _ => false
  end.

(** The call [atReadAPI] makes. *)
Definition atRead_call (e : env) : call :=
  {| c_url := "/v2/api/atRead";
     c_body := JObj [("inverterSn", JStr (inverterSn e)); ("cid", JNum 4643)] |}.

(** *** A vendor and a configuration for worked examples *)

Definition demo_setting : string :=
  "50,50,02:00-05:00,00:00-00:00,0,0,00:00-00:00,1,1,0,00:00-00:00".

Definition demo_vendor (version : string) (cs : list call) : json :=
  match last cs with
  | None => JUndef
  | Some c =>
      if String.eqb (c_url c) "/v1/api/inverterDetail" then
        JObj [("data", JObj [("stationId", JNum 7)])]
      else if String.eqb (c_url c) "/v1/api/inverterList" then
        JObj [("data", JObj [("page", JObj [("records",
                JArr [JObj [("inverterSoftwareVersion", JStr version)]])])])]
      else if String.eqb (c_url c) "/v2/api/atRead" then
        JObj [("data", JObj [("msg", JStr demo_setting);
                             ("yuanzhi", JStr "ok")])]
      else JObj [("data", JObj [("code", JNum 0)])]
  end.

Definition demo_env (T : Z) (charging discharging : bool)
    (version : string) (rows : list snapshot) : env :=
  {| date := utc T;
     configExists := true;
     endpoint := "https://www.soliscloud.com:13333";
     inverterSn := "SN1";
     key := "k";
     secret := "s";
     chargeCurrentSetting := None;
     dischargeCurrentSetting := Some 40;
     chargingEnabled := charging;
     dischargingEnabled := discharging;
     movingAveragePeriod := 7;
     clock := λ _, "Thu, 01 Jan 1970 00:00:00 GMT";
     optionsText := λ _, "{}";
     transport := λ cs, Responded 200 (demo_vendor version cs);
     vendorDay := λ _, DayRows (Row <$> rows) |}.

Definition demo_state (cached : option string) : state :=
  {| firmwareVersion := cached;
     data := ∅;
     chargeHistory := ∅;
     dischargeControlFlag := true;
     calls := [];
     log := [] |}.

(** A vendor that answers every call with status 500. *)
Definition failing_env : env :=
  {| date := utc 3600000;
     configExists := true;
     endpoint := "https://www.soliscloud.com:13333";
     inverterSn := "SN1";
     key := "k";
     secret := "s";
     chargeCurrentSetting := None;
     dischargeCurrentSetting := None;
     chargingEnabled := true;
     dischargingEnabled := true;
     movingAveragePeriod := 7;
     clock := λ _, "Thu, 01 Jan 1970 00:00:00 GMT";
     optionsText := λ _, "{}";
     transport := λ _, Responded 500 JUndef;
     vendorDay := λ _, DayOther (error "solis.request returned status 500") |}.

Definition demo_rows : list snapshot :=
  [ sample_row (sample_day + 1800000) 1 2 (32 # 10) 0;
    sample_row (sample_day + 3600000) 0 0 0 0;
    sample_row (sample_day + 1800000) 9 9 9 9 ].

(** *** Restoring the store and closing a charge event *)

(** The loop of [restore]: [n] iterations are left, [i] is the loop
    variable. *)
Fixpoint restore_loop (n : nat) (i : Z) : M unit :=
  match n with
  | O => ret tt
  | S n' => update (- i);; restore_loop n' (i + 1)
  end.

(** [restore(cleardown)]: [this.data.delete()] removes the whole store;
    the days before today are fetched only when today's update answers
    without a truthy [error]. *)
Definition restore (cleardown : bool) : M unit :=
  (if cleardown then modify (set_data ∅) else ret tt);;
  e ← ask;
  let noOfDaysToStore := movingAveragePeriod e + 1 in
  res ← update 0;
  if negb (truthy (field res "error")) then
    restore_loop (Z.to_nat (noOfDaysToStore - 1)) 1
  else ret tt.

Definition endChargeHistoryRecord : M unit :=
  levelNow ← batteryLevelNow;
  if level_truthy levelNow then
    e ← ask;
    let d := DateUtil.now (date e) in
    modify (λ st,
      match chargeHistory st !! previousSlotTimeIndex d with
      | Some old =>
          set_chargeHistory
            (<[previousSlotTimeIndex d :=
                 {| start := start old; startMinute := startMinute old;
                    end_ := levelNow |}]> (chargeHistory st)) st
      | None => st
      end)
  else ret tt.

(** *** More notions the properties are stated with *)

(** The call [controlAPI(cid, value)] makes. *)
Definition control_call (e : env) (cid : Z) (value : json) : call :=
  {| c_url := "/v2/api/control";
     c_body := JObj [("inverterSn", JStr (inverterSn e)); ("cid", JNum cid);
                     ("value", value)] |}.

(** An answer the control calls go on from: not null, without a truthy
    [error], with a truthy [data]. *)
Definition accepted (resp : json) : bool :=
  match prop resp "error" with
  | Ok err => negb (truthy err) && truthy (field resp "data")
  | Throw _ => false
  end.

(** The answer to [inverterDay] has rows. *)
Definition is_rows (a : dayAnswer) : bool :=
  match a with
  | DayRows _ => true
  | _ => false
  end.

Definition is_row (r : row) : bool :=
  match r with
  | Row _ => true
  | BadRow => false
  end.

(** An answer to [inverterDay] that [update] goes through without
    throwing: it is not [null], and every element of its rows has a time
    stamp. *)
Definition well_formed (a : dayAnswer) : bool :=
  match a with
  | DayNull => false
  | DayOther _ => true
  | DayRows rows => forallb is_row rows
  end.



(** An operation whose every run, returning or throwing, relates the
    state it starts from to the state it leaves. *)
Definition keeps {A} (R : relation state) (m : M A) : Prop :=
  ∀ e st, R st (m e st).2.

(** The snapshot store is as it was, the calls and the log have only
    been added to. *)
Definition extends (st st' : state) : Prop :=
  data st' = data st
  ∧ calls st `prefix_of` calls st' ∧ log st `prefix_of` log st'.

(** [extends], and a cached firmware dialect is still the cached one. *)
Definition grows (st st' : state) : Prop :=
  extends st st'
  ∧ ∀ v, firmwareVersion st = Some v → firmwareVersion st' = Some v.

Definition same_history (st st' : state) : Prop :=
  chargeHistory st' = chargeHistory st.

Definition same_flag (st st' : state) : Prop :=
  dischargeControlFlag st' = dischargeControlFlag st.


(** The settings string of an answer [atReadAPI] lets through and the
    legacy path can split: no truthy [error], a [data] object with a
    truthy [yuanzhi] that starts with neither [fail] nor [error], and a
    non-empty text as [msg]. *)
Definition readable (resp : json) : option string :=
  match prop resp "error" with
  | Throw _ => None
  | Ok err =>
      let data := field resp "data" in
      let yuanzhi := field data "yuanzhi" in
      if truthy err || negb (truthy data) || is_string data
         || negb (truthy (field data "msg")) || negb (truthy yuanzhi)
      then None
      else
        match slice_is yuanzhi 4 "fail", slice_is yuanzhi 5 "error",
              field data "msg" with
        | Ok false, Ok false, JStr s => Some s
        | _, _, _ => None
        end
  end.

End Control.

(** * Properties of the embedding *)

(** ** Facts about the text helpers *)

Module TextFacts.
Import Text.

Lemma contains_app c s t :
  contains c (s +:+ t) = contains c s || contains c t.
Proof.
  induction s as [|a s IH]; simpl; [done|].
  destruct (Ascii.eqb a c); [done|apply IH].
Qed.

Lemma split_nonempty c s : split c s ≠ [].
Proof.
  destruct s as [|a s]; simpl; [done|].
  destruct (Ascii.eqb a c); [done|]. by destruct (split c s).
Qed.

Lemma split_contains c s : Forall (λ x, contains c x = false) (split c s).
Proof.
  induction s as [|a s IH]; simpl.
  - by repeat constructor.
  - destruct (Ascii.eqb a c) eqn:E.
    + by constructor.
    + destruct (split c s) as [|h t]; simpl.
      * repeat constructor. simpl. by rewrite E.
      * inversion IH; subst. constructor; [|done]. simpl. by rewrite E.
Qed.

Lemma split_no_sep c x : contains c x = false → split c x = [x].
Proof.
  induction x as [|a x IH]; simpl; [done|].
  destruct (Ascii.eqb a c); [done|]. intros H. by rewrite (IH H).
Qed.

Lemma split_app_sep c x s :
  contains c x = false →
  split c (x +:+ String c s) = x :: split c s.
Proof.
  induction x as [|a x IH]; simpl.
  - intros _. by rewrite Ascii.eqb_refl.
  - destruct (Ascii.eqb a c); [done|]. intros H. by rewrite (IH H).
Qed.

(** Splitting undoes joining when no element contains the separator. *)
Lemma split_join c l :
  l ≠ [] → Forall (λ x, contains c x = false) l → split c (join c l) = l.
Proof.
  induction l as [|x t IH]; [done|]. intros _ HF.
  inversion HF as [|? ? Hx Ht]; subst.
  destruct t as [|y t'].
  - simpl. by apply split_no_sep.
  - change (join c (x :: y :: t')) with (x +:+ String c (join c (y :: t'))).
    rewrite split_app_sep by done. f_equal. by apply IH.
Qed.

Lemma of_uint_no_comma d :
  contains comma (NilEmpty.string_of_uint d) = false.
Proof. induction d; simpl; done. Qed.

Lemma of_nzuint_no_comma d :
  contains comma (NilZero.string_of_uint d) = false.
Proof. destruct d; try done; apply of_uint_no_comma. Qed.

Lemma of_Z_no_comma n : contains comma (of_Z n) = false.
Proof.
  unfold of_Z. destruct (Z.to_int n) as [d|d]; simpl.
  - apply of_nzuint_no_comma.
  - apply of_nzuint_no_comma.
Qed.

End TextFacts.

(** ** Facts about the settings-string rewrites *)

Module SettingsFacts.
Import Text TextFacts Settings.

Lemma array_set_in_range i v pcs :
  (i < length pcs)%nat → array_set i v pcs = <[i:=v]> pcs.
Proof. intros H. unfold array_set. by rewrite decide_True. Qed.

Lemma rewrite6_in_range v0 v1 v2 v3 pcs :
  (11 ≤ length pcs)%nat →
  rewrite6 v0 v1 v2 v3 pcs =
  <[10%nat:=EStr zero_window]>
    (<[6%nat:=EStr zero_window]>
       (<[3%nat:=v3]> (<[2%nat:=v2]> (<[1%nat:=v1]> (<[0%nat:=v0]> pcs))))).
Proof.
  intros H. unfold rewrite6.
  rewrite (array_set_in_range 0) by lia.
  rewrite (array_set_in_range 1) by (rewrite !length_insert; lia).
  rewrite (array_set_in_range 2) by (rewrite !length_insert; lia).
  rewrite (array_set_in_range 3) by (rewrite !length_insert; lia).
  rewrite (array_set_in_range 6) by (rewrite !length_insert; lia).
  rewrite (array_set_in_range 10) by (rewrite !length_insert; lia).
  done.
Qed.

Lemma rewrite6_length v0 v1 v2 v3 pcs :
  (11 ≤ length pcs)%nat → length (rewrite6 v0 v1 v2 v3 pcs) = length pcs.
Proof. intros H. rewrite rewrite6_in_range by done. by rewrite !length_insert. Qed.

Lemma rewrite6_frame v0 v1 v2 v3 pcs i :
  (11 ≤ length pcs)%nat → rewritten i = false →
  rewrite6 v0 v1 v2 v3 pcs !! i = pcs !! i.
Proof.
  intros H Hi. rewrite rewrite6_in_range by done.
  rewrite !list_lookup_insert_ne; [done|intros E; subst i; discriminate..].
Qed.

Lemma rewrite6_comma_free v0 v1 v2 v3 pcs :
  (11 ≤ length pcs)%nat →
  comma_free v0 → comma_free v1 → comma_free v2 → comma_free v3 →
  Forall comma_free pcs → Forall comma_free (rewrite6 v0 v1 v2 v3 pcs).
Proof.
  intros H H0 H1 H2 H3 HF. rewrite rewrite6_in_range by done.
  repeat (apply Forall_insert; [|done]). done.
Qed.

Lemma split_setting_comma_free s : Forall comma_free (split_setting s).
Proof.
  unfold split_setting. apply Forall_fmap.
  eapply Forall_impl; [apply split_contains|]. by intros x Hx.
Qed.

Lemma window_comma_free a b :
  contains comma a = false → contains comma b = false →
  comma_free (EStr (window a b)).
Proof.
  intros Ha Hb. unfold comma_free, window. simpl.
  by rewrite !contains_app, Ha, Hb.
Qed.

(** The fields of a rewritten string are the texts of the rewritten array. *)
Lemma fields_rewrite v0 v1 v2 v3 s :
  (11 ≤ length (fields s))%nat →
  comma_free v0 → comma_free v1 → comma_free v2 → comma_free v3 →
  fields (join_setting (rewrite6 v0 v1 v2 v3 (split_setting s))) =
  elt_text <$> rewrite6 v0 v1 v2 v3 (split_setting s).
Proof.
  intros H H0 H1 H2 H3. unfold fields, join_setting.
  assert (Hlen : (11 ≤ length (split_setting s))%nat).
  { unfold split_setting. by rewrite length_fmap. }
  apply split_join.
  - intros E. apply (f_equal length) in E.
    rewrite length_fmap, rewrite6_length in E by done. simpl in E. lia.
  - apply Forall_fmap.
    apply (rewrite6_comma_free v0 v1 v2 v3 _ Hlen H0 H1 H2 H3).
    apply split_setting_comma_free.
Qed.

Lemma rewrite_keeps_fields v0 v1 v2 v3 s :
  (11 ≤ length (fields s))%nat →
  comma_free v0 → comma_free v1 → comma_free v2 → comma_free v3 →
  let out := join_setting (rewrite6 v0 v1 v2 v3 (split_setting s)) in
  length (fields out) = length (fields s) ∧
  ∀ i, rewritten i = false → fields out !! i = fields s !! i.
Proof.
  intros H H0 H1 H2 H3 out. subst out.
  rewrite fields_rewrite by done.
  assert (Hlen : (11 ≤ length (split_setting s))%nat).
  { unfold split_setting. by rewrite length_fmap. }
  split.
  - rewrite length_fmap, rewrite6_length by done.
    unfold split_setting. by rewrite length_fmap.
  - intros i Hi. rewrite list_lookup_fmap, rewrite6_frame by done.
    unfold split_setting. rewrite list_lookup_fmap.
    unfold fields. by destruct (split comma s !! i).
Qed.

Lemma zero_window_comma_free : comma_free (EStr zero_window).
Proof. reflexivity. Qed.

Lemma num_comma_free n : comma_free (ENum n).
Proof. apply of_Z_no_comma. Qed.

(** With fewer than eleven fields the assignment to position 10 grows the
    array, so the field count is not kept. *)
Example reset_short_setting :
  fields (resetTimeString "50,50") =
  ["0"; "0"; "00:00-00:00"; "00:00-00:00"; ""; ""; "00:00-00:00"; ""; ""; "";
   "00:00-00:00"].
Proof. reflexivity. Qed.

(** A time text with a comma adds a field: the string read has eleven
    fields, the string returned has twelve, and the field at position 4,
    which no rewrite sets, is no longer the one that was read. *)
Lemma rewrite_comma_adds_field :
  let s := "10,20,a,b,c,d,e,f,g,h,i" in
  let out := chargeTimeString 50 s "01,30" "02:00" in
  length (fields s) = 11%nat ∧ length (fields out) = 12%nat
  ∧ rewritten 4 = false
  ∧ fields s !! 4%nat = Some "c" ∧ fields out !! 4%nat = Some "00:00-00:00".
Proof. vm_compute. repeat split. Qed.

Example charge_sample :
  chargeTimeString 50 "10,20,a,b,c,d,e,f,g,h,i" "01:30" "02:00" =
  "50,0,01:30-02:00,00:00-00:00,c,d,00:00-00:00,f,g,h,00:00-00:00".
Proof. reflexivity. Qed.

(** *** The frame of the rewrites *)

(** C10 (as amended). For a legacy settings string [s] of at least eleven
    comma-separated fields, and time-of-day texts without a comma, each of
    [chargeTimeString], [dischargeTimeString], [gridOnlyTimeString] and
    [resetTimeString] returns a string with as many fields as [s], whose
    fields at every position other than 0, 1, 2, 3, 6 and 10 are those
    of [s]. *)
Theorem rewrites_frame (chargeCurrent dischargeCurrent : Z)
    (s fromTimeText toTimeText out : string) :
  (11 ≤ length (fields s))%nat →
  contains comma fromTimeText = false →
  contains comma toTimeText = false →
  out ∈ [ chargeTimeString chargeCurrent s fromTimeText toTimeText;
          dischargeTimeString dischargeCurrent s fromTimeText toTimeText;
          gridOnlyTimeString s fromTimeText toTimeText;
          resetTimeString s ] →
  length (fields out) = length (fields s) ∧
  ∀ i, rewritten i = false → fields out !! i = fields s !! i.
Proof.
  intros Hlen Hf Ht Hout.
  pose proof (window_comma_free _ _ Hf Ht) as Hw.
  pose proof zero_window_comma_free as Hz.
  assert (Hcases : out = chargeTimeString chargeCurrent s fromTimeText toTimeText
                   ∨ out = dischargeTimeString dischargeCurrent s fromTimeText toTimeText
                   ∨ out = gridOnlyTimeString s fromTimeText toTimeText
                   ∨ out = resetTimeString s).
  { rewrite !elem_of_cons in Hout. rewrite elem_of_nil in Hout. tauto. }
  destruct Hcases as [-> | [-> | [-> | ->]]];
    apply rewrite_keeps_fields; auto using num_comma_free.
Qed.

Lemma rewrites_frame_witness :
  let s := "50,50,02:00-05:00,00:00-00:00,0,0,00:00-00:00,1,1,0,00:00-00:00" in
  let out := dischargeTimeString 40 s "16:00" "16:30" in
  length (fields out) = length (fields s) ∧
  ∀ i, rewritten i = false → fields out !! i = fields s !! i.
Proof.
  intros s out.
  apply (rewrites_frame 50 40 s "16:00" "16:30" out).
  - vm_compute. lia.
  - reflexivity.
  - reflexivity.
  - subst out. apply list_elem_of_further, list_elem_of_here.
Defined.

(** *** Settings strings of any length *)

Lemma fmap_array_set i v pcs :
  elt_text <$> array_set i v pcs = text_set i (elt_text v) (elt_text <$> pcs).
Proof.
  unfold array_set, text_set. rewrite length_fmap.
  destruct (decide (i < length pcs)%nat).
  - by rewrite list_fmap_insert.
  - by rewrite !fmap_app, fmap_replicate.
Qed.

Lemma fmap_rewrite6 v0 v1 v2 v3 pcs :
  elt_text <$> rewrite6 v0 v1 v2 v3 pcs =
  texts6 (elt_text v0) (elt_text v1) (elt_text v2) (elt_text v3)
    (elt_text <$> pcs).
Proof. unfold rewrite6, texts6. by rewrite !fmap_array_set. Qed.

Lemma texts_split_setting s : elt_text <$> split_setting s = fields s.
Proof.
  unfold split_setting, fields. rewrite <- list_fmap_compose.
  apply list_fmap_id.
Qed.

Lemma text_set_length i x l :
  length (text_set i x l) = (S i `max` length l)%nat.
Proof.
  unfold text_set. destruct (decide (i < length l)%nat).
  - rewrite length_insert. lia.
  - rewrite !length_app, length_replicate. simpl. lia.
Qed.

Lemma text_at_set i x l j :
  text_at j (text_set i x l) = if decide (j = i) then x else text_at j l.
Proof.
  unfold text_at, text_set. destruct (decide (i < length l)%nat) as [Hi|Hi].
  - destruct (decide (j = i)) as [->|Hj].
    + by rewrite list_lookup_insert_eq.
    + by rewrite list_lookup_insert_ne.
  - destruct (decide (j = i)) as [->|Hj].
    + rewrite lookup_app_r by lia.
      rewrite lookup_app_r by (rewrite length_replicate; lia).
      rewrite length_replicate. by rewrite Nat.sub_diag.
    + destruct (decide (j < length l)%nat) as [Hl|Hl].
      * by rewrite lookup_app_l.
      * rewrite lookup_app_r by lia.
        rewrite (lookup_ge_None_2 l j) by lia. simpl.
        destruct (decide (j < i)%nat).
        -- rewrite lookup_app_l by (rewrite length_replicate; lia).
           rewrite lookup_replicate_2 by lia. done.
        -- rewrite lookup_ge_None_2; [done|].
           rewrite length_app, length_replicate. simpl. lia.
Qed.

Lemma texts6_length t0 t1 t2 t3 l :
  length (texts6 t0 t1 t2 t3 l) = (11 `max` length l)%nat.
Proof. unfold texts6. rewrite !text_set_length. lia. Qed.

Lemma text_at_texts6 t0 t1 t2 t3 l j :
  text_at j (texts6 t0 t1 t2 t3 l) = written t0 t1 t2 t3 j (text_at j l).
Proof.
  unfold texts6. rewrite !text_at_set.
  do 11 (destruct j as [|j]; [reflexivity|]). reflexivity.
Qed.

Lemma texts_eq (l1 l2 : list string) :
  length l1 = length l2 → (∀ j, text_at j l1 = text_at j l2) → l1 = l2.
Proof.
  intros Hlen Hat. apply list_eq. intros j.
  destruct (decide (j < length l1)%nat) as [Hj|Hj].
  - destruct (lookup_lt_is_Some_2 l1 j Hj) as [x Hx].
    destruct (lookup_lt_is_Some_2 l2 j ltac:(lia)) as [y Hy].
    specialize (Hat j). unfold text_at in Hat. rewrite Hx, Hy in Hat.
    simpl in Hat. by rewrite Hx, Hy, Hat.
  - by rewrite !lookup_ge_None_2 by lia.
Qed.

Lemma text_set_comma_free i x l :
  contains comma x = false →
  Forall (λ y, contains comma y = false) l →
  Forall (λ y, contains comma y = false) (text_set i x l).
Proof.
  intros Hx Hl. unfold text_set. destruct (decide (i < length l)%nat).
  - by apply Forall_insert.
  - apply Forall_app. split; [done|]. apply Forall_app. split.
    + by apply Forall_replicate.
    + by repeat constructor.
Qed.

Lemma fields_texts6 t0 t1 t2 t3 l :
  contains comma t0 = false → contains comma t1 = false →
  contains comma t2 = false → contains comma t3 = false →
  Forall (λ y, contains comma y = false) l →
  fields (join comma (texts6 t0 t1 t2 t3 l)) = texts6 t0 t1 t2 t3 l.
Proof.
  intros H0 H1 H2 H3 Hl. unfold fields. apply split_join.
  - intros E. apply (f_equal length) in E. rewrite texts6_length in E.
    simpl in E. lia.
  - unfold texts6. by repeat apply text_set_comma_free.
Qed.

(** Every rewrite, on a settings string of any length. *)
Lemma rewrite_fields v0 v1 v2 v3 s :
  comma_free v0 → comma_free v1 → comma_free v2 → comma_free v3 →
  fields (join_setting (rewrite6 v0 v1 v2 v3 (split_setting s))) =
  texts6 (elt_text v0) (elt_text v1) (elt_text v2) (elt_text v3) (fields s).
Proof.
  intros H0 H1 H2 H3. unfold join_setting.
  rewrite fmap_rewrite6, texts_split_setting.
  apply fields_texts6; try done. apply split_contains.
Qed.

Lemma rewrite_any_length v0 v1 v2 v3 s :
  comma_free v0 → comma_free v1 → comma_free v2 → comma_free v3 →
  let out := join_setting (rewrite6 v0 v1 v2 v3 (split_setting s)) in
  length (fields out) = (11 `max` length (fields s))%nat ∧
  ∀ j, field_at j out =
       written (elt_text v0) (elt_text v1) (elt_text v2) (elt_text v3) j
         (field_at j s).
Proof.
  intros H0 H1 H2 H3 out. subst out. unfold field_at.
  rewrite rewrite_fields by done. split.
  - apply texts6_length.
  - intros j. apply text_at_texts6.
Qed.

Lemma reset_after_rewrite v0 v1 v2 v3 s :
  comma_free v0 → comma_free v1 → comma_free v2 → comma_free v3 →
  resetTimeString (join_setting (rewrite6 v0 v1 v2 v3 (split_setting s))) =
  resetTimeString s.
Proof.
  intros H0 H1 H2 H3. unfold resetTimeString.
  set (out := join_setting (rewrite6 v0 v1 v2 v3 (split_setting s))).
  unfold join_setting. f_equal.
  rewrite !fmap_rewrite6, !texts_split_setting. subst out.
  rewrite rewrite_fields by done.
  apply texts_eq.
  - rewrite !texts6_length. lia.
  - intros j. rewrite !text_at_texts6.
    do 11 (destruct j as [|j]; [reflexivity|]). reflexivity.
Qed.

(** X1. Whatever the number of fields of the string read, each rewrite
    returns a string of at least eleven fields (exactly as many as the
    string read when that had eleven or more): positions 0 to 3 hold the
    two currents and the two windows of the operation, positions 6 and 10
    the zero window, every other position the field read there, or the
    empty text where the string read had no such field. *)
Theorem rewrites_any_length (chargeCurrent dischargeCurrent : Z)
    (s fromTimeText toTimeText : string) :
  contains comma fromTimeText = false →
  contains comma toTimeText = false →
  let w := window fromTimeText toTimeText in
  let shape t0 t1 t2 t3 out :=
    length (fields out) = (11 `max` length (fields s))%nat ∧
    ∀ j, field_at j out = written t0 t1 t2 t3 j (field_at j s) in
  shape (of_Z chargeCurrent) "0" w zero_window
    (chargeTimeString chargeCurrent s fromTimeText toTimeText) ∧
  shape "0" (of_Z dischargeCurrent) zero_window w
    (dischargeTimeString dischargeCurrent s fromTimeText toTimeText) ∧
  shape "0" "0" zero_window w
    (gridOnlyTimeString s fromTimeText toTimeText) ∧
  shape "0" "0" zero_window zero_window (resetTimeString s).
Proof.
  intros Hf Ht w shape. subst shape.
  pose proof (window_comma_free _ _ Hf Ht) as Hw.
  pose proof zero_window_comma_free as Hz.
  split; [|split; [|split]].
  - apply (rewrite_any_length (ENum chargeCurrent) (ENum 0) (EStr w)
             (EStr zero_window) s); auto using num_comma_free.
  - apply (rewrite_any_length (ENum 0) (ENum dischargeCurrent)
             (EStr zero_window) (EStr w) s); auto using num_comma_free.
  - apply (rewrite_any_length (ENum 0) (ENum 0) (EStr zero_window) (EStr w) s);
      auto using num_comma_free.
  - apply (rewrite_any_length (ENum 0) (ENum 0) (EStr zero_window)
             (EStr zero_window) s); auto using num_comma_free.
Qed.

Lemma rewrites_any_length_witness :
  let s := "50,50" in
  let w := window "16:00" "16:30" in
  let shape t0 t1 t2 t3 out :=
    length (fields out) = (11 `max` length (fields s))%nat ∧
    ∀ j, field_at j out = written t0 t1 t2 t3 j (field_at j s) in
  shape (of_Z 50) "0" w zero_window (chargeTimeString 50 s "16:00" "16:30") ∧
  shape "0" (of_Z 40) zero_window w (dischargeTimeString 40 s "16:00" "16:30") ∧
  shape "0" "0" zero_window w (gridOnlyTimeString s "16:00" "16:30") ∧
  shape "0" "0" zero_window zero_window (resetTimeString s).
Proof.
  apply (rewrites_any_length 50 40 "50,50" "16:00" "16:30"); reflexivity.
Defined.

(** X2. A reset wipes what any rewrite wrote: resetting the string a charge,
    discharge, grid-only or reset rewrite returned gives the string that
    resetting the original gives; in particular a reset applied twice is
    a reset. *)
Theorem reset_absorbs_rewrites (chargeCurrent dischargeCurrent : Z)
    (s fromTimeText toTimeText : string) :
  contains comma fromTimeText = false →
  contains comma toTimeText = false →
  resetTimeString (chargeTimeString chargeCurrent s fromTimeText toTimeText)
    = resetTimeString s ∧
  resetTimeString
    (dischargeTimeString dischargeCurrent s fromTimeText toTimeText)
    = resetTimeString s ∧
  resetTimeString (gridOnlyTimeString s fromTimeText toTimeText)
    = resetTimeString s ∧
  resetTimeString (resetTimeString s) = resetTimeString s.
Proof.
  intros Hf Ht.
  pose proof (window_comma_free _ _ Hf Ht) as Hw.
  pose proof zero_window_comma_free as Hz.
  repeat split; apply reset_after_rewrite; auto using num_comma_free.
Qed.

Lemma reset_absorbs_rewrites_witness :
  let s := "50,50,02:00-05:00,00:00-00:00,0,0,00:00-00:00,1,1,0,00:00-00:00" in
  resetTimeString (chargeTimeString 50 s "16:00" "16:30") = resetTimeString s ∧
  resetTimeString (dischargeTimeString 40 s "16:00" "16:30")
    = resetTimeString s ∧
  resetTimeString (gridOnlyTimeString s "16:00" "16:30") = resetTimeString s ∧
  resetTimeString (resetTimeString s) = resetTimeString s.
Proof.
  intros s.
  apply (reset_absorbs_rewrites 50 40 s "16:00" "16:30"); reflexivity.
Defined.

End SettingsFacts.

(** ** Facts about numbers and rounding *)

Module JsFacts.
Import Js.

(** The arithmetic is that of doubles: a difference and a sum of
    one-decimal numbers that are not the one-decimal results. *)
Example sub_rounds :
  sub (Num (3 # 10)) (Num (1 # 10))
  = Num (19999999999999998 # 100000000000000000).
Proof. vm_compute. reflexivity. Qed.

Example add_rounds :
  add (Num (1 # 10)) (Num (2 # 10))
  = Num (30000000000000004 # 100000000000000000).
Proof. vm_compute. reflexivity. Qed.

(** [toFixed(2)] rounds the exact value of the double: the double
    nearest to 1.005 lies below it, 0.125 is a tie and goes up. *)
Example toFixed2_below_tie : toFixed2 (Num (1005 # 1000)) = Num 1.
Proof. vm_compute. reflexivity. Qed.

Example toFixed2_tie : toFixed2 (Num (125 # 1000)) = Num (13 # 100).
Proof. vm_compute. reflexivity. Qed.

Example toFixed2_negative :
  toFixed2 (Num (- (2675 # 1000))) = Num (- (267 # 100)).
Proof. vm_compute. reflexivity. Qed.

Example toFixed2_NaN : toFixed2 NaN = NaN.
Proof. vm_compute. reflexivity. Qed.

Lemma fmap_Ok {A B} (f : A → B) (r : result A) (b : B) :
  f <$> r = Ok b ↔ ∃ a, r = Ok a ∧ b = f a.
Proof.
  destruct r as [a|x]; cbn; split.
  - intros [= <-]. by exists a.
  - by intros (a' & [= <-] & ->).
  - discriminate.
  - by intros (a' & [=] & _).
Qed.

End JsFacts.

(** ** Facts about the request signer *)

Module SignerFacts.
Import Js Json Signer.

Lemma length_append (a b : string) :
  String.length (a +:+ b) = (String.length a + String.length b)%nat.
Proof.
  induction a as [|x a IH]; [done|].
  change (S (String.length (a +:+ b))
          = S (String.length a + String.length b)). by rewrite IH.
Qed.

Lemma append_inj_l (a b c : string) : a +:+ c = b +:+ c → a = b.
Proof.
  revert b. induction a as [|x a IH]; intros [|y b] H.
  - done.
  - apply (f_equal String.length) in H.
    rewrite !length_append in H. simpl in H. lia.
  - apply (f_equal String.length) in H.
    rewrite !length_append in H. simpl in H. lia.
  - change (String x (a +:+ c) = String y (b +:+ c)) in H.
    injection H as -> H. f_equal. by apply IH.
Qed.

Lemma append_inj_r (a b c : string) : a +:+ b = a +:+ c → b = c.
Proof.
  induction a as [|x a IH]; intros H; [exact H|].
  change (String x (a +:+ b) = String x (a +:+ c)) in H.
  apply IH. congruence.
Qed.

Lemma text_method_inj m m' h ct d u : text m h ct d u = text m' h ct d u → m = m'.
Proof. unfold text. apply append_inj_l. Qed.

Lemma text_url_inj m h ct d u u' : text m h ct d u = text m h ct d u' → u = u'.
Proof. unfold text. intros H. by do 8 apply append_inj_r in H. Qed.

Lemma text_date_inj m h ct d d' u : text m h ct d u = text m h ct d' u → d = d'.
Proof.
  unfold text. intros H. do 6 apply append_inj_r in H.
  by apply append_inj_l in H.
Qed.

Lemma text_contentType_inj m h ct ct' d u :
  text m h ct d u = text m h ct' d u → ct = ct'.
Proof.
  unfold text. intros H. do 4 apply append_inj_r in H.
  by apply append_inj_l in H.
Qed.

Lemma or_default_nonempty s d : s ≠ "" → or_default (Some s) d = s.
Proof. by destruct s. Qed.

(** *** Determinism and format *)

(** C9 (as amended). With a date supplied, signing does not depend on
    when it runs; the string to sign is METHOD, the digest of the
    canonical body, CONTENT-TYPE, DATE and URL-PATH joined by line
    breaks, the omitted method and content type taking their defaults;
    the Authorization value is ["API " + key + ":"] followed by the keyed
    digest of that string under the secret; and a change of the
    effective method, content type, date or url alone changes the string
    to sign. *)
Theorem signing_pipeline (md5 : string → string)
    (hmac_sha1 : string → string → string) (stringify : json → string)
    (key secret : string) (body : json) (data url : string)
    (method contentType : option string) (date : string) :
  canonical stringify body = Ok data → date ≠ "" →
  let M := or_default method "POST" in
  let CT := or_default contentType "application/json;charset=UTF-8" in
  let str := text M (md5 data) CT date url in
  (∀ now1 now2,
     sign md5 hmac_sha1 stringify now1 key secret body url method contentType
       (Some date)
     = sign md5 hmac_sha1 stringify now2 key secret body url method
         contentType (Some date))
  ∧ (∀ now, stringToSign md5 stringify now body url method contentType
              (Some date)
            = Ok {| stringToSign_ := str; md5_ := md5 data |})
  ∧ (∀ now, sign md5 hmac_sha1 stringify now key secret body url method
              contentType (Some date)
            = Ok ("API " +:+ key +:+ ":" +:+ hmac_sha1 secret str))
  ∧ (∀ M', text M' (md5 data) CT date url = str → M' = M)
  ∧ (∀ CT', text M (md5 data) CT' date url = str → CT' = CT)
  ∧ (∀ date', text M (md5 data) CT date' url = str → date' = date)
  ∧ (∀ url', text M (md5 data) CT date url' = str → url' = url).
Proof.
  intros Hdata Hdate M CT str.
  assert (∀ now, stringToSign md5 stringify now body url method contentType
                   (Some date)
                 = Ok {| stringToSign_ := str; md5_ := md5 data |}) as Hsts.
  { intros now. unfold stringToSign. rewrite Hdata.
    by rewrite or_default_nonempty. }
  assert (∀ now, sign md5 hmac_sha1 stringify now key secret body url method
                   contentType (Some date)
                 = Ok ("API " +:+ key +:+ ":" +:+ hmac_sha1 secret str))
    as Hsign.
  { intros now. unfold sign. by rewrite Hsts. }
  split_and!; try done.
  - intros now1 now2. by rewrite !Hsign.
  - intros M'. apply text_method_inj.
  - intros CT'. apply text_contentType_inj.
  - intros date'. apply text_date_inj.
  - intros url'. apply text_url_inj.
Qed.

Lemma signing_pipeline_witness :
  let date := "Mon, 01 Jan 2024 00:00:00 GMT" in
  let str := text "POST" "a=1" "application/json;charset=UTF-8" date
               "/v2/api/control" in
  (∀ now1 now2,
     sign echo echo_keyed no_json now1 "key" "secret" (JStr "a=1")
       "/v2/api/control" (Some "POST") None (Some date)
     = sign echo echo_keyed no_json now2 "key" "secret" (JStr "a=1")
         "/v2/api/control" (Some "POST") None (Some date))
  ∧ (∀ now, stringToSign echo no_json now (JStr "a=1") "/v2/api/control"
              (Some "POST") None (Some date)
            = Ok {| stringToSign_ := str; md5_ := "a=1" |})
  ∧ (∀ now, sign echo echo_keyed no_json now "key" "secret" (JStr "a=1")
              "/v2/api/control" (Some "POST") None (Some date)
            = Ok ("API " +:+ "key" +:+ ":" +:+ echo_keyed "secret" str))
  ∧ (∀ M', text M' "a=1" "application/json;charset=UTF-8" date
             "/v2/api/control" = str → M' = "POST")
  ∧ (∀ CT', text "POST" "a=1" CT' date "/v2/api/control" = str
            → CT' = "application/json;charset=UTF-8")
  ∧ (∀ date', text "POST" "a=1" "application/json;charset=UTF-8" date'
                "/v2/api/control" = str → date' = date)
  ∧ (∀ url', text "POST" "a=1" "application/json;charset=UTF-8" date url'
             = str → url' = "/v2/api/control").
Proof.
  intros date str.
  apply (signing_pipeline echo echo_keyed no_json "key" "secret" (JStr "a=1")
           "a=1" "/v2/api/control" (Some "POST") None date).
  - reflexivity.
  - discriminate.
Defined.

(** Two inputs changed alone that leave the Authorization value as it
    was, whatever the digests: the method omitted or given as its
    default, and a structured body or its serialised text. *)
Lemma signature_unchanged_by_change :
  (None ≠ Some "POST"
   ∧ ∀ md5 hmac_sha1 stringify now key secret body url contentType date,
       sign md5 hmac_sha1 stringify now key secret body url None
         contentType date
       = sign md5 hmac_sha1 stringify now key secret body url (Some "POST")
           contentType date)
  ∧ (∀ stringify, JObj [("a", JNum 1)] ≠ JStr (stringify (JObj [("a", JNum 1)])))
  ∧ (∀ md5 hmac_sha1 stringify now key secret url method contentType date,
       sign md5 hmac_sha1 stringify now key secret (JObj [("a", JNum 1)]) url
         method contentType date
       = sign md5 hmac_sha1 stringify now key secret
           (JStr (stringify (JObj [("a", JNum 1)]))) url method
           contentType date).
Proof. split_and!; done. Qed.

End SignerFacts.

(** ** Facts about the ordered lookups of the store *)

Module StoreFacts.
Import Store.

(** *** Facts about the ordered lookups *)

Lemma max_key_None l : max_key l = None → l = [].
Proof. destruct l as [|k l]; simpl; [done|]. by destruct (max_key l). Qed.

Lemma max_key_Some l k :
  max_key l = Some k → k ∈ l ∧ ∀ j, j ∈ l → j ≤ k.
Proof.
  revert k. induction l as [|a l IH]; simpl; intros k Hk; [done|].
  destruct (max_key l) as [m|] eqn:E.
  - destruct (IH m eq_refl) as [Hin Hle]. injection Hk as <-. split.
    + destruct (Z.max_spec a m) as [[_ ->]|[_ ->]].
      * by apply list_elem_of_further.
      * apply list_elem_of_here.
    + intros j Hj. apply elem_of_cons in Hj as [->|Hj]; [lia|].
      specialize (Hle j Hj). lia.
  - injection Hk as <-. apply max_key_None in E as ->. split.
    + apply list_elem_of_here.
    + intros j Hj. apply elem_of_cons in Hj as [->|Hj]; [lia|].
      by apply elem_of_nil in Hj.
Qed.

Lemma min_key_None l : min_key l = None → l = [].
Proof. destruct l as [|k l]; simpl; [done|]. by destruct (min_key l). Qed.

Lemma min_key_Some l k :
  min_key l = Some k → k ∈ l ∧ ∀ j, j ∈ l → k ≤ j.
Proof.
  revert k. induction l as [|a l IH]; simpl; intros k Hk; [done|].
  destruct (min_key l) as [m|] eqn:E.
  - destruct (IH m eq_refl) as [Hin Hle]. injection Hk as <-. split.
    + destruct (Z.min_spec a m) as [[_ ->]|[_ ->]].
      * apply list_elem_of_here.
      * by apply list_elem_of_further.
    + intros j Hj. apply elem_of_cons in Hj as [->|Hj]; [lia|].
      specialize (Hle j Hj). lia.
  - injection Hk as <-. apply min_key_None in E as ->. split.
    + apply list_elem_of_here.
    + intros j Hj. apply elem_of_cons in Hj as [->|Hj]; [lia|].
      by apply elem_of_nil in Hj.
Qed.

Section node_facts.
Context {A : Type}.
Implicit Types (m : gmap Z A) (k j : Z).

Lemma elem_of_keys m k : k ∈ keys m ↔ is_Some (m !! k).
Proof. unfold keys. by rewrite elem_of_elements, elem_of_dom. Qed.

Lemma childBefore_Some m k b :
  childBefore m k = Some b →
  b < k ∧ is_Some (m !! b) ∧ ∀ j, is_Some (m !! j) → j < k → j ≤ b.
Proof.
  unfold childBefore. intros [Hin Hmax]%max_key_Some.
  apply list_elem_of_filter in Hin as [Hlt Hin]. apply elem_of_keys in Hin.
  split_and!; [done..|]. intros j Hj Hjk. apply Hmax.
  apply list_elem_of_filter. split; [done|]. by apply elem_of_keys.
Qed.

Lemma childBefore_None m k j :
  childBefore m k = None → is_Some (m !! j) → k ≤ j.
Proof.
  unfold childBefore. intros E%max_key_None Hj.
  destruct (decide (j < k)) as [Hlt|]; [|lia].
  assert (j ∈ filter (λ j, j < k) (keys m)) as Hin.
  { apply list_elem_of_filter. split; [done|]. by apply elem_of_keys. }
  rewrite E in Hin. by apply elem_of_nil in Hin.
Qed.

Lemma childAfter_Some m k a :
  childAfter m k = Some a →
  k < a ∧ is_Some (m !! a) ∧ ∀ j, is_Some (m !! j) → k < j → a ≤ j.
Proof.
  unfold childAfter. intros [Hin Hmin]%min_key_Some.
  apply list_elem_of_filter in Hin as [Hlt Hin]. apply elem_of_keys in Hin.
  split_and!; [done..|]. intros j Hj Hjk. apply Hmin.
  apply list_elem_of_filter. split; [done|]. by apply elem_of_keys.
Qed.

Lemma childAfter_None m k j :
  childAfter m k = None → is_Some (m !! j) → j ≤ k.
Proof.
  unfold childAfter. intros E%min_key_None Hj.
  destruct (decide (k < j)) as [Hlt|]; [|lia].
  assert (j ∈ filter (λ j, k < j) (keys m)) as Hin.
  { apply list_elem_of_filter. split; [done|]. by apply elem_of_keys. }
  rewrite E in Hin. by apply elem_of_nil in Hin.
Qed.

End node_facts.

Lemma day_node_Some {A} (s : gmap Z (gmap Z A)) d m :
  day_node s d = Some m ↔ s !! d = Some m ∧ m ≠ ∅.
Proof. unfold day_node, prune. by rewrite map_lookup_filter_Some. Qed.

End StoreFacts.

(** ** Facts about the snapshot store and its statistics *)

Module TimeSeriesFacts.
Import Js JsFacts DateUtil Store StoreFacts TimeSeries.

(** *** Nearest-neighbour lookup *)

Lemma nonzero_keys_lookup m k : nonzero_keys m → is_Some (m !! k) → k ≠ 0.
Proof. intros H [d Hd]. exact (H k d Hd). Qed.

Lemma falsy_Some k : k ≠ 0 → falsy (Some k) = false.
Proof. intros H. simpl. by apply Z.eqb_neq. Qed.

Lemma nearest_both m t b a :
  childBefore m t = Some b → childAfter m t = Some a → b ≠ 0 → a ≠ 0 →
  nearest m t = Some (if decide (t - b ≤ a - t) then b else a).
Proof.
  intros Hb Ha Hb0 Ha0. unfold nearest. rewrite Hb, Ha.
  rewrite !falsy_Some by done.
  destruct (Z.ltb_spec (t - b) (a - t)).
  - by rewrite decide_True by lia.
  - destruct (Z.ltb_spec (a - t) (t - b)).
    + by rewrite decide_False by lia.
    + by rewrite decide_True by lia.
Qed.

Lemma nearest_only_before m t b :
  childBefore m t = Some b → childAfter m t = None → b ≠ 0 →
  nearest m t = Some b.
Proof.
  intros Hb Ha Hb0. unfold nearest. rewrite Hb, Ha.
  by rewrite falsy_Some by done.
Qed.

Lemma nearest_only_after m t a :
  childBefore m t = None → childAfter m t = Some a → nearest m t = Some a.
Proof. intros Hb Ha. unfold nearest. by rewrite Hb, Ha. Qed.

(** In a day with a child and non-zero time indices, the lookup settles on
    a stored document. *)
Lemma nearest_stored m t :
  m ≠ ∅ → nonzero_keys m → m !! t = None →
  ∃ k d, nearest m t = Some k ∧ m !! k = Some d.
Proof.
  intros Hne Hnz Ht.
  destruct (childBefore m t) as [b|] eqn:Hb;
    destruct (childAfter m t) as [a|] eqn:Ha.
  - destruct (childBefore_Some _ _ _ Hb) as (_ & [db Hdb] & _).
    destruct (childAfter_Some _ _ _ Ha) as (_ & [da Hda] & _).
    rewrite (nearest_both m t b a) by eauto using nonzero_keys_lookup.
    case_decide; eauto.
  - destruct (childBefore_Some _ _ _ Hb) as (_ & [db Hdb] & _).
    rewrite (nearest_only_before m t b) by eauto using nonzero_keys_lookup.
    eauto.
  - destruct (childAfter_Some _ _ _ Ha) as (_ & [da Hda] & _).
    rewrite (nearest_only_after m t a) by eauto. eauto.
  - exfalso. apply Hne. apply map_empty. intros j.
    destruct (m !! j) as [d|] eqn:Hj; [|done].
    pose proof (childBefore_None m t j Hb (mk_is_Some _ _ Hj)).
    pose proof (childAfter_None m t j Ha (mk_is_Some _ _ Hj)).
    assert (j = t) as -> by lia. congruence.
Qed.

Lemma powerAt_in_neighbour m t k d :
  m !! t = None → nearest m t = Some k → m !! k = Some d →
  powerAt_in m t = Ok (view_of d).
Proof.
  intros Ht Hk Hd. unfold powerAt_in. rewrite Ht, Hk. simpl. by rewrite Hd.
Qed.

Lemma powerAt_in_exact m t d :
  m !! t = Some d →
  powerAt_in m t =
  Ok {| v_batteryLevel := Number (batteryLevel d);
        v_houseLoadTotal := Number (houseLoadTotal d);
        v_gridExportTotal := Number (gridExportTotal d);
        v_gridImportTotal := Undefined;
        v_gridimportTotal := Empty;
        v_pvOutputTotal := Number (pvOutputTotal d) |}.
Proof. intros Ht. unfold powerAt_in. by rewrite Ht. Qed.

(** In a day with a child and non-zero time indices [powerAt] settles on
    a stored document, and answers with its cumulative values. *)
Lemma settled_stored m t :
  m ≠ ∅ → nonzero_keys m → ∃ k d, settled m t = Some k ∧ m !! k = Some d.
Proof.
  intros Hne Hnz. unfold settled. destruct (m !! t) as [d|] eqn:Ht.
  - by exists t, d.
  - by apply nearest_stored.
Qed.

Lemma powerAt_in_settled m t k d :
  settled m t = Some k → m !! k = Some d →
  ∃ data, powerAt_in m t = Ok data
    ∧ v_batteryLevel data = Number (batteryLevel d)
    ∧ v_houseLoadTotal data = Number (houseLoadTotal d)
    ∧ v_gridExportTotal data = Number (gridExportTotal d)
    ∧ v_pvOutputTotal data = Number (pvOutputTotal d).
Proof.
  unfold settled. intros Hk Hd. destruct (m !! t) as [d'|] eqn:Ht.
  - assert (t = k) as -> by congruence.
    rewrite (powerAt_in_exact m k d Hd). eexists. by split.
  - rewrite (powerAt_in_neighbour m t k d) by done. eexists. by split.
Qed.

(** When no index is settled on, [powerAt] throws. *)
Lemma powerAt_in_unsettled m t :
  settled m t = None → ∃ x, powerAt_in m t = Throw x.
Proof.
  unfold settled, powerAt_in. destruct (m !! t); [done|].
  intros ->. by eexists.
Qed.

(** X3. Off an exact match, [powerAt] answers with the nearer neighbour, the
    earlier one on a tie, and with the only neighbour when there is one. *)
Lemma powerAt_neighbour s dateIndex m t :
  day_node s dateIndex = Some m → nonzero_keys m → m !! t = None →
  match childBefore m t, childAfter m t with
  | Some b, Some a =>
      ∃ d, m !! (if decide (t - b ≤ a - t) then b else a) = Some d
           ∧ powerAt s dateIndex t = Ok (Some (view_of d))
  | Some k, None | None, Some k =>
      ∃ d, m !! k = Some d ∧ powerAt s dateIndex t = Ok (Some (view_of d))
  | None, None => False
  end.
Proof.
  intros Hday Hnz Ht. unfold powerAt. rewrite Hday. simpl.
  destruct (childBefore m t) as [b|] eqn:Hb;
    destruct (childAfter m t) as [a|] eqn:Ha.
  - destruct (childBefore_Some _ _ _ Hb) as (_ & [db Hdb] & _).
    destruct (childAfter_Some _ _ _ Ha) as (_ & [da Hda] & _).
    pose proof (nearest_both m t b a Hb Ha) as Hn.
    assert (b ≠ 0) as Hb0 by eauto using nonzero_keys_lookup.
    assert (a ≠ 0) as Ha0 by eauto using nonzero_keys_lookup.
    case_decide.
    + exists db. split; [done|].
      erewrite powerAt_in_neighbour; eauto.
    + exists da. split; [done|].
      erewrite powerAt_in_neighbour; eauto.
  - destruct (childBefore_Some _ _ _ Hb) as (_ & [db Hdb] & _).
    assert (b ≠ 0) as Hb0 by eauto using nonzero_keys_lookup.
    exists db. split; [done|].
    erewrite powerAt_in_neighbour; eauto using nearest_only_before.
  - destruct (childAfter_Some _ _ _ Ha) as (_ & [da Hda] & _).
    exists da. split; [done|].
    erewrite powerAt_in_neighbour; eauto using nearest_only_after.
  - apply day_node_Some in Hday as [_ Hne].
    destruct (nearest_stored m t Hne Hnz Ht) as (k & d & Hk & _).
    unfold nearest in Hk. by rewrite Hb, Ha in Hk.
Qed.

(** *** Ingestion *)

Lemma get_put {A} (s : gmap Z (gmap Z A)) d k v d' k' :
  Store.get (Store.put s d k v) d' k' =
  if decide (d' = d ∧ k' = k) then Some v else Store.get s d' k'.
Proof.
  unfold Store.get, Store.put.
  destruct (decide (d' = d)) as [->|Hd].
  - rewrite lookup_insert_eq. simpl.
    destruct (decide (k' = k)) as [->|Hk].
    + rewrite lookup_insert_eq. by rewrite decide_True.
    + rewrite lookup_insert_ne by done. rewrite decide_False by tauto.
      destruct (s !! d); simpl; [done|apply lookup_empty].
  - rewrite lookup_insert_ne by done. by rewrite decide_False by tauto.
Qed.

Lemma exists_at_true s d k :
  exists_at s d k = true ↔ is_Some (Store.get s d k).
Proof. unfold exists_at. apply bool_decide_eq_true. Qed.

Section ingestion.
Variables (date : DateUtil.t) (dateIndex : Z).

Lemma ingest_one_written s r :
  writes dateIndex s r = true →
  ingest_one date dateIndex s r =
  Store.put s dateIndex (dataTimestamp r) (doc_of date r).
Proof. unfold ingest_one, writes. by intros ->. Qed.

Lemma ingest_one_skipped s r :
  writes dateIndex s r = false → ingest_one date dateIndex s r = s.
Proof. unfold ingest_one, writes. by intros ->. Qed.

(** A stored document is never overwritten. *)
Lemma ingest_one_keeps s r d k x :
  Store.get s d k = Some x →
  Store.get (ingest_one date dateIndex s r) d k = Some x.
Proof.
  intros Hx. destruct (writes dateIndex s r) eqn:W.
  - rewrite ingest_one_written by done. rewrite get_put.
    case_decide as E; [|done]. destruct E as [-> ->].
    unfold writes in W. apply andb_true_iff in W as [W _].
    apply negb_true_iff in W.
    assert (exists_at s dateIndex (dataTimestamp r) = true) as W'.
    { apply exists_at_true. by rewrite Hx. }
    congruence.
  - by rewrite ingest_one_skipped.
Qed.

Lemma ingest_keeps rows s d k x :
  Store.get s d k = Some x →
  Store.get (ingest date dateIndex rows s) d k = Some x.
Proof.
  revert s. induction rows as [|r rows IH]; intros s Hx; [done|].
  simpl. apply IH. by apply ingest_one_keeps.
Qed.

(** Where a document appears, a row with that time stamp and a non-zero
    load total put it there, under the day being updated. *)
Lemma ingest_one_new s r d k x :
  Store.get s d k = None →
  Store.get (ingest_one date dateIndex s r) d k = Some x →
  d = dateIndex ∧ dataTimestamp r = k
  ∧ strict_eqb (homeLoadTodayEnergy r) zero = false ∧ x = doc_of date r.
Proof.
  intros Hn Hx. destruct (writes dateIndex s r) eqn:W.
  - rewrite ingest_one_written in Hx by done. rewrite get_put in Hx.
    case_decide as E; [|congruence]. destruct E as [-> ->].
    unfold writes in W. apply andb_true_iff in W as [_ W].
    apply negb_true_iff in W. by simplify_eq.
  - rewrite ingest_one_skipped in Hx by done. congruence.
Qed.

Lemma ingest_new rows s d k x :
  Store.get s d k = None →
  Store.get (ingest date dateIndex rows s) d k = Some x →
  d = dateIndex ∧ ∃ r, r ∈ rows ∧ dataTimestamp r = k
  ∧ strict_eqb (homeLoadTodayEnergy r) zero = false ∧ x = doc_of date r.
Proof.
  revert s. induction rows as [|r rows IH]; intros s Hn Hx.
  { simpl in Hx. congruence. }
  simpl in Hx.
  destruct (Store.get (ingest_one date dateIndex s r) d k) as [y|] eqn:Hy.
  - rewrite (ingest_keeps rows _ d k y Hy) in Hx. simplify_eq.
    destruct (ingest_one_new s r d k x Hn Hy) as (-> & Hk & Hz & ->).
    split; [done|]. exists r. split_and!; try done. apply list_elem_of_here.
  - destruct (IH _ Hy Hx) as (-> & r' & Hin & Hr').
    split; [done|]. exists r'. split; [|done]. by apply list_elem_of_further.
Qed.

(** After a pass every row is either stored or has a zero load total. *)
Lemma ingest_settles rows s r :
  r ∈ rows → writes dateIndex (ingest date dateIndex rows s) r = false.
Proof.
  revert s. induction rows as [|r0 rows IH]; intros s Hin.
  { by apply elem_of_nil in Hin. }
  apply elem_of_cons in Hin as [->|Hin]; [|by apply IH].
  simpl. unfold writes.
  destruct (strict_eqb (homeLoadTodayEnergy r0) zero) eqn:Z0.
  { by rewrite andb_false_r. }
  rewrite andb_true_r. apply negb_false_iff, exists_at_true.
  destruct (writes dateIndex s r0) eqn:W.
  - rewrite ingest_one_written by done.
    erewrite ingest_keeps; [done|]. rewrite get_put. by rewrite decide_True.
  - rewrite ingest_one_skipped by done.
    unfold writes in W. rewrite Z0, andb_true_r in W.
    apply negb_false_iff, exists_at_true in W as [x Hx].
    by erewrite ingest_keeps.
Qed.

Lemma ingest_fixed rows s :
  (∀ r, r ∈ rows → writes dateIndex s r = false) →
  ingest date dateIndex rows s = s.
Proof.
  induction rows as [|r rows IH]; intros H; [done|].
  simpl. rewrite ingest_one_skipped.
  - apply IH. intros r' Hr'. apply H. by apply list_elem_of_further.
  - apply H. apply list_elem_of_here.
Qed.

(** A second pass over the same rows changes nothing. *)
Lemma ingest_idempotent rows s :
  ingest date dateIndex rows (ingest date dateIndex rows s) =
  ingest date dateIndex rows s.
Proof. apply ingest_fixed. intros r Hr. by apply ingest_settles. Qed.

(** Rows with a zero load total create nothing under their time stamp. *)
Lemma ingest_zero_load rows s k :
  (∀ r, r ∈ rows → dataTimestamp r = k →
        strict_eqb (homeLoadTodayEnergy r) zero = true) →
  Store.get (ingest date dateIndex rows s) dateIndex k =
  Store.get s dateIndex k.
Proof.
  intros Hz. destruct (Store.get s dateIndex k) as [x|] eqn:Hs.
  - by apply ingest_keeps.
  - destruct (Store.get (ingest date dateIndex rows s) dateIndex k)
      as [x|] eqn:Hx; [|done].
    destruct (ingest_new rows s _ _ _ Hs Hx) as (_ & r & Hin & Hk & Hnz & _).
    rewrite (Hz r Hin Hk) in Hnz. discriminate.
Qed.

(** What a pass leaves under a day and a time stamp: the document that
    was there, else, under the day being updated, the document of the
    first row with that time stamp and a load total that is not zero. *)
Lemma ingest_lookup rows s d k :
  Store.get (ingest date dateIndex rows s) d k =
  match Store.get s d k with
  | Some x => Some x
  | None =>
      if decide (d = dateIndex) then doc_of date <$> first_fresh k rows
      else None
  end.
Proof.
  revert s. induction rows as [|r rows IH]; intros s.
  { cbn. destruct (Store.get s d k); [done|]. by case_decide. }
  change (ingest date dateIndex (r :: rows) s)
    with (ingest date dateIndex rows (ingest_one date dateIndex s r)).
  rewrite IH. destruct (Store.get s d k) as [x|] eqn:Hs.
  { by rewrite (ingest_one_keeps s r d k x Hs). }
  unfold first_fresh. cbn [List.find]. fold (first_fresh k rows).
  destruct (writes dateIndex s r) eqn:W.
  - rewrite ingest_one_written by done. rewrite get_put, Hs.
    unfold writes in W. apply andb_true_iff in W as [_ W]. rewrite W.
    destruct (decide (d = dateIndex ∧ k = dataTimestamp r)) as [[-> ->]|E].
    + rewrite decide_True by done. by rewrite Z.eqb_refl.
    + destruct (decide (d = dateIndex)) as [->|Ed]; [|done].
      destruct (Z.eqb_spec (dataTimestamp r) k) as [Hk|_]; [|done].
      symmetry in Hk. tauto.
  - rewrite ingest_one_skipped by done. rewrite Hs.
    destruct (decide (d = dateIndex)) as [->|Ed]; [|done].
    destruct (Z.eqb_spec (dataTimestamp r) k) as [Hk|_]; [|done].
    subst k. unfold writes in W.
    destruct (strict_eqb (homeLoadTodayEnergy r) zero); [done|].
    rewrite andb_true_r in W.
    apply negb_false_iff, exists_at_true in W as [x Hx]. congruence.
Qed.

(** Rows that all have their fields are gone through to the end. *)
Lemma ingest_rows_typed rows s :
  ingest_rows date dateIndex (Row <$> rows) s
  = (Ok tt, ingest date dateIndex rows s).
Proof.
  revert s. induction rows as [|r rows IH]; intros s; [done|].
  cbn [fmap list_fmap ingest_rows]. by rewrite IH.
Qed.

(** Whatever the elements, and whether the loop ends or throws, a stored
    document stays as it is. *)
Lemma ingest_rows_keeps rows s d k x :
  Store.get s d k = Some x →
  Store.get (ingest_rows date dateIndex rows s).2 d k = Some x.
Proof.
  revert s. induction rows as [|[r|] rows IH]; intros s Hx; [done| |done].
  cbn [ingest_rows]. apply IH. by apply ingest_one_keeps.
Qed.

End ingestion.

(** *** Per-slot deltas *)

Lemma boundaries_nth date i t j b :
  boundaries date i t !! j = Some b → b = t + 1800000 * (Z.of_nat j + 1).
Proof.
  revert t j. induction i as [|i IH]; intros t j Hj; [done|].
  simpl in Hj. destruct (_ >? _); [done|].
  destruct j as [|j]; simpl in Hj.
  - simplify_eq. lia.
  - apply IH in Hj. lia.
Qed.

(** The loop returns when [powerAt] settles on an index at every
    boundary it visits. *)
Lemma history_loop_returns date agile m dateIndex i t sum :
  (∀ b, is_Some (settled m b)) →
  ∃ hs, history_loop date agile m dateIndex i t sum = Ok hs.
Proof.
  intros Hm. revert t sum. induction i as [|i IH]; intros t sum.
  { by eexists. }
  cbn [history_loop]. destruct (t + 1800000 >? _); [by eexists|].
  destruct (powerAt_in m (t + 1800000)) as [data|x] eqn:Hp.
  - destruct (slot_record _ _ data sum) as [r sum'].
    destruct (IH (t + 1800000) sum') as [hs ->]. by eexists.
  - destruct (Hm (t + 1800000)) as [k Hk]. unfold settled in Hk.
    unfold powerAt_in in Hp. destruct (m !! (t + 1800000)); [done|].
    by rewrite Hk in Hp.
Qed.


Section property.
(** One of the summed properties: the field of the document, and its
    place in the view, in the running sum and in the per-slot record. *)
Variables (f : doc → num) (vp : pview → cell) (sp : sums → num)
  (hp : hrec → num).
Hypothesis hp_delta : ∀ timeText p data sum,
  hp (slot_record timeText p data sum).1 = delta (vp data) (sp sum).
Hypothesis sp_value : ∀ timeText p data sum,
  sp (slot_record timeText p data sum).2 = value_of (vp data).
Hypothesis vp_read : ∀ m t data,
  powerAt_in m t = Ok data → vp data = read (settled m t ≫= λ k, m !! k) f.

Lemma history_loop_deltas date agile m dateIndex i t sum hs :
  history_loop date agile m dateIndex i t sum = Ok hs →
  hp <$> hs = deltas_from (sp sum) (value_at f m <$> boundaries date i t).
Proof.
  revert t sum hs. induction i as [|i IH]; intros t sum hs.
  { by intros [= <-]. }
  cbn [history_loop boundaries].
  destruct (t + 1800000 >? _).
  { by intros [= <-]. }
  destruct (powerAt_in m (t + 1800000)) as [data|x] eqn:Hp; [|done].
  pose proof (hp_delta (timeText (at_ date (t + 1800000)))
                (priceAt agile dateIndex (t + 1800000)) data sum) as H1.
  pose proof (sp_value (timeText (at_ date (t + 1800000)))
                (priceAt agile dateIndex (t + 1800000)) data sum) as H2.
  destruct (slot_record _ _ data sum) as [r sum'].
  intros (hs' & Hhs' & ->)%fmap_Ok.
  cbn [fst snd] in H1, H2. rewrite !fmap_cons. cbn [deltas_from].
  rewrite (IH _ _ _ Hhs'), H1, H2. unfold delta, value_of, value_at.
  by rewrite (vp_read m _ data Hp).
Qed.

End property.

Lemma settled_exact m t d : m !! t = Some d → settled m t = Some t.
Proof. unfold settled. by intros ->. Qed.

Lemma settled_nearest m t : m !! t = None → settled m t = nearest m t.
Proof. unfold settled. by intros ->. Qed.

(** Outside the grid import total, the view holds what the document
    [powerAt] settles on holds. *)
Lemma powerAt_in_read m t data :
  powerAt_in m t = Ok data →
  let timeNode := settled m t ≫= λ k, m !! k in
  v_batteryLevel data = read timeNode batteryLevel
  ∧ v_houseLoadTotal data = read timeNode houseLoadTotal
  ∧ v_gridExportTotal data = read timeNode gridExportTotal
  ∧ v_pvOutputTotal data = read timeNode pvOutputTotal.
Proof.
  unfold powerAt_in. destruct (m !! t) as [d|] eqn:Ht.
  - intros [= <-]. rewrite (settled_exact m t d Ht). cbn [mbind option_bind].
    by rewrite Ht.
  - rewrite (settled_nearest m t Ht).
    destruct (nearest m t) as [k|]; [|done]. by intros [= <-].
Qed.

(** *** Retention *)

Lemma delete_all_lookup ds s d :
  delete_all ds s !! d = if decide (d ∈ ds) then None else s !! d.
Proof.
  revert s. induction ds as [|d0 ds IH]; intros s.
  - unfold delete_all. cbn [foldl].
    by rewrite decide_False by apply not_elem_of_nil.
  - change (delete_all (d0 :: ds) s) with (delete_all ds (delete d0 s)).
    rewrite IH. destruct (decide (d ∈ ds)) as [Hin|Hin].
    + rewrite decide_True; [done|]. by apply list_elem_of_further.
    + destruct (decide (d = d0)) as [->|Hne].
      * rewrite lookup_delete_eq. rewrite decide_True; [done|].
        apply list_elem_of_here.
      * rewrite lookup_delete_ne by done. rewrite decide_False; [done|].
        rewrite elem_of_cons. tauto.
Qed.

(** The callback deletes the days met after the first [noOfDaysToKeep]. *)
Lemma cleardown_fold keep l c s :
  (foldl (cleardown_step keep) (c, s) l).2 =
  delete_all (drop (Z.to_nat (keep - c)) l) s.
Proof.
  revert c s. induction l as [|d l IH]; intros c s.
  { by rewrite drop_nil. }
  cbn [foldl]. unfold cleardown_step at 2. cbn [fst snd].
  destruct (Z.gtb_spec (c + 1) keep) as [Hgt|Hle].
  - rewrite IH.
    replace (Z.to_nat (keep - (c + 1))) with 0%nat by lia.
    replace (Z.to_nat (keep - c)) with 0%nat by lia. done.
  - rewrite IH.
    replace (Z.to_nat (keep - c)) with (S (Z.to_nat (keep - (c + 1)))) by lia.
    done.
Qed.

Lemma cleardown_deletes N s :
  cleardown N s =
  delete_all (drop (Z.to_nat (N + 1)) (keys_desc (prune s))) s.
Proof.
  unfold cleardown. rewrite cleardown_fold. do 3 f_equal. lia.
Qed.

Lemma keys_desc_elem {A} (m : gmap Z A) k :
  k ∈ keys_desc m ↔ is_Some (m !! k).
Proof.
  unfold keys_desc, keys_asc. rewrite elem_of_reverse.
  rewrite merge_sort_Permutation. apply elem_of_keys.
Qed.

Lemma keys_desc_NoDup {A} (m : gmap Z A) : NoDup (keys_desc m).
Proof.
  unfold keys_desc, keys_asc.
  rewrite reverse_Permutation, merge_sort_Permutation. apply NoDup_elements.
Qed.

Lemma prune_lookup_Some (s : store) d m :
  prune s !! d = Some m ↔ s !! d = Some m ∧ m ≠ ∅.
Proof. unfold prune. by rewrite map_lookup_filter_Some. Qed.

(** A day node exists after [cleardown] exactly when it is among the
    first [N + 1] day nodes in descending order, and it is unchanged. *)
Lemma cleardown_day N s d :
  day_node (cleardown N s) d =
  if decide (d ∈ take (Z.to_nat (N + 1)) (keys_desc (prune s)))
  then day_node s d else None.
Proof.
  set (k := Z.to_nat (N + 1)). set (l := keys_desc (prune s)).
  assert (NoDup (take k l ++ drop k l)) as Hnd.
  { rewrite take_drop. apply keys_desc_NoDup. }
  apply NoDup_app in Hnd as (_ & Hdisj & _).
  unfold day_node. rewrite cleardown_deletes. fold l k.
  destruct (prune (delete_all (drop k l) s) !! d) as [m|] eqn:E.
  - apply prune_lookup_Some in E as [E Hm].
    rewrite delete_all_lookup in E. case_decide as Hin; [done|].
    assert (prune s !! d = Some m) as Hp by by apply prune_lookup_Some.
    rewrite decide_True; [done|].
    assert (d ∈ l) as Hl by (apply keys_desc_elem; eauto).
    rewrite <- (take_drop k l), elem_of_app in Hl. tauto.
  - case_decide as Hin; [|done].
    destruct (prune s !! d) as [m|] eqn:Hp; [|done].
    apply prune_lookup_Some in Hp as [Hs Hm].
    assert (prune (delete_all (drop k l) s) !! d = Some m) as E'.
    { apply prune_lookup_Some. split; [|done].
      rewrite delete_all_lookup. rewrite decide_False; [done|].
      by apply Hdisj. }
    congruence.
Qed.

Lemma day_keys_elem s d : d ∈ day_keys s ↔ is_Some (day_node s d).
Proof. apply keys_desc_elem. Qed.

#[local] Instance flip_le_antisymm : AntiSymm (=) (flip Z.le).
Proof. intros x y H1 H2. unfold flip in *. lia. Qed.

Lemma keys_desc_sorted {A} (m : gmap Z A) :
  StronglySorted (flip Z.le) (keys_desc m).
Proof.
  unfold keys_desc, keys_asc.
  apply (Sorted_StronglySorted (flip Z.le)), Sorted_reverse.
  apply (Sorted_merge_sort Z.le).
Qed.

(** C6 (as amended). After [cleardown] with a retained window of [N]
    days, the day sub-trees that remain are the [N + 1] most recent ones
    by descending [dateIndex] (all of them when there are fewer), each
    with its content as before; every older day sub-tree is gone. *)
Theorem cleardown_keeps_recent (N : Z) (s : store) :
  day_keys (cleardown N s) = take (Z.to_nat (N + 1)) (day_keys s)
  ∧ length (day_keys (cleardown N s))
    = Nat.min (Z.to_nat (N + 1)) (length (day_keys s))
  ∧ ∀ d, day_node (cleardown N s) d =
         if decide (d ∈ take (Z.to_nat (N + 1)) (day_keys s))
         then day_node s d else None.
Proof.
  assert (day_keys (cleardown N s) = take (Z.to_nat (N + 1)) (day_keys s))
    as Hkeys.
  { apply (StronglySorted_unique (flip Z.le)).
    - apply keys_desc_sorted.
    - pose proof (keys_desc_sorted (prune s)) as Hs.
      rewrite <- (take_drop (Z.to_nat (N + 1))) in Hs.
      by apply StronglySorted_app_1_l in Hs.
    - apply NoDup_Permutation.
      + apply keys_desc_NoDup.
      + eapply sublist_NoDup; [apply (keys_desc_NoDup (prune s))|].
        apply sublist_take.
      + intros d. rewrite day_keys_elem, cleardown_day.
        unfold day_keys. case_decide as Hin.
        * split; [done|]. intros _. apply day_keys_elem.
          eapply elem_of_take in Hin as (i & Hi & _).
          by eapply list_elem_of_lookup_2.
        * split; [by intros [? ?]|done]. }
  split_and!.
  - done.
  - by rewrite Hkeys, length_take.
  - intros d. apply cleardown_day.
Qed.

(** *** The history of a day *)

(** In a stored day with non-zero time indices [powerAt] settles on an
    index at every time. *)
Lemma day_settled s dateIndex m :
  day_node s dateIndex = Some m → nonzero_keys m →
  ∀ b, is_Some (settled m b).
Proof.
  intros Hday Hnz b. apply day_node_Some in Hday as [_ Hne].
  destruct (settled_stored m b Hne Hnz) as (k & d & -> & _). by eexists.
Qed.

(** C2 (as amended). For a stored day whose time indices are non-zero,
    [getHistory] returns a list of per-slot records, and the deltas in it
    for the house load, the grid export and the PV output are, boundary
    by boundary, the cumulative value [powerAt] reads at the boundary
    less the one it read at the boundary before, rounded to two
    decimals; slot 0 is measured from zero. *)
Theorem history_deltas_rounded (date : DateUtil.t) (agile : prices)
    (s : store) (dateIndex : Z) (m : gmap Z doc) :
  day_node s dateIndex = Some m → nonzero_keys m →
  ∃ hs, getHistory date agile s dateIndex = Ok (Some hs)
    ∧ let bs := boundaries date 47 dateIndex in
      h_houseLoadTotal <$> hs
      = deltas_from zero (value_at houseLoadTotal m <$> bs)
      ∧ h_gridExportTotal <$> hs
        = deltas_from zero (value_at gridExportTotal m <$> bs)
      ∧ h_pvOutputTotal <$> hs
        = deltas_from zero (value_at pvOutputTotal m <$> bs).
Proof.
  intros Hday Hnz.
  destruct (history_loop_returns date agile m dateIndex 47 dateIndex sums0
              (day_settled s dateIndex m Hday Hnz)) as [hs Hhs].
  exists hs. split.
  { unfold getHistory. by rewrite Hday, Hhs. }
  split_and!.
  - apply (history_loop_deltas houseLoadTotal v_houseLoadTotal
             s_houseLoadTotal h_houseLoadTotal) in Hhs; try done.
    intros m' t data Hp. by destruct (powerAt_in_read m' t data Hp) as (?&?&?&?).
  - apply (history_loop_deltas gridExportTotal v_gridExportTotal
             s_gridExportTotal h_gridExportTotal) in Hhs; try done.
    intros m' t data Hp. by destruct (powerAt_in_read m' t data Hp) as (?&?&?&?).
  - apply (history_loop_deltas pvOutputTotal v_pvOutputTotal
             s_pvOutputTotal h_pvOutputTotal) in Hhs; try done.
    intros m' t data Hp. by destruct (powerAt_in_read m' t data Hp) as (?&?&?&?).
Qed.

Lemma history_deltas_rounded_witness :
  ∃ hs, getHistory sample_date ∅ sample_store sample_day = Ok (Some hs)
    ∧ let bs := boundaries sample_date 47 sample_day in
      h_houseLoadTotal <$> hs
      = deltas_from zero (value_at houseLoadTotal sample_tree <$> bs)
      ∧ h_gridExportTotal <$> hs
        = deltas_from zero (value_at gridExportTotal sample_tree <$> bs)
      ∧ h_pvOutputTotal <$> hs
        = deltas_from zero (value_at pvOutputTotal sample_tree <$> bs).
Proof.
  apply (history_deltas_rounded sample_date ∅ sample_store sample_day
           sample_tree).
  - vm_compute. reflexivity.
  - apply (bool_decide_unpack (nonzero_keys sample_tree)). vm_compute. exact I.
Defined.

(** On the sample day the history has the slots 00:30 and 01:00. The
    house-load delta of slot 0 is the first recorded value itself (1,
    measured from zero), so the deltas add up to the last value (1.5)
    and not to last less first (0.5). On the day of tenths the deltas
    are 0.1 and 0.2, and their sum in doubles is neither the last value
    (0.3) nor last less first. *)
Lemma history_baseline_is_zero :
  let first := houseLoadTotal <$> Store.get sample_store sample_day
                                     (sample_day + 1800000) in
  let last := houseLoadTotal <$> Store.get sample_store sample_day
                                    (sample_day + 3600000) in
  let deltas := [Num 1; Num (1 # 2)] in
  let tenths := [Num (1 # 10); Num (2 # 10)] in
  first = Some (Num 1) ∧ last = Some (Num (15 # 10))
  ∧ deltas_of h_houseLoadTotal
      (getHistory sample_date ∅ sample_store sample_day) = Ok (Some deltas)
  ∧ total deltas = Num (3 # 2)
  ∧ sub (Num (15 # 10)) (Num 1) = Num (1 # 2)
  ∧ strict_eqb (total deltas) (sub (Num (15 # 10)) (Num 1)) = false
  ∧ deltas_of h_houseLoadTotal
      (getHistory sample_date ∅ tenths_store sample_day) = Ok (Some tenths)
  ∧ total tenths = Num (30000000000000004 # 100000000000000000)
  ∧ strict_eqb (total tenths) (Num (3 # 10)) = false
  ∧ strict_eqb (total tenths) (sub (Num (3 # 10)) (Num (1 # 10))) = false.
Proof. vm_compute. repeat split. Qed.

(** On the sample day both slots are exact matches, and the grid import
    deltas are NaN. *)
Example history_gridImportTotal_sample :
  deltas_of h_gridImportTotal
    (getHistory sample_date ∅ sample_store sample_day)
  = Ok (Some [NaN; NaN]).
Proof. vm_compute. reflexivity. Qed.

(** Between the samples of the sample day, the nearer one answers; the
    earlier one on a tie. *)
Lemma powerAt_neighbour_witness :
  let t := sample_day + 2700000 in
  match childBefore sample_tree t, childAfter sample_tree t with
  | Some b, Some a =>
      ∃ d, sample_tree !! (if decide (t - b ≤ a - t) then b else a) = Some d
           ∧ powerAt sample_store sample_day t = Ok (Some (view_of d))
  | Some k, None | None, Some k =>
      ∃ d, sample_tree !! k = Some d
           ∧ powerAt sample_store sample_day t = Ok (Some (view_of d))
  | None, None => False
  end.
Proof.
  intros t.
  apply (powerAt_neighbour sample_store sample_day sample_tree t).
  - vm_compute. reflexivity.
  - apply (bool_decide_unpack (nonzero_keys sample_tree)). vm_compute. exact I.
  - vm_compute. reflexivity.
Defined.

Example powerAt_tie_sample :
  seen v_houseLoadTotal
    (powerAt sample_store sample_day (sample_day + 2700000))
  = Ok (Some (Number (Num 1)))
  ∧ seen v_houseLoadTotal
      (powerAt sample_store sample_day (sample_day + 2700001))
    = Ok (Some (Number (Num (15 # 10))))
  ∧ seen v_houseLoadTotal
      (powerAt sample_store sample_day (sample_day + 9000000))
    = Ok (Some (Number (Num (15 # 10)))).
Proof. vm_compute. repeat split. Qed.

(** The scenario of the specification: the document built from a row with
    [pac = 500], [eToday = 2.0], [familyLoadPower = 300] and
    [homeLoadTodayEnergy = 1.5]. *)
Example scenario_snapshot :
  let d := doc_of sample_date (sample_row sample_day (15 # 10) 2 0 0) in
  pvOutputNow d = Num (1 # 2) ∧ pvOutputTotal d = Num 2
  ∧ houseLoadNow d = Num (3 # 10) ∧ houseLoadTotal d = Num (15 # 10).
Proof. vm_compute. repeat split. Qed.

(** C7 (failing input). With a document stored at exactly the time asked
    for, [powerAt] answers without the grid import total, which the
    document has and which the neighbour branch returns. *)
Theorem powerAt_exact_drops_gridImportTotal :
  let t := sample_day + 1800000 in
  gridImportTotal <$> Store.get sample_store sample_day t
    = Some (Num (32 # 10))
  ∧ seen v_gridImportTotal (powerAt sample_store sample_day t)
    = Ok (Some Undefined)
  ∧ seen v_gridImportTotal (powerAt sample_store sample_day (t + 60000))
    = Ok (Some (Number (Num (32 # 10)))).
Proof. vm_compute. repeat split. Qed.

(** With a retained window of 7 days, nine stored days are cut down to
    eight, and three stored days all remain. *)
Lemma cleardown_window_7 :
  length (day_keys (days_store 9)) = 9%nat
  ∧ length (day_keys (cleardown 7 (days_store 9))) = 8%nat
  ∧ day_keys (cleardown 7 (days_store 9))
    = (λ d, d * 86400000) <$> [9; 8; 7; 6; 5; 4; 3; 2]
  ∧ length (day_keys (cleardown 7 (days_store 3))) = 3%nat.
Proof. vm_compute. repeat split. Qed.

(** *** Averages across midnight *)

(** C8. When the two time indices fall on different calendar days,
    [averagePowerBetweenTimeIndices] answers, for the load and the pv
    component, with the sum of two averages taken on the same store:
    from the from-time to 23:30 and from 00:00 to the to-time; it fails
    exactly when one of the two fails. Logging does not change the
    answer. *)
Theorem average_across_midnight (date : DateUtil.t) (s : store)
    (fromTimeIndex toTimeIndex : Z) (log : bool) :
  dateIndex (at_ date fromTimeIndex) ≠ dateIndex (at_ date toTimeIndex) →
  (averagePowerBetweenTimeIndices date s fromTimeIndex toTimeIndex log).2 =
  sum_power
    (averagePowerBetween date s (timeText (at_ date fromTimeIndex)) "23:30")
    (averagePowerBetween date s "00:00" (timeText (at_ date toTimeIndex))).
Proof.
  intros Hdays. unfold averagePowerBetweenTimeIndices.
  apply Z.eqb_neq in Hdays. rewrite Hdays.
  destruct (averagePowerBetween date s (timeText (at_ date fromTimeIndex))
              "23:30") as [power1|e1]; [|done].
  by destruct (averagePowerBetween date s "00:00"
                 (timeText (at_ date toTimeIndex))) as [power2|e2].
Qed.

Lemma average_across_midnight_witness :
  let date := utc (259200000 + 3600000) in
  (averagePowerBetweenTimeIndices date three_days
     (259200000 + 79200000) (345600000 + 7200000) true).2 =
  sum_power
    (averagePowerBetween date three_days
       (timeText (at_ date (259200000 + 79200000))) "23:30")
    (averagePowerBetween date three_days "00:00"
       (timeText (at_ date (345600000 + 7200000)))).
Proof.
  intros date.
  apply (average_across_midnight date three_days
           (259200000 + 79200000) (345600000 + 7200000) true).
  vm_compute. discriminate.
Defined.

Example average_sample :
  (averagePowerBetweenTimeIndices (utc (259200000 + 3600000)) three_days
     (259200000 + 79200000) (345600000 + 7200000) false)
  = ([], Ok {| load := Num (27 # 10); pv := Num 0 |})
  ∧ averagePowerBetween (utc (259200000 + 3600000)) three_days "22:00" "23:30"
    = Ok {| load := Num (3 # 2); pv := Num 0 |}
  ∧ averagePowerBetween (utc (259200000 + 3600000)) three_days "00:00" "02:00"
    = Ok {| load := Num (6 # 5); pv := Num 0 |}.
Proof. vm_compute. repeat split. Qed.

(** *** Looking a sample up by time of day *)

Lemma keys_empty {A} : keys (∅ : gmap Z A) = [].
Proof. unfold keys. by rewrite dom_empty_L, elements_empty. Qed.

Lemma sample_lookup_spec (m : gmap Z doc) (t : Z) :
  match
    match m !! t with
    | Some d => Some d
    | None =>
        match childAfter m t with
        | Some k => m !! k
        | None => childBefore m t ≫= λ k, m !! k
        end
    end
  with
  | None => m = ∅
  | Some x =>
      ∃ k, m !! k = Some x
           ∧ (∀ j, is_Some (m !! j) → t ≤ j → k ≤ j)
           ∧ (t ≤ k ∨ ∀ j, is_Some (m !! j) → j ≤ k)
  end.
Proof.
  destruct (m !! t) as [x|] eqn:Ht.
  { exists t. split_and!; [done|intros; lia|left; lia]. }
  assert (∀ j, is_Some (m !! j) → j ≠ t) as Hne.
  { intros j [y Hj] ->. congruence. }
  destruct (childAfter m t) as [a|] eqn:Ha.
  - pose proof Ha as (Hlt & [y Hy] & Hmin)%childAfter_Some.
    rewrite Hy. exists a. split_and!; [done| |left; lia].
    intros j Hj Htj. specialize (Hne j Hj). apply Hmin; [done|lia].
  - destruct (childBefore m t) as [b|] eqn:Hb; simpl.
    + pose proof Hb as (Hlt & [y Hy] & Hmax)%childBefore_Some.
      rewrite Hy. exists b. split_and!; [done| |right].
      * intros j Hj Htj. specialize (Hne j Hj).
        pose proof (childAfter_None m t j Ha Hj). lia.
      * intros j Hj. specialize (Hne j Hj).
        pose proof (childAfter_None m t j Ha Hj). apply Hmax; [done|lia].
    + apply map_empty. intros j.
      destruct (m !! j) as [y|] eqn:Hj; [|done]. exfalso.
      assert (is_Some (m !! j)) as Hs by eauto.
      pose proof (childAfter_None m t j Ha Hs).
      pose proof (childBefore_None m t j Hb Hs).
      specialize (Hne j Hs). lia.
Qed.

(** X4. [getDataAt] answers with the sample stored at the time asked for; when
    there is none, with the earliest later sample of that day, however
    far; only when the day has no later sample, with its last sample.
    It answers nothing exactly when the day has no sample at all. *)
Theorem getDataAt_later_first (date : DateUtil.t) (s : store)
    (timeText : string) (offset : Z) :
  let d := timeIndex (atMidnight date offset) in
  let t := timeIndex (atTime date timeText d) in
  let m := default ∅ (s !! d) in
  match getDataAt date s timeText offset with
  | None => m = ∅
  | Some x =>
      ∃ k, m !! k = Some x
           ∧ (∀ j, is_Some (m !! j) → t ≤ j → k ≤ j)
           ∧ (t ≤ k ∨ ∀ j, is_Some (m !! j) → j ≤ k)
  end.
Proof. intros d t m. exact (sample_lookup_spec m t). Qed.

Lemma getDataAt_None date s timeText offset :
  getDataAt date s timeText offset = None ↔
  timeIndex (atMidnight date offset) ∉ day_keys s.
Proof.
  rewrite day_keys_elem.
  set (d := timeIndex (atMidnight date offset)).
  set (t := timeIndex (atTime date timeText d)).
  set (m := default ∅ (s !! d)).
  pose proof (sample_lookup_spec m t) as Hspec.
  change (getDataAt date s timeText offset) with
    (match m !! t with
     | Some d => Some d
     | None =>
         match childAfter m t with
         | Some k => m !! k
         | None => childBefore m t ≫= λ k, m !! k
         end
     end).
  split.
  - intros E. rewrite E in Hspec. intros [m' Hm'].
    apply day_node_Some in Hm' as [Hs Hne]. subst m. rewrite Hs in Hspec.
    done.
  - intros Hno.
    assert (m = ∅) as ->.
    { subst m. destruct (s !! d) as [m'|] eqn:Hs; [|done]. simpl.
      destruct (decide (m' = ∅)) as [->|Hne]; [done|].
      destruct Hno. exists m'. by apply day_node_Some. }
    rewrite lookup_empty. unfold childAfter, childBefore.
    by rewrite (keys_empty (A:=doc)).
Qed.

(** *** The days the averages run over *)

Lemma NoDup_all_equal {A} (l : list A) (a : A) :
  NoDup l → (∀ x, x ∈ l → x = a) → (length l ≤ 1)%nat.
Proof.
  intros Hnd Hall. destruct l as [|x [|y l]]; simpl; [lia..|].
  exfalso. apply NoDup_cons in Hnd as [Hx _]. apply Hx.
  rewrite (Hall x), <- (Hall y).
  - apply list_elem_of_here.
  - apply list_elem_of_further, list_elem_of_here.
  - apply list_elem_of_here.
Qed.

Lemma lastChild_Some (s : store) last :
  lastChild (prune s) = Some last →
  last ∈ day_keys s ∧ ∀ d, d ∈ day_keys s → d ≤ last.
Proof.
  unfold lastChild. intros [Hin Hmax]%max_key_Some. split.
  - apply keys_desc_elem. by apply elem_of_keys.
  - intros d Hd. apply Hmax. apply elem_of_keys. by apply keys_desc_elem.
Qed.

(** The averages start one day node before the last: they run over all
    the day nodes but the most recent. *)
Lemma days_from_start s start :
  startDateIndex s = Some start →
  ∃ last, start < last ∧ day_keys s ≡ₚ last :: days_from s start.
Proof.
  unfold startDateIndex. intros H.
  destruct (lastChild (prune s)) as [last|] eqn:Hl; [|done]. simpl in H.
  apply lastChild_Some in Hl as [Hin Hmax].
  apply childBefore_Some in H as (Hlt & Hs & Hbelow).
  exists last. split; [done|]. apply NoDup_Permutation.
  - apply keys_desc_NoDup.
  - apply NoDup_cons. split.
    + unfold days_from. rewrite list_elem_of_filter. lia.
    + apply NoDup_filter, keys_desc_NoDup.
  - intros d. rewrite elem_of_cons. unfold days_from.
    rewrite list_elem_of_filter. fold (day_keys s). split.
    + intros Hd. destruct (decide (d = last)) as [->|Hne]; [by left|].
      right. split; [|done]. apply Hbelow.
      * by apply keys_desc_elem.
      * specialize (Hmax d Hd). lia.
    + intros [->|[_ Hd]]; done.
Qed.

Lemma days_from_first s start :
  startDateIndex s = Some start → start ∈ days_from s start.
Proof.
  unfold startDateIndex. intros H.
  destruct (lastChild (prune s)) as [last|]; [|done]. simpl in H.
  apply childBefore_Some in H as (_ & Hk & _).
  unfold days_from. apply list_elem_of_filter. split; [lia|].
  by apply keys_desc_elem.
Qed.

Lemma days_from_length s start :
  startDateIndex s = Some start →
  length (day_keys s) = S (length (days_from s start))
  ∧ (0 < length (days_from s start))%nat.
Proof.
  intros H. pose proof (days_from_first s start H) as Hin.
  apply days_from_start in H as (last & _ & Hp). split.
  - by rewrite Hp.
  - destruct (days_from s start); [by apply elem_of_nil in Hin|].
    simpl. lia.
Qed.

Lemma startDateIndex_None s :
  startDateIndex s = None ↔ (length (day_keys s) ≤ 1)%nat.
Proof.
  split.
  - unfold startDateIndex. intros H.
    destruct (lastChild (prune s)) as [last|] eqn:Hl.
    + simpl in H. apply lastChild_Some in Hl as [Hin Hmax].
      apply (NoDup_all_equal _ last); [apply keys_desc_NoDup|].
      intros d Hd. pose proof (Hmax d Hd).
      apply keys_desc_elem in Hd.
      pose proof (childBefore_None _ _ d H Hd). lia.
    + unfold lastChild in Hl. apply max_key_None in Hl.
      unfold day_keys, keys_desc, keys_asc.
      rewrite length_reverse, merge_sort_Permutation, Hl. simpl. lia.
  - intros Hlen. destruct (startDateIndex s) as [start|] eqn:E; [|done].
    apply days_from_length in E. lia.
Qed.

Lemma average_loop_outcome date s from_ to_ days offset count totalLoad totalPV :
  match average_loop date s from_ to_ days offset count totalLoad totalPV with
  | Ok (count', _, _) =>
      count' = count + Z.of_nat (length days)
      ∧ ∀ j, 1 ≤ j ≤ Z.of_nat (length days) →
             timeIndex (atMidnight date (offset - j)) ∈ day_keys s
  | Throw e =>
      e = TypeError "houseLoadTotal of undefined"
      ∧ ∃ j, 1 ≤ j ≤ Z.of_nat (length days)
             ∧ timeIndex (atMidnight date (offset - j)) ∉ day_keys s
  end.
Proof.
  revert offset count totalLoad totalPV.
  induction days as [|d days IH]; intros offset count totalLoad totalPV.
  { simpl. split; [lia|]. intros j Hj. lia. }
  cbn [average_loop].
  destruct (getDataAt date s from_ (offset - 1)) as [data1|] eqn:E1.
  2:{ apply getDataAt_None in E1. split; [done|]. exists 1.
      split; [simpl; lia|done]. }
  destruct (getDataAt date s to_ (offset - 1)) as [data2|] eqn:E2.
  2:{ apply getDataAt_None in E2. split; [done|]. exists 1.
      split; [simpl; lia|done]. }
  assert (timeIndex (atMidnight date (offset - 1)) ∈ day_keys s) as Hday.
  { destruct (decide (timeIndex (atMidnight date (offset - 1)) ∈ day_keys s))
      as [|Hno]; [done|].
    apply (getDataAt_None date s from_) in Hno. congruence. }
  specialize (IH (offset - 1) (count + 1)
                (add totalLoad (sub (houseLoadTotal data2)
                                    (houseLoadTotal data1)))
                (add totalPV (sub (pvOutputTotal data2)
                                  (pvOutputTotal data1)))).
  destruct (average_loop _ _ _ _ days _ _ _ _) as [[[count' tl] tp]|e].
  - destruct IH as [-> IH]. split; [simpl length; lia|].
    intros j Hj. destruct (decide (j = 1)) as [->|Hne]; [done|].
    replace (offset - j) with (offset - 1 - (j - 1)) by lia.
    apply IH. simpl length in Hj. lia.
  - destruct IH as [-> (j & Hj & Hno)]. split; [done|].
    exists (j + 1). split; [simpl length; lia|].
    by replace (offset - (j + 1)) with (offset - 1 - j) by lia.
Qed.

(** X5. [averagePowerBetween] counts the stored day nodes but the most
    recent, and reads as many calendar days back from yesterday. With
    [n] stored days it returns exactly when each of the [n - 1] calendar
    days before today has a sample; it then divides by [n - 1]. When one
    of them has none it raises a [TypeError]; with fewer than two stored
    days it answers zero for both components. *)
Theorem averagePowerBetween_defined (date : DateUtil.t) (s : store)
    (from_ to_ : string) :
  let n := Z.of_nat (length (day_keys s)) in
  ((∃ p, averagePowerBetween date s from_ to_ = Ok p) ↔
   ∀ k, 1 ≤ k < n → timeIndex (atMidnight date (- k)) ∈ day_keys s)
  ∧ (∀ e, averagePowerBetween date s from_ to_ = Throw e →
          e = TypeError "houseLoadTotal of undefined")
  ∧ (n ≤ 1 → averagePowerBetween date s from_ to_ = Ok no_power).
Proof.
  intros n. subst n. unfold averagePowerBetween.
  destruct (startDateIndex s) as [start|] eqn:Hstart.
  - pose proof (days_from_length s start Hstart) as [Hlen Hpos].
    pose proof (average_loop_outcome date s (or_text from_ "00:00")
                  (or_text to_ "23:59") (days_from s start) 0 0 zero zero)
      as Hloop.
    destruct (average_loop _ _ _ _ _ _ _ _ _) as [[[count tl] tp]|e].
    + destruct Hloop as [_ Hdays]. split_and!.
      * split; [|by eauto]. intros _ k Hk.
        change (- k) with (0 - k). apply Hdays. lia.
      * by intros e.
      * lia.
    + destruct Hloop as [-> (j & Hj & Hno)]. split_and!.
      * split; [by intros [p Hp]|]. intros Hall. destruct Hno.
        change (0 - j) with (- j). apply Hall. lia.
      * intros e E. by injection E as <-.
      * lia.
  - apply startDateIndex_None in Hstart. split_and!.
    + split; [|by eauto]. intros _ k Hk. lia.
    + by intros e.
    + done.
Qed.

(** Two stored days, the first and the second of the era. Read on the
    third day the average is taken over one day; read on the fourth day,
    the third having no sample, it raises the [TypeError]. *)
Example average_gap_sample :
  averagePowerBetween (utc (3 * 86400000)) (days_store 2) "00:00" "23:59"
  = Ok {| load := Num 0; pv := Num 0 |}
  ∧ averagePowerBetween (utc (4 * 86400000)) (days_store 2) "00:00" "23:59"
    = Throw (TypeError "houseLoadTotal of undefined").
Proof. vm_compute. by split. Qed.

(** *** The half-hourly profile *)








(** On the three stored days of the example: the first slots of the
    profile. A day whose one sample is keyed zero makes [profile]
    throw. *)
Example profile_sample :
  match profile three_days with
  | Ok (Profile totals) =>
      take 4 totals = [Num (1 # 10); Num 0; Num (6 # 5); Num 0]
  | _ => False
  end.
Proof. vm_compute. reflexivity. Qed.

Example profile_zero_key :
  profile (Store.put (days_store 1) 0 0
             (doc_of (utc 0) (sample_row 0 1 1 1 1)))
  = Throw (TypeError "path of undefined").
Proof. vm_compute. reflexivity. Qed.

(** *** Retention, twice *)

Lemma cleardown_day_keys N s :
  day_keys (cleardown N s) = take (Z.to_nat (N + 1)) (day_keys s).
Proof.
  apply (StronglySorted_unique (flip Z.le)).
  - apply keys_desc_sorted.
  - pose proof (keys_desc_sorted (prune s)) as Hs.
    rewrite <- (take_drop (Z.to_nat (N + 1))) in Hs.
    by apply StronglySorted_app_1_l in Hs.
  - apply NoDup_Permutation.
    + apply keys_desc_NoDup.
    + eapply sublist_NoDup; [apply (keys_desc_NoDup (prune s))|].
      apply sublist_take.
    + intros d. rewrite day_keys_elem, cleardown_day.
      unfold day_keys. case_decide as Hin.
      * split; [done|]. intros _. apply day_keys_elem.
        eapply elem_of_take in Hin as (i & Hi & _).
        by eapply list_elem_of_lookup_2.
      * split; [by intros [? ?]|done].
Qed.

Lemma drop_take_split {A} (l : list A) (m n : nat) :
  (m ≤ n)%nat → drop m l = drop m (take n l) ++ drop n l.
Proof.
  intros Hmn. destruct (decide (n ≤ length l)%nat) as [Hn|Hn].
  - rewrite <- (take_drop n l) at 1.
    rewrite drop_app_le; [done|]. rewrite length_take. lia.
  - rewrite take_ge by lia. rewrite (drop_ge l n) by lia.
    by rewrite app_nil_r.
Qed.

(** X7. Two cleardowns in a row are the cleardown with the smaller window; a
    cleardown repeated with the same window changes nothing. *)
Theorem cleardown_twice (M N : Z) (s : store) :
  cleardown M (cleardown N s) = cleardown (Z.min M N) s
  ∧ cleardown N (cleardown N s) = cleardown N s.
Proof.
  assert (∀ M, cleardown M (cleardown N s) = cleardown (Z.min M N) s) as H.
  { clear M. intros M.
    rewrite (cleardown_deletes M).
    change (keys_desc (prune (cleardown N s))) with (day_keys (cleardown N s)).
    rewrite cleardown_day_keys. rewrite !cleardown_deletes.
    fold (day_keys s).
    set (l := day_keys s). set (m := Z.to_nat (M + 1)).
    set (n := Z.to_nat (N + 1)).
    replace (Z.to_nat (Z.min M N + 1)) with (m `min` n)%nat by lia.
    apply map_eq. intros d. rewrite !delete_all_lookup.
    destruct (decide (m ≤ n)%nat) as [Hmn|Hmn].
    - rewrite Nat.min_l by done.
      rewrite (drop_take_split l m n Hmn).
      repeat case_decide; try done; exfalso; rewrite elem_of_app in *; tauto.
    - rewrite Nat.min_r by lia.
      rewrite (drop_ge (take n l)) by (rewrite length_take; lia).
      repeat case_decide; try done; exfalso; rewrite elem_of_nil in *; tauto. }
  split; [apply H|]. rewrite H. by rewrite Z.min_id.
Qed.

(** *** The slots of a history and the dates on offer *)




(** The history of the sample day, read at 01:00, has the slots 00:30 and
    01:00. *)
Example history_slots_sample :
  (λ hs : option (list hrec), (λ l : list hrec, h_time <$> l) <$> hs)
  <$> getHistory sample_date ∅ sample_store sample_day
  = Ok (Some ["00:30"; "01:00"]).
Proof. vm_compute. reflexivity. Qed.

Lemma sorted_strictly (l : list Z) :
  StronglySorted (flip Z.le) l → NoDup l → StronglySorted (λ a b, b < a) l.
Proof.
  induction 1 as [|a l Hl IH Ha]; intros Hnd; [constructor|].
  apply NoDup_cons in Hnd as [Hnot Hnd]. constructor; [by apply IH|].
  rewrite Forall_forall in Ha |- *. intros b Hb.
  specialize (Ha b Hb). unfold flip in Ha.
  assert (a ≠ b) by (intros ->; done). lia.
Qed.

(** X9. [availableDataDates] lists the stored days from the most recent to
    the oldest, each once. On a store whose days have non-zero time
    indices they are exactly the days for which [getHistory] returns a
    list, and for each of them [powerAt] returns an object at every
    time. *)
Theorem availableDataDates_answerable (date : DateUtil.t) (agile : prices)
    (s : store) :
  nonzero_days s →
  StronglySorted (λ a b, b < a) (availableDataDates date s).*1
  ∧ ∀ d, (d ∈ (availableDataDates date s).*1
          ↔ ∃ hs, getHistory date agile s d = Ok (Some hs))
         ∧ (d ∈ (availableDataDates date s).*1 →
            ∀ t, ∃ data, powerAt s d t = Ok (Some data)).
Proof.
  intros Hs.
  assert ((availableDataDates date s).*1 = day_keys s) as ->.
  { unfold availableDataDates. rewrite <- list_fmap_compose.
    apply list_fmap_id. }
  split.
  - apply sorted_strictly; [apply keys_desc_sorted|apply keys_desc_NoDup].
  - intros d. rewrite day_keys_elem. split; [split|].
    + intros [m Hm]. pose proof Hm as [Hsm _]%day_node_Some.
      destruct (history_loop_returns date agile m d 47 d sums0
                  (day_settled s d m Hm (Hs d m Hsm))) as [hs Hhs].
      exists hs. unfold getHistory. by rewrite Hm, Hhs.
    + intros [hs Hhs]. unfold getHistory in Hhs.
      by destruct (day_node s d) as [m|]; [exists m|].
    + intros [m Hm] t. pose proof Hm as [Hsm Hne]%day_node_Some.
      destruct (settled_stored m t Hne (Hs d m Hsm)) as (k & x & Hk & Hx).
      destruct (powerAt_in_settled m t k x Hk Hx) as (data & Hdata & _).
      exists data. unfold powerAt. by rewrite Hm, Hdata.
Qed.

Lemma availableDataDates_answerable_witness :
  StronglySorted (λ a b, b < a) (availableDataDates sample_date three_days).*1
  ∧ ∀ d, (d ∈ (availableDataDates sample_date three_days).*1
          ↔ ∃ hs, getHistory sample_date ∅ three_days d = Ok (Some hs))
         ∧ (d ∈ (availableDataDates sample_date three_days).*1 →
            ∀ t, ∃ data, powerAt three_days d t = Ok (Some data)).
Proof.
  apply (availableDataDates_answerable sample_date ∅ three_days).
  apply (bool_decide_unpack (nonzero_days three_days)). vm_compute. exact I.
Defined.

End TimeSeriesFacts.

(** ** Facts about the control and scheduling operations *)

Module ControlFacts.
Import Js Json DateUtil Store StoreFacts TimeSeries TimeSeriesFacts Control.

Ltac run := unfold mbind, mret, M_bind, M_ret, bind, ret, throw, ask, get,
              modify, write, lift; cbn beta iota.

Lemma isConfigured_true e st :
  credentials e = true → isConfigured e st = (Ok true, st).
Proof.
  unfold credentials. rewrite !andb_true_iff, !negb_true_iff.
  intros [[[H1 H2] H3] H4]. unfold isConfigured. run.
  by rewrite H1, H2, H3, H4.
Qed.

Lemma update_rows e st offset rows :
  credentials e = true →
  vendorDay e (calls st ++ [day_call e offset]) = DayRows (Row <$> rows) →
  update offset e st
  = (Ok (ok "Solis Data updated successfully"), updated e offset rows st).
Proof.
  intros Hc Hv. unfold update, inverterDayAPI.
  unfold mbind at 1, M_bind, bind. unfold mbind at 1, M_bind, bind.
  rewrite (isConfigured_true e st Hc). run.
  cbn [negb requested calls set_calls set_log data].
  rewrite Hv. cbn beta iota. by rewrite ingest_rows_typed.
Qed.

Example classify_samples :
  classify "4B10" = "post-4B00" ∧ classify "4A99" = "pre-4B00"
  ∧ classify "3A50" = "pre-4B00".
Proof. repeat split. Qed.

(** *** Ingestion through [update] *)

(** C1. When [update] gets rows from the vendor, it returns its success
    object, and with the same rows a second time it returns the same and
    leaves the store as it was. Under a day and a time stamp the store
    then holds the document that was there, else, under the day being
    updated, the document of the first row with that time stamp whose
    load total is not zero, and else nothing: every row whose load total
    is not zero has a document under its time stamp, a stored document is
    never overwritten, a document appears only from such a row, and a
    time stamp whose rows all have a zero load total gets no document. *)
Theorem update_idempotent (e : env) (st : state) (offset : Z)
    (rows : list snapshot) :
  credentials e = true →
  vendorDay e (calls st ++ [day_call e offset]) = DayRows (Row <$> rows) →
  vendorDay e ((calls st ++ [day_call e offset]) ++ [day_call e offset])
    = DayRows (Row <$> rows) →
  let dateIndex := timeIndex (atMidnight (date e) offset) in
  let done := Ok (ok "Solis Data updated successfully") in
  let st1 := (update offset e st).2 in
  let st2 := (update offset e st1).2 in
  (update offset e st).1 = done
  ∧ (update offset e st1).1 = done
  ∧ data st2 = data st1
  ∧ (∀ d k, Store.get (data st1) d k =
            match Store.get (data st) d k with
            | Some x => Some x
            | None =>
                if decide (d = dateIndex)
                then doc_of (date e) <$> first_fresh k rows
                else None
            end)
  ∧ (∀ r, r ∈ rows → strict_eqb (homeLoadTodayEnergy r) zero = false →
          is_Some (Store.get (data st1) dateIndex (dataTimestamp r)))
  ∧ (∀ d k x, Store.get (data st) d k = Some x →
              Store.get (data st1) d k = Some x)
  ∧ (∀ d k x, Store.get (data st) d k = None →
              Store.get (data st1) d k = Some x →
              d = dateIndex
              ∧ ∃ r, r ∈ rows ∧ dataTimestamp r = k
                     ∧ strict_eqb (homeLoadTodayEnergy r) zero = false
                     ∧ x = doc_of (date e) r)
  ∧ (∀ k, (∀ r, r ∈ rows → dataTimestamp r = k →
                strict_eqb (homeLoadTodayEnergy r) zero = true) →
          Store.get (data st1) dateIndex k = Store.get (data st) dateIndex k).
Proof.
  intros Hc Hv1 Hv2 dateIndex done st1 st2.
  assert (update offset e st = (done, updated e offset rows st)) as H1
    by by apply update_rows.
  assert (st1 = updated e offset rows st) as Hst1 by (subst st1; by rewrite H1).
  assert (update offset e st1 = (done, updated e offset rows st1)) as H2.
  { apply update_rows; [done|]. by rewrite Hst1. }
  assert (st2 = updated e offset rows st1) as Hst2 by (subst st2; by rewrite H2).
  assert (data st1 = ingest (date e) dateIndex rows (data st)) as Hd1
    by by rewrite Hst1.
  split_and!.
  - by rewrite H1.
  - by rewrite H2.
  - rewrite Hst2. cbn [updated data set_data]. fold dateIndex.
    change (data (requested e (day_call e offset) st1)) with (data st1).
    rewrite Hd1. apply ingest_idempotent.
  - intros d k. rewrite Hd1. apply ingest_lookup.
  - intros r Hr Hnz. rewrite Hd1.
    pose proof (ingest_settles (date e) dateIndex rows (data st) r Hr) as W.
    unfold writes in W. rewrite Hnz, andb_true_r in W.
    by apply negb_false_iff, exists_at_true in W.
  - intros d k x Hx. rewrite Hd1. by apply ingest_keeps.
  - intros d k x Hn Hx. rewrite Hd1 in Hx.
    by apply (ingest_new (date e) dateIndex rows (data st)).
  - intros k Hz. rewrite Hd1. by apply ingest_zero_load.
Qed.

Lemma update_idempotent_witness :
  let e := demo_env (sample_day + 3600000) true true "4B10" demo_rows in
  let st := demo_state None in
  let dateIndex := timeIndex (atMidnight (date e) 0) in
  let done := Ok (ok "Solis Data updated successfully") in
  let st1 := (update 0 e st).2 in
  let st2 := (update 0 e st1).2 in
  (update 0 e st).1 = done
  ∧ (update 0 e st1).1 = done
  ∧ data st2 = data st1
  ∧ (∀ d k, Store.get (data st1) d k =
            match Store.get (data st) d k with
            | Some x => Some x
            | None =>
                if decide (d = dateIndex)
                then doc_of (date e) <$> first_fresh k demo_rows
                else None
            end)
  ∧ (∀ r, r ∈ demo_rows → strict_eqb (homeLoadTodayEnergy r) zero = false →
          is_Some (Store.get (data st1) dateIndex (dataTimestamp r)))
  ∧ (∀ d k x, Store.get (data st) d k = Some x →
              Store.get (data st1) d k = Some x)
  ∧ (∀ d k x, Store.get (data st) d k = None →
              Store.get (data st1) d k = Some x →
              d = dateIndex
              ∧ ∃ r, r ∈ demo_rows ∧ dataTimestamp r = k
                     ∧ strict_eqb (homeLoadTodayEnergy r) zero = false
                     ∧ x = doc_of (date e) r)
  ∧ (∀ k, (∀ r, r ∈ demo_rows → dataTimestamp r = k →
                strict_eqb (homeLoadTodayEnergy r) zero = true) →
          Store.get (data st1) dateIndex k = Store.get (data st) dateIndex k).
Proof.
  intros e st.
  apply (update_idempotent e st 0 demo_rows); reflexivity.
Defined.

(** On the sample rows: the first row is stored, the zero-load row is
    not, and the later row with the first row's time stamp changes
    nothing. *)
Example update_sample :
  let e := demo_env (sample_day + 3600000) true true "4B10" demo_rows in
  let st1 := (update 0 e (demo_state None)).2 in
  Store.keys <$> (data st1 !! sample_day) = Some [sample_day + 1800000]
  ∧ houseLoadTotal <$> Store.get (data st1) sample_day (sample_day + 1800000)
    = Some (Num 1)
  ∧ pvOutputNow <$> Store.get (data st1) sample_day (sample_day + 1800000)
    = Some (Num (1 # 2))
  ∧ houseLoadNow <$> Store.get (data st1) sample_day (sample_day + 1800000)
    = Some (Num (3 # 10)).
Proof. vm_compute. repeat split. Qed.

(** *** The bounded discharge *)

Lemma getFirmwareVersion_cached e st v :
  firmwareVersion st = Some v → getFirmwareVersion e st = (Ok v, st).
Proof. intros H. unfold getFirmwareVersion. run. by rewrite H. Qed.

(** C3 (failing input). With the firmware version cached as post-4B00,
    [inverterDischargeBetween] throws a [ReferenceError] for every pair
    of time texts, before any remote call. *)
Theorem inverterDischargeBetween_post4B00_throws (e : env) (st : state)
    (fromTimeText toTimeText : string) :
  let st0 := set_firmwareVersion (Some "post-4B00") st in
  inverterDischargeBetween fromTimeText toTimeText e st0
  = (Throw (ReferenceError "fromD"), st0).
Proof.
  intros st0. unfold inverterDischargeBetween.
  unfold mbind at 1, M_bind, bind, ask.
  unfold mbind at 1, M_bind, bind.
  by rewrite (getFirmwareVersion_cached e st0 "post-4B00").
Qed.

Lemma api_run url payload e st :
  api url payload e st
  = (Ok (vendor e (calls st ++ [{| c_url := url; c_body := payload |}])),
     requested e {| c_url := url; c_body := payload |} st).
Proof. reflexivity. Qed.

Lemma bind_run {A B} (m : M A) (k : A → M B) e st :
  (m ≫= k) e st
  = match m e st with
    | (Ok a, st') => k a e st'
    | (Throw x, st') => (Throw x, st')
    end.
Proof. reflexivity. Qed.

Lemma atReadAPI_error e st fields :
  vendor e (calls st ++ [atRead_call e]) = JObj fields →
  truthy (assoc "error" fields) = true →
  atReadAPI e st = (Ok (JObj fields), requested e (atRead_call e) st).
Proof.
  intros Hresp Herr. unfold atReadAPI.
  rewrite bind_run. cbn [ask]. rewrite bind_run, api_run.
  fold (atRead_call e). rewrite Hresp. rewrite bind_run.
  cbn [lift prop ret]. by rewrite Herr.
Qed.

Lemma atReadAPI_no_data e st fields :
  vendor e (calls st ++ [atRead_call e]) = JObj fields →
  truthy (assoc "error" fields) = false →
  truthy (assoc "data" fields) = false →
  atReadAPI e st
  = (Ok (error "solis.atRead API failed (1)"),
     let st1 := requested e (atRead_call e) st in
     set_log (log st1 ++ ["solis.atRead API failed (1)"]) st1).
Proof.
  intros Hresp Herr Hdata. unfold atReadAPI.
  rewrite bind_run. cbn [ask]. rewrite bind_run, api_run.
  fold (atRead_call e). rewrite Hresp. rewrite bind_run.
  cbn [lift prop ret field]. rewrite Herr, Hdata. reflexivity.
Qed.

(** X10. Under the legacy dialect the failures the vendor reports come back
    as error objects: an answer to the read with a truthy [error] is
    returned as it is, and an answer without [data] becomes the error
    object of [atReadAPI]; the read is the one call made and nothing is
    thrown. *)
Theorem legacy_discharge_reports_failures (e : env) (st : state)
    (fromTimeText toTimeText v : string) (fields : list (string * json)) :
  firmwareVersion st = Some v → String.eqb v "post-4B00" = false →
  vendor e (calls st ++ [atRead_call e]) = JObj fields →
  let r := inverterDischargeBetween fromTimeText toTimeText e st in
  (truthy (assoc "error" fields) = true →
   r.1 = Ok (JObj fields) ∧ calls r.2 = calls st ++ [atRead_call e])
  ∧ (truthy (assoc "error" fields) = false →
     truthy (assoc "data" fields) = false →
     r.1 = Ok (error "solis.atRead API failed (1)")
     ∧ calls r.2 = calls st ++ [atRead_call e]).
Proof.
  intros Hv Hpre Hresp r. subst r.
  assert (inverterDischargeBetween fromTimeText toTimeText e st
          = legacy
              (λ s, Settings.dischargeTimeString (dischargeCurrent e) s
                      fromTimeText toTimeText)
              dischargeAPI
              ("Inverter set to discharge between "
               +:+ between fromTimeText toTimeText)
              (ret tt) e st) as ->.
  { unfold inverterDischargeBetween.
    rewrite bind_run. cbn [ask]. rewrite bind_run.
    by rewrite (getFirmwareVersion_cached e st v Hv), Hpre. }
  unfold legacy. rewrite bind_run. split.
  - intros Herr. rewrite (atReadAPI_error e st fields Hresp Herr).
    rewrite bind_run. cbn [lift prop ret]. by rewrite Herr.
  - intros Herr Hdata.
    by rewrite (atReadAPI_no_data e st fields Hresp Herr Hdata).
Qed.

Lemma legacy_discharge_reports_failures_witness :
  let st := demo_state (Some "pre-4B00") in
  let fields := [("error", JStr "solis.request returned status 500")] in
  let r := inverterDischargeBetween "16:00" "16:30" failing_env st in
  (truthy (assoc "error" fields) = true →
   r.1 = Ok (JObj fields) ∧ calls r.2 = calls st ++ [atRead_call failing_env])
  ∧ (truthy (assoc "error" fields) = false →
     truthy (assoc "data" fields) = false →
     r.1 = Ok (error "solis.atRead API failed (1)")
     ∧ calls r.2 = calls st ++ [atRead_call failing_env]).
Proof.
  intros st fields.
  apply (legacy_discharge_reports_failures failing_env st "16:00" "16:30"
           "pre-4B00" fields); reflexivity.
Defined.

(** What [request] writes for a call answered with status 500. *)
Example request_lines_sample :
  log (inverterDischargeBetween "16:00" "16:30" failing_env
         (demo_state (Some "pre-4B00"))).2
  = [ "solis.request at Thu, 01 Jan 1970 00:00:00 GMT: "
      +:+ "https://www.soliscloud.com:13333/v2/api/atRead";
      "options: {}";
      "solis.request failed: status: 500" ].
Proof. vm_compute. reflexivity. Qed.

(** The throw of the post-4B00 path also occurs when the version is not
    cached and the vendor reports a post-4B00 version; the bounded charge and the slot discharge return
    a status on the same input, and so does the bounded discharge under
    the legacy dialect. *)
Example bounded_operations_sample :
  let post := demo_env 3600000 true true "4b10" [] in
  let pre := demo_env 3600000 true true "4a99" [] in
  (inverterDischargeBetween "16:00" "16:30" post (demo_state None)).1
    = Throw (ReferenceError "fromD")
  ∧ (inverterChargeBetween "16:00" "16:30" post (demo_state None)).1
    = Ok (status "Inverter successfully set to charge between 16:00 and 16:30")
  ∧ (inverterDischarge true post (demo_state None)).1
    = Ok (status
            "Inverter successfully set to discharge between 01:00 and 01:30")
  ∧ (inverterDischargeBetween "16:00" "16:30" pre (demo_state None)).1
    = Ok (status "Inverter set to discharge between 16:00 and 16:30")
  ∧ c_body <$> last (calls (inverterDischargeBetween "16:00" "16:30" pre
                              (demo_state None)).2)
    = Some (JObj [("inverterSn", JStr "SN1"); ("cid", JNum 4643);
                  ("value",
                   JStr ("0,40,00:00-00:00,16:00-16:30,0,0,00:00-00:00,"
                         +:+ "1,1,0,00:00-00:00"))]).
Proof. vm_compute. repeat split. Qed.

(** *** The scheduled reset *)

(** C4 (as amended). [inverterReset] runs [inverterResetNow] exactly
    when the time of day reads 00:00; at any other time it returns its
    no-op status and leaves the state, the calls made included, as it
    was. *)
Theorem inverterReset_only_at_midnight (e : env) (st : state) :
  inverterReset e st =
  if String.eqb (timeText (now (date e))) "00:00"
  then inverterResetNow false e st
  else (Ok (status "Inverter reset only done at midnight"), st).
Proof.
  unfold inverterReset. unfold mbind at 1, M_bind, bind, ask.
  by destruct (String.eqb (timeText (now (date e))) "00:00").
Qed.

(** At 13:00, the top of an hour, nothing is reset: no call is made,
    whereas [inverterResetNow] makes its calls in the same state; at
    00:00 the reset is made. *)
Lemma inverterReset_skips_top_of_hour :
  let e := demo_env (13 * 3600000) true true "4A99" [] in
  let midnight := demo_env 86400000 true true "4A99" [] in
  let st := demo_state (Some "pre-4B00") in
  timeText (now (date e)) = "13:00" ∧ minute (now (date e)) = 0
  ∧ inverterReset e st
    = (Ok (status "Inverter reset only done at midnight"), st)
  ∧ (inverterResetNow false e st).1 = Ok (status "Inverter reset successfully")
  ∧ c_url <$> calls (inverterResetNow false e st).2
    = ["/v2/api/atRead"; "/v2/api/control"]
  ∧ (inverterReset midnight st).1 = Ok (status "Inverter reset successfully").
Proof. vm_compute. repeat split. Qed.

(** *** Disabled operations *)

(** C5 (as amended). Without the override and with the governing flag
    off, each operation makes no remote call. [inverterCharge],
    [inverterDischarge] and [inverterGridOnly] log a line and return a
    status object without an error field; [inverterResetNow] returns an
    error object and changes nothing. *)
Theorem disabled_operations_skip (e : env) (st : state) :
  (chargingEnabled e = false →
   inverterCharge false e st
   = (Ok (status "Inverter Charge task ignored"),
      set_log (log st ++ ["Charging logic is currently disabled"]) st)
   ∧ inverterGridOnly false e st
     = (Ok (status "Inverter Grid Only task ignored"),
        set_log (log st ++ ["Charging logic is currently disabled"]) st)
   ∧ inverterResetNow false e st
     = (Ok (error
              "Charging logic is currently disabled, so no reset command sent"),
        st))
  ∧ (dischargingEnabled e = false →
     inverterDischarge false e st
     = (Ok (status "Inverter Discharge task ignored"),
        set_log (log st ++ ["Discharging logic is currently disabled"]) st))
  ∧ calls (set_log (log st ++ ["Charging logic is currently disabled"]) st)
    = calls st
  ∧ calls (set_log (log st ++ ["Discharging logic is currently disabled"]) st)
    = calls st.
Proof.
  split_and!; [| |done..].
  - intros H. unfold inverterCharge, inverterGridOnly, inverterResetNow.
    run. by rewrite H.
  - intros H. unfold inverterDischarge. run. by rewrite H.
Qed.

Lemma disabled_operations_skip_witness :
  let e := demo_env 3600000 false false "4A99" [] in
  let st := demo_state (Some "pre-4B00") in
  (inverterCharge false e st
   = (Ok (status "Inverter Charge task ignored"),
      set_log (log st ++ ["Charging logic is currently disabled"]) st)
   ∧ inverterGridOnly false e st
     = (Ok (status "Inverter Grid Only task ignored"),
        set_log (log st ++ ["Charging logic is currently disabled"]) st)
   ∧ inverterResetNow false e st
     = (Ok (error
              "Charging logic is currently disabled, so no reset command sent"),
        st))
  ∧ inverterDischarge false e st
    = (Ok (status "Inverter Discharge task ignored"),
       set_log (log st ++ ["Discharging logic is currently disabled"]) st).
Proof.
  intros e st.
  destruct (disabled_operations_skip e st) as (Hc & Hd & _).
  split; [apply Hc|apply Hd]; reflexivity.
Defined.

(** With charging disabled, the result of [inverterResetNow] carries an
    error field and no status field; that of [inverterCharge] carries a
    status field and no error field. Neither makes a call. *)
Lemma disabled_reset_reports_error :
  let e := demo_env 3600000 false false "4A99" [] in
  let st := demo_state (Some "pre-4B00") in
  let reset := inverterResetNow false e st in
  let charge := inverterCharge false e st in
  reports reset.1 "error" = true ∧ reports reset.1 "status" = false
  ∧ calls reset.2 = []
  ∧ reports charge.1 "status" = true ∧ reports charge.1 "error" = false
  ∧ calls charge.2 = [].
Proof. vm_compute. repeat split. Qed.

(** *** What the operations leave alone *)

#[local] Instance extends_preorder : PreOrder extends.
Proof.
  split.
  - intros st. by split_and!.
  - intros st1 st2 st3 (Hd1 & Hc1 & Hl1) (Hd2 & Hc2 & Hl2). split_and!.
    + congruence.
    + by etrans.
    + by etrans.
Qed.

#[local] Instance grows_preorder : PreOrder grows.
Proof.
  split.
  - intros st. split; [reflexivity|done].
  - intros st1 st2 st3 [He1 Hf1] [He2 Hf2]. split; [by etrans|].
    intros v Hv. by apply Hf2, Hf1.
Qed.

#[local] Instance same_history_preorder : PreOrder same_history.
Proof. split; unfold same_history; [done|intros ???; congruence]. Qed.

#[local] Instance same_flag_preorder : PreOrder same_flag.
Proof. split; unfold same_flag; [done|intros ???; congruence]. Qed.

Section frame.
Context (R : relation state) `{!PreOrder R}.
Hypothesis R_calls : ∀ st c, R st (set_calls (calls st ++ c) st).
Hypothesis R_log : ∀ st l, R st (set_log (log st ++ l) st).

Lemma keeps_ret {A} (a : A) : keeps R (mret a).
Proof. intros e st. reflexivity. Qed.

Lemma keeps_throw {A} x : keeps R (throw (A:=A) x).
Proof. intros e st. reflexivity. Qed.

Lemma keeps_ask : keeps R ask.
Proof. intros e st. reflexivity. Qed.

Lemma keeps_get : keeps R get.
Proof. intros e st. reflexivity. Qed.

Lemma keeps_lift {A} (r : result A) : keeps R (lift r).
Proof. destruct r as [a|x]; intros e st; reflexivity. Qed.

Lemma keeps_modify f : (∀ st, R st (f st)) → keeps R (modify f).
Proof. intros Hf e st. apply Hf. Qed.

Lemma keeps_bind {A B} (m : M A) (k : A → M B) :
  keeps R m → (∀ a, keeps R (k a)) → keeps R (m ≫= k).
Proof.
  intros Hm Hk e st. unfold mbind, M_bind, bind.
  specialize (Hm e st). destruct (m e st) as [[a|x] st1]; simpl in Hm.
  - etrans; [exact Hm|]. apply Hk.
  - exact Hm.
Qed.

Lemma keeps_write text : keeps R (write text).
Proof. apply keeps_modify. intros st. apply R_log. Qed.

Lemma keeps_requested e c st : R st (requested e c st).
Proof.
  etrans; [apply (R_calls st [c])|].
  apply (R_log (set_calls (calls st ++ [c]) st)).
Qed.

Lemma keeps_api url payload : keeps R (api url payload).
Proof. intros e st. apply keeps_requested. Qed.

Ltac frame_step :=
  first
    [ assumption
    | match goal with
      | |- keeps _ (mret _) => apply keeps_ret
      | |- keeps _ (ret _) => apply keeps_ret
      | |- keeps _ (throw _) => apply keeps_throw
      | |- keeps _ ask => apply keeps_ask
      | |- keeps _ get => apply keeps_get
      | |- keeps _ (lift _) => apply keeps_lift
      | |- keeps _ (write _) => apply keeps_write
      | |- keeps _ (api _ _) => apply keeps_api
      | |- keeps _ (mbind _ _) => apply keeps_bind; [|intros ?]
      | |- keeps _ (if ?b then _ else _) => destruct b
      | |- keeps _ (match ?x with _ => _ end) => destruct x
      end
    | progress cbv zeta ].

Ltac frame := repeat frame_step.

Lemma keeps_isConfigured : keeps R isConfigured.
Proof. unfold isConfigured. frame. Qed.

Lemma keeps_guarded resp failure k :
  keeps R k → keeps R (guarded resp failure k).
Proof. intros Hk. unfold guarded. frame. Qed.

Lemma keeps_controlAPI cid value : keeps R (controlAPI cid value).
Proof. unfold controlAPI. frame. Qed.

Lemma keeps_chargeAPI text : keeps R (chargeAPI text).
Proof.
  unfold chargeAPI. apply keeps_bind; [apply keeps_controlAPI|intros resp].
  apply keeps_guarded. frame.
Qed.

Lemma keeps_dischargeAPI text : keeps R (dischargeAPI text).
Proof.
  unfold dischargeAPI. apply keeps_bind; [apply keeps_controlAPI|intros resp].
  apply keeps_guarded. frame.
Qed.

Lemma keeps_atReadAPI : keeps R atReadAPI.
Proof. unfold atReadAPI. frame. Qed.

Lemma keeps_post4B00Charge fromTimeText toTimeText current :
  keeps R (post4B00Charge fromTimeText toTimeText current).
Proof.
  unfold post4B00Charge. frame.
  - apply keeps_controlAPI.
  - apply keeps_guarded. frame; [apply keeps_controlAPI|].
    apply keeps_guarded. frame; [apply keeps_controlAPI|].
    apply keeps_guarded. frame.
Qed.

Lemma keeps_post4B00Discharge fromTimeText toTimeText current :
  keeps R (post4B00Discharge fromTimeText toTimeText current).
Proof.
  unfold post4B00Discharge. frame.
  - apply keeps_controlAPI.
  - apply keeps_guarded. frame; [apply keeps_controlAPI|].
    apply keeps_guarded. frame; [apply keeps_controlAPI|].
    apply keeps_guarded. frame.
Qed.

Lemma keeps_setting_of resp : keeps R (setting_of resp).
Proof. unfold setting_of. frame. Qed.

Lemma keeps_legacy rewrite_with push done_text after :
  (∀ text, keeps R (push text)) → keeps R after →
  keeps R (legacy rewrite_with push done_text after).
Proof.
  intros Hpush Hafter. unfold legacy.
  apply keeps_bind; [apply keeps_atReadAPI|intros resp].
  apply keeps_bind; [apply keeps_lift|intros err].
  destruct (truthy err); [apply keeps_ret|].
  apply keeps_bind; [apply keeps_setting_of|intros text]. cbv zeta.
  apply keeps_bind; [apply Hpush|intros resp2]. frame.
Qed.

Lemma keeps_setFirmwareVersion :
  (∀ st v, R st (set_firmwareVersion v st)) → keeps R setFirmwareVersion.
Proof.
  intros Hfw. unfold setFirmwareVersion. frame.
  apply keeps_modify. intros st. apply Hfw.
Qed.

Lemma keeps_dataNow : keeps R dataNow.
Proof. unfold dataNow. frame. Qed.

Lemma keeps_batteryLevelNow : keeps R batteryLevelNow.
Proof.
  unfold batteryLevelNow. apply keeps_bind; [apply keeps_dataNow|intros d].
  apply keeps_ret.
Qed.

Lemma keeps_getFirmwareVersion :
  (∀ st v, R st (set_firmwareVersion v st)) → keeps R getFirmwareVersion.
Proof.
  intros Hfw. unfold getFirmwareVersion. frame.
  by apply keeps_setFirmwareVersion.
Qed.

Section operations.
Hypothesis R_firmware : keeps R getFirmwareVersion.

Lemma keeps_inverterChargeBetween fromTimeText toTimeText :
  keeps R (inverterChargeBetween fromTimeText toTimeText).
Proof.
  unfold inverterChargeBetween. frame.
  - apply keeps_post4B00Charge.
  - apply keeps_legacy; [apply keeps_chargeAPI|apply keeps_ret].
Qed.

Lemma keeps_inverterDischargeBetween fromTimeText toTimeText :
  keeps R (inverterDischargeBetween fromTimeText toTimeText).
Proof.
  unfold inverterDischargeBetween. frame.
  apply keeps_legacy; [apply keeps_dischargeAPI|apply keeps_ret].
Qed.

Lemma keeps_inverterGridOnly override : keeps R (inverterGridOnly override).
Proof.
  unfold inverterGridOnly. frame.
  - apply keeps_post4B00Discharge.
  - apply keeps_legacy; [apply keeps_dischargeAPI|apply keeps_ret].
Qed.

Lemma keeps_inverterGridPowerBetween fromTimeText toTimeText :
  keeps R (inverterGridPowerBetween fromTimeText toTimeText).
Proof.
  unfold inverterGridPowerBetween. frame.
  - apply keeps_post4B00Discharge.
  - apply keeps_legacy; [apply keeps_dischargeAPI|apply keeps_ret].
Qed.

Lemma keeps_inverterResetNow override : keeps R (inverterResetNow override).
Proof.
  unfold inverterResetNow. frame.
  - apply keeps_post4B00Charge.
  - apply keeps_legacy; [apply keeps_chargeAPI|apply keeps_ret].
Qed.

Lemma keeps_inverterReset : keeps R inverterReset.
Proof. unfold inverterReset. frame. apply keeps_inverterResetNow. Qed.

Lemma keeps_inverterCharge override :
  (∀ st h, R st (set_chargeHistory h st)) → keeps R (inverterCharge override).
Proof.
  intros Hh. unfold inverterCharge. frame.
  - unfold startNewChargeHistoryRecord.
    apply keeps_bind; [apply keeps_batteryLevelNow|intros level]. frame.
    apply keeps_modify. intros st. apply Hh.
  - apply keeps_post4B00Charge.
  - apply keeps_legacy; [apply keeps_chargeAPI|apply keeps_ret].
Qed.

Lemma keeps_inverterDischarge override :
  (∀ st b, R st (set_dischargeControlFlag b st)) →
  keeps R (inverterDischarge override).
Proof.
  intros Hf. unfold inverterDischarge. frame.
  - apply keeps_post4B00Discharge.
  - apply keeps_legacy; [apply keeps_dischargeAPI|].
    apply keeps_modify. intros st. apply Hf.
Qed.

End operations.
End frame.

Lemma extends_calls st c : extends st (set_calls (calls st ++ c) st).
Proof. split_and!; [done|by apply prefix_app_r|done]. Qed.

Lemma extends_log st l : extends st (set_log (log st ++ l) st).
Proof. split_and!; [done|done|by apply prefix_app_r]. Qed.

Lemma grows_calls st c : grows st (set_calls (calls st ++ c) st).
Proof. split; [apply extends_calls|done]. Qed.

Lemma grows_log st l : grows st (set_log (log st ++ l) st).
Proof. split; [apply extends_log|done]. Qed.

Lemma grows_getFirmwareVersion : keeps grows getFirmwareVersion.
Proof.
  intros e st. split.
  - refine (keeps_getFirmwareVersion extends extends_calls extends_log _ e st).
    by intros st0 v.
  - intros v Hv. by rewrite (getFirmwareVersion_cached e st v Hv).
Qed.

(** X11. None of the scheduling operations writes the snapshot store, and
    none drops or changes a cached firmware dialect; whether they return
    or throw, they only add to the calls made and to the log. Apart from
    [inverterCharge] none writes the charge history, and apart from
    [inverterDischarge] none touches the discharge control flag. *)
Theorem scheduling_frame (override : bool) (fromTimeText toTimeText : string) :
  let between :=
    [ inverterChargeBetween fromTimeText toTimeText;
      inverterDischargeBetween fromTimeText toTimeText;
      inverterGridOnly override;
      inverterGridPowerBetween fromTimeText toTimeText;
      inverterResetNow override;
      inverterReset ] in
  Forall (keeps grows)
    (inverterCharge override :: inverterDischarge override :: between)
  ∧ Forall (keeps same_history) (inverterDischarge override :: between)
  ∧ Forall (keeps same_flag) (inverterCharge override :: between).
Proof.
  assert (keeps same_history getFirmwareVersion) as Hh.
  { by apply (keeps_getFirmwareVersion same_history). }
  assert (keeps same_flag getFirmwareVersion) as Hf.
  { by apply (keeps_getFirmwareVersion same_flag). }
  pose proof grows_getFirmwareVersion as Hg.
  pose proof grows_calls as Hc. pose proof grows_log as Hl.
  intros between. subst between. split_and!.
  - repeat apply Forall_cons_2; try apply Forall_nil_2.
    + by apply (keeps_inverterCharge grows).
    + by apply (keeps_inverterDischarge grows).
    + by apply (keeps_inverterChargeBetween grows).
    + by apply (keeps_inverterDischargeBetween grows).
    + by apply (keeps_inverterGridOnly grows).
    + by apply (keeps_inverterGridPowerBetween grows).
    + by apply (keeps_inverterResetNow grows).
    + by apply (keeps_inverterReset grows).
  - repeat apply Forall_cons_2; try apply Forall_nil_2.
    + by apply (keeps_inverterDischarge same_history).
    + by apply (keeps_inverterChargeBetween same_history).
    + by apply (keeps_inverterDischargeBetween same_history).
    + by apply (keeps_inverterGridOnly same_history).
    + by apply (keeps_inverterGridPowerBetween same_history).
    + by apply (keeps_inverterResetNow same_history).
    + by apply (keeps_inverterReset same_history).
  - repeat apply Forall_cons_2; try apply Forall_nil_2.
    + by apply (keeps_inverterCharge same_flag).
    + by apply (keeps_inverterChargeBetween same_flag).
    + by apply (keeps_inverterDischargeBetween same_flag).
    + by apply (keeps_inverterGridOnly same_flag).
    + by apply (keeps_inverterGridPowerBetween same_flag).
    + by apply (keeps_inverterResetNow same_flag).
    + by apply (keeps_inverterReset same_flag).
Qed.

(** *** The three calls of the post-4B00 dialect *)

Lemma controlAPI_run cid value e st :
  controlAPI cid value e st
  = (Ok (vendor e (calls st ++ [control_call e cid value])),
     requested e (control_call e cid value) st).
Proof. reflexivity. Qed.

Lemma calls_requested e c st : calls (requested e c st) = calls st ++ [c].
Proof. reflexivity. Qed.

Lemma guarded_run resp failure k e st :
  guarded resp failure k e st =
  if accepted resp then k e st
  else match prop resp "error" with
       | Throw x => (Throw x, st)
       | Ok err =>
           if truthy err then (Ok resp, st)
           else (Ok (error failure), set_log (log st ++ [failure]) st)
       end.
Proof.
  unfold guarded, accepted. rewrite bind_run.
  destruct (prop resp "error") as [err|x]; [|done]. cbn [lift ret].
  destruct (truthy err); [done|]. cbn [negb andb].
  by destruct (truthy (field resp "data")).
Qed.

(** A guarded step that does not go on makes no call and does not
    answer with a status. *)
Lemma guarded_stops resp failure k e st text :
  accepted resp = false →
  calls (guarded resp failure k e st).2 = calls st
  ∧ (guarded resp failure k e st).1 ≠ Ok (status text).
Proof.
  intros H. rewrite guarded_run, H. unfold accepted in H.
  destruct (prop resp "error") as [err|x] eqn:E; [|done].
  destruct (truthy err) eqn:Ht; [|done]. split; [done|].
  simpl. intros [= ->]. cbn in E. injection E as <-. done.
Qed.

Local Ltac guarded_step E :=
  rewrite bind_run, controlAPI_run; cbv beta iota;
  rewrite ?calls_requested, <- ?app_assoc; cbn [app];
  match goal with
  | |- context [guarded ?resp ?failure ?k ?e ?st] =>
      match goal with
      | |- context [_ = Ok (status ?t)] =>
          destruct (accepted resp) eqn:E;
          [rewrite guarded_run, E
          |let H := fresh in
           destruct (guarded_stops resp failure k e st t E) as [-> H];
           split; [by rewrite ?calls_requested, <- ?app_assoc
                  |split; [by intros ?|by rewrite ?andb_false_r]]]
      end
  end.

Lemma post4B00_steps (e : env) (st : state)
    (fromTimeText toTimeText : string) (current : option Z) :
  let window := JStr (fromTimeText +:+ "-" +:+ toTimeText) in
  let protocol (op : M json) (c1 c2 c3 : call) (done_text : string) :=
    let a1 := vendor e (calls st ++ [c1]) in
    let a2 := vendor e (calls st ++ [c1; c2]) in
    let a3 := vendor e (calls st ++ [c1; c2; c3]) in
    calls (op e st).2
    = calls st ++ (if accepted a1
                   then if accepted a2 then [c1; c2; c3] else [c1; c2]
                   else [c1])
    ∧ ((op e st).1 = Ok (status done_text)
       ↔ accepted a1 && accepted a2 && accepted a3 = true) in
  protocol (post4B00Charge fromTimeText toTimeText current)
    (control_call e 5948 (JNum (or_current current (chargeCurrent e))))
    (control_call e 5928 (JNum 100))
    (control_call e 5946 window)
    ("Inverter successfully set to charge between "
     +:+ fromTimeText +:+ " and " +:+ toTimeText)
  ∧ protocol (post4B00Discharge fromTimeText toTimeText current)
      (control_call e 5967 (JNum (or_current current (dischargeCurrent e))))
      (control_call e 5965 (JNum 0))
      (control_call e 5964 window)
      ("Inverter successfully set to discharge between "
       +:+ fromTimeText +:+ " and " +:+ toTimeText).
Proof.
  intros window protocol. subst protocol window. cbv beta zeta. split.
  - unfold post4B00Charge. rewrite bind_run. cbn [ask].
    guarded_step E1. guarded_step E2. guarded_step E3.
    split; [|by split]. unfold ret. cbn [snd].
    by rewrite !calls_requested, <- !app_assoc.
  - unfold post4B00Discharge. rewrite bind_run. cbn [ask].
    guarded_step E1. guarded_step E2. guarded_step E3.
    split; [|by split]. unfold ret. cbn [snd].
    by rewrite !calls_requested, <- !app_assoc.
Qed.

(** X12. [post4B00Charge] sets the current under cid 5948, the target level
    100 under cid 5928 and the window under cid 5946, in this order;
    [post4B00Discharge] the current under cid 5967, the level 0 under cid
    5965 and the window under cid 5964. The current sent is the one
    given, or the configured one when none or 0 is given. Each call is
    made only when the answer to the one before was accepted, and the
    operation answers with its success status exactly when all three
    answers were. *)
Theorem post4B00_protocol (e : env) (st : state)
    (fromTimeText toTimeText : string) (current : option Z) :
  let window := JStr (fromTimeText +:+ "-" +:+ toTimeText) in
  let protocol (op : M json) (c1 c2 c3 : call) (done_text : string) :=
    let a1 := vendor e (calls st ++ [c1]) in
    let a2 := vendor e (calls st ++ [c1; c2]) in
    let a3 := vendor e (calls st ++ [c1; c2; c3]) in
    calls (op e st).2
    = calls st ++ (if accepted a1
                   then if accepted a2 then [c1; c2; c3] else [c1; c2]
                   else [c1])
    ∧ ((op e st).1 = Ok (status done_text)
       ↔ accepted a1 && accepted a2 && accepted a3 = true) in
  protocol (post4B00Charge fromTimeText toTimeText current)
    (control_call e 5948 (JNum (or_current current (chargeCurrent e))))
    (control_call e 5928 (JNum 100))
    (control_call e 5946 window)
    ("Inverter successfully set to charge between "
     +:+ fromTimeText +:+ " and " +:+ toTimeText)
  ∧ protocol (post4B00Discharge fromTimeText toTimeText current)
      (control_call e 5967 (JNum (or_current current (dischargeCurrent e))))
      (control_call e 5965 (JNum 0))
      (control_call e 5964 window)
      ("Inverter successfully set to discharge between "
       +:+ fromTimeText +:+ " and " +:+ toTimeText).
Proof.
  exact (post4B00_steps e st fromTimeText toTimeText current).
Qed.

(** *** The firmware dialect *)



Lemma classify_two v : classify v = "pre-4B00" ∨ classify v = "post-4B00".
Proof.
  unfold classify. destruct v as [|a [|c v]]; try by left.
  - destruct a as [[] [] [] [] [] [] [] []]; by left.
  - destruct a as [[] [] [] [] [] [] [] []]; try by left.
    destruct (66 <=? nat_of_ascii c)%nat; [by right|by left].
Qed.






(** The dialects recorded for some versions. *)
Example dialect_samples :
  let recorded version :=
    firmwareVersion
      (setFirmwareVersion (demo_env 3600000 true true version [])
         (demo_state None)).2 in
  recorded "4b10" = Some "post-4B00" ∧ recorded "4a99" = Some "pre-4B00"
  ∧ recorded "4_00" = Some "post-4B00" ∧ recorded "3F00" = Some "pre-4B00"
  ∧ recorded "4" = Some "pre-4B00" ∧ recorded "" = None.
Proof. vm_compute. repeat split. Qed.

Lemma setFirmwareVersion_outcome e st :
  match setFirmwareVersion e st with
  | (Ok true, st') => ∃ v, firmwareVersion st' = Some (classify v)
  | (_, st') => firmwareVersion st' = firmwareVersion st
  end.
Proof.
  unfold setFirmwareVersion. rewrite bind_run. cbn [ask].
  rewrite bind_run, api_run. cbv beta iota.
  match goal with |- context [if ?c then _ else _] => destruct c end;
    [|done].
  rewrite bind_run, api_run. cbv beta iota.
  match goal with |- context [if ?c then _ else _] => destruct c end;
    [|done].
  rewrite bind_run.
  match goal with |- context [lift ?r] => destruct r as [items|x] end;
    [|done].
  cbn [lift ret]. rewrite bind_run.
  destruct (first_version items) as [[v|]|x]; [|done..].
  cbn [lift ret]. rewrite bind_run. cbn [modify ret].
  by exists v.
Qed.

Lemma getFirmwareVersion_run e st :
  getFirmwareVersion e st =
  match firmwareVersion st with
  | Some v => (Ok v, st)
  | None =>
      match setFirmwareVersion e st with
      | (Ok ok, st') =>
          if negb ok then (Ok "Unknown", st')
          else (Ok (default "" (firmwareVersion st')), st')
      | (Throw x, st') => (Throw x, st')
      end
  end.
Proof.
  unfold getFirmwareVersion. rewrite bind_run. cbn [get].
  destruct (firmwareVersion st); [done|]. rewrite bind_run.
  by destruct (setFirmwareVersion e st) as [[[|]|x] st'].
Qed.

(** X14. [getFirmwareVersion] asks the vendor only while no dialect is cached.
    When it finds one, that is pre-4B00 or post-4B00, it is cached, and
    every later call answers with it without a remote call and without
    any other change. When it finds none it answers [Unknown] and caches
    nothing, so the next call asks again. *)
Theorem getFirmwareVersion_caches (e : env) (st : state) (v : string) :
  (getFirmwareVersion e st).1 = Ok v →
  let st1 := (getFirmwareVersion e st).2 in
  (v = "Unknown" ∧ firmwareVersion st = None ∧ firmwareVersion st1 = None)
  ∨ (firmwareVersion st1 = Some v
     ∧ (firmwareVersion st = None → v = "pre-4B00" ∨ v = "post-4B00")
     ∧ ∀ e', getFirmwareVersion e' st1 = (Ok v, st1)).
Proof.
  intros H st1. subst st1. revert H. rewrite getFirmwareVersion_run.
  destruct (firmwareVersion st) as [v0|] eqn:Hst.
  - cbn [fst snd]. intros [= ->]. right. split_and!; [done|done|].
    intros e'. by apply getFirmwareVersion_cached.
  - pose proof (setFirmwareVersion_outcome e st) as Hset.
    destruct (setFirmwareVersion e st) as [[[|]|x] st'].
    + destruct Hset as [v1 Hv1]. cbn [negb fst snd]. rewrite Hv1.
      cbn [default]. intros [= <-]. right. split_and!.
      * done.
      * intros _. apply classify_two.
      * intros e'. by apply getFirmwareVersion_cached.
    + cbn [negb fst snd]. intros [= <-]. left.
      split_and!; [done|done|]. by rewrite Hset, Hst.
    + done.
Qed.

Lemma getFirmwareVersion_caches_witness :
  let e := demo_env 3600000 true true "4b10" [] in
  let st := demo_state None in
  let st1 := (getFirmwareVersion e st).2 in
  ("post-4B00" = "Unknown" ∧ firmwareVersion st = None
   ∧ firmwareVersion st1 = None)
  ∨ (firmwareVersion st1 = Some "post-4B00"
     ∧ (firmwareVersion st = None
        → "post-4B00" = "pre-4B00" ∨ "post-4B00" = "post-4B00")
     ∧ ∀ e', getFirmwareVersion e' st1 = (Ok "post-4B00", st1)).
Proof.
  intros e st.
  apply (getFirmwareVersion_caches e st "post-4B00"). reflexivity.
Defined.

(** *** Updates on every path, and the restore *)

Lemma isConfigured_false e st :
  credentials e = false →
  (isConfigured e st).1 = Ok false
  ∧ calls (isConfigured e st).2 = calls st
  ∧ data (isConfigured e st).2 = data st.
Proof.
  unfold credentials, isConfigured. rewrite bind_run. cbn [ask].
  destruct (configExists e); [|done]. cbn [negb andb].
  destruct (String.eqb (inverterSn e) ""); [done|].
  destruct (String.eqb (key e) ""); [done|].
  destruct (String.eqb (secret e) ""); [done|]. done.
Qed.

Lemma update_run e st offset :
  credentials e = true →
  let st1 := requested e (day_call e offset) st in
  update offset e st =
  match vendorDay e (calls st ++ [day_call e offset]) with
  | DayNull => (Throw (TypeError "cannot read error"), st1)
  | DayOther resp =>
      if truthy (field resp "error") then (Ok resp, st1)
      else (Ok (error "solis.inverterDay API failed"),
            set_log (log st1 ++ ["solis.inverterDay API failed"]) st1)
  | DayRows rows =>
      let dateIndex := timeIndex (atMidnight (date e) offset) in
      let '(r, s) := ingest_rows (date e) dateIndex rows (data st) in
      (match r with
       | Ok _ => Ok (ok "Solis Data updated successfully")
       | Throw x => Throw x
       end, set_data s st1)
  end.
Proof.
  intros Hc st1. subst st1. unfold update, inverterDayAPI.
  unfold mbind at 1, M_bind, bind. unfold mbind at 1, M_bind, bind.
  rewrite (isConfigured_true e st Hc). run.
  cbn [negb requested calls set_calls set_log data].
  destruct (vendorDay e (calls st ++ [day_call e offset])) as [|resp|rows].
  - done.
  - by destruct (truthy (field resp "error")).
  - cbv zeta.
    change (data (requested e (day_call e offset) st)) with (data st).
    by destruct (ingest_rows _ _ rows (data st)) as [[[]|x] s].
Qed.

Lemma well_formed_rows rows :
  forallb is_row rows = true → ∃ snaps, rows = Row <$> snaps.
Proof.
  induction rows as [|[r|] rows IH]; intros H.
  - by exists [].
  - destruct (IH H) as [snaps ->]. by exists (r :: snaps).
  - done.
Qed.

Lemma update_paths (e : env) (st : state) (offset : Z) :
  let st' := (update offset e st).2 in
  let answer := vendorDay e (calls st ++ [day_call e offset]) in
  (∀ d k x, Store.get (data st) d k = Some x →
            Store.get (data st') d k = Some x)
  ∧ (credentials e = false →
     (update offset e st).1
     = Ok (error "SolisCloud credentials are incomplete")
     ∧ calls st' = calls st ∧ data st' = data st)
  ∧ (credentials e = true → calls st' = calls st ++ [day_call e offset])
  ∧ (credentials e = true → is_rows answer = false → data st' = data st).
Proof.
  intros st' answer. subst st' answer.
  destruct (credentials e) eqn:Hc.
  - rewrite (update_run e st offset Hc).
    destruct (vendorDay e (calls st ++ [day_call e offset]))
      as [|resp|rows].
    + by split_and!.
    + destruct (truthy (field resp "error")); by split_and!.
    + cbv zeta.
      pose proof (ingest_rows_keeps (date e)
                    (timeIndex (atMidnight (date e) offset)) rows (data st))
        as Hkeep.
      destruct (ingest_rows _ _ rows (data st)) as [r s].
      split_and!; [exact Hkeep|done..].
  - destruct (isConfigured_false e st Hc) as (H1 & H2 & H3).
    unfold update, inverterDayAPI. rewrite !bind_run.
    destruct (isConfigured e st) as [[b|x] st0]; [|done].
    cbn [fst snd] in H1, H2, H3. injection H1 as ->. cbn [negb].
    unfold ret. cbn [fst snd].
    split_and!; try done. intros d k x Hx. by rewrite H3.
Qed.

(** X15. [update] never removes or overwrites a stored document, whatever
    the vendor answers and also when it throws. Without the three
    credentials it makes no call and answers with its error object; with
    them it makes exactly one call, the one for the day asked for. The
    store changes only when the answer has rows. *)
Theorem update_never_loses (e : env) (st : state) (offset : Z) :
  let st' := (update offset e st).2 in
  let answer := vendorDay e (calls st ++ [day_call e offset]) in
  (∀ d k x, Store.get (data st) d k = Some x →
            Store.get (data st') d k = Some x)
  ∧ (credentials e = false →
     (update offset e st).1
     = Ok (error "SolisCloud credentials are incomplete")
     ∧ calls st' = calls st ∧ data st' = data st)
  ∧ (credentials e = true → calls st' = calls st ++ [day_call e offset])
  ∧ (credentials e = true → is_rows answer = false → data st' = data st).
Proof. exact (update_paths e st offset). Qed.

Lemma update_one_call e st offset :
  credentials e = true →
  well_formed (vendorDay e (calls st ++ [day_call e offset])) = true →
  ∃ r, (update offset e st).1 = Ok r
       ∧ calls (update offset e st).2 = calls st ++ [day_call e offset]
       ∧ truthy (field r "error")
         = negb (is_rows (vendorDay e (calls st ++ [day_call e offset]))).
Proof.
  intros Hc Hwf. rewrite (update_run e st offset Hc).
  destruct (vendorDay e (calls st ++ [day_call e offset]))
    as [|resp|rows]; [done| |].
  - destruct (truthy (field resp "error")) eqn:E; eauto.
  - destruct (well_formed_rows rows Hwf) as [snaps ->]. cbv zeta.
    rewrite ingest_rows_typed. eauto.
Qed.

Lemma restore_loop_calls e :
  credentials e = true → (∀ cs, well_formed (vendorDay e cs) = true) →
  ∀ n i st,
    (restore_loop n i e st).1 = Ok tt
    ∧ calls (restore_loop n i e st).2
      = calls st ++ ((λ j, day_call e (- (i + Z.of_nat j))) <$> seq 0 n)
    ∧ ∀ d k x, Store.get (data st) d k = Some x →
               Store.get (data (restore_loop n i e st).2) d k = Some x.
Proof.
  intros Hc Hnull. induction n as [|n IH]; intros i st.
  { cbn [restore_loop seq fmap list_fmap]. by rewrite app_nil_r. }
  cbn [restore_loop]. rewrite bind_run.
  destruct (update_one_call e st (- i) Hc (Hnull _)) as (r & Hr & Hcalls & _).
  pose proof (update_paths e st (- i)) as (Hkeep & _).
  destruct (update (- i) e st) as [[r'|x] st1]; [|done].
  cbn [fst snd] in Hcalls, Hkeep.
  destruct (IH (i + 1) st1) as (H1 & H2 & H3). split_and!.
  - done.
  - rewrite H2, Hcalls, <- app_assoc. f_equal. cbn [seq fmap list_fmap].
    rewrite Z.add_0_r. f_equal. rewrite <- fmap_S_seq, <- list_fmap_compose.
    apply list_fmap_ext. intros _ j _. simpl. f_equal. lia.
  - intros d k x Hx. by apply H3, Hkeep.
Qed.

(** X16. With the credentials set and a vendor that never answers [null]
    nor with a row that lacks its time stamp, [restore] returns. When the
    answer for today has rows it fetches
    today and then each of the [movingAveragePeriod] days before it, one
    call each, most recent first, whatever the answers for those days.
    When the answer for today has no rows it stops after that one call:
    no earlier day is fetched, and after [restore(true)] the store is
    left empty. Without the cleardown nothing stored is lost. *)
Theorem restore_fetches (e : env) (st : state) (cleardown : bool) :
  credentials e = true → (∀ cs, well_formed (vendorDay e cs) = true) →
  let today := vendorDay e (calls st ++ [day_call e 0]) in
  let st' := (restore cleardown e st).2 in
  (restore cleardown e st).1 = Ok tt
  ∧ calls st'
    = calls st ++
      (if is_rows today
       then (λ j, day_call e (- Z.of_nat j))
              <$> seq 0 (S (Z.to_nat (movingAveragePeriod e)))
       else [day_call e 0])
  ∧ (cleardown = true → is_rows today = false → data st' = ∅)
  ∧ (cleardown = false →
     ∀ d k x, Store.get (data st) d k = Some x →
              Store.get (data st') d k = Some x).
Proof.
  intros Hc Hnull today st'. subst today st'. unfold restore.
  rewrite bind_run.
  set (st0 := if cleardown then set_data ∅ st else st).
  assert ((if cleardown then modify (set_data ∅) else ret tt) e st
          = (Ok tt, st0)) as -> by by destruct cleardown.
  assert (calls st0 = calls st) as Hcalls0 by by destruct cleardown.
  rewrite bind_run. cbn [ask]. rewrite bind_run.
  destruct (update_one_call e st0 0 Hc (Hnull _)) as (r & Hr & Hcalls & Herr).
  pose proof (update_paths e st0 0) as (Hkeep & _ & _ & Hsame).
  rewrite Hcalls0 in Hcalls, Herr, Hsame.
  destruct (update 0 e st0) as [[r'|x] st1]; [|done].
  cbn [fst snd] in Hr, Hcalls, Hkeep, Hsame. injection Hr as ->.
  rewrite Herr, negb_involutive.
  destruct (is_rows (vendorDay e (calls st ++ [day_call e 0]))) eqn:Hrows.
  - destruct (restore_loop_calls e Hc Hnull
                (Z.to_nat (movingAveragePeriod e + 1 - 1)) 1 st1)
      as (H1 & H2 & H3).
    split_and!.
    + done.
    + rewrite H2, Hcalls, <- app_assoc. f_equal.
      replace (movingAveragePeriod e + 1 - 1) with (movingAveragePeriod e)
        by lia.
      cbn [seq fmap list_fmap]. f_equal.
      rewrite <- fmap_S_seq, <- list_fmap_compose.
      apply list_fmap_ext. intros _ j _. simpl. f_equal. lia.
    + done.
    + intros -> d k x Hx. by apply H3, Hkeep.
  - cbn [ret fst snd]. split_and!.
    + done.
    + done.
    + intros -> _. by rewrite (Hsame Hc eq_refl).
    + intros -> d k x Hx. by apply Hkeep.
Qed.

Lemma restore_fetches_witness :
  let e := demo_env (sample_day + 3600000) true true "4B10" demo_rows in
  let st := demo_state None in
  let today := vendorDay e (calls st ++ [day_call e 0]) in
  let st' := (restore true e st).2 in
  (restore true e st).1 = Ok tt
  ∧ calls st'
    = calls st ++
      (if is_rows today
       then (λ j, day_call e (- Z.of_nat j))
              <$> seq 0 (S (Z.to_nat (movingAveragePeriod e)))
       else [day_call e 0])
  ∧ (true = true → is_rows today = false → data st' = ∅)
  ∧ (true = false →
     ∀ d k x, Store.get (data st) d k = Some x →
              Store.get (data st') d k = Some x).
Proof.
  intros e st.
  apply (restore_fetches e st true); [reflexivity|]. intros cs. reflexivity.
Defined.

(** Behind a failing transport [restore(true)] makes the one call for
    today and leaves the store empty. *)
Example restore_failing_sample :
  let st := set_data sample_store (demo_state None) in
  data st ≠ ∅
  ∧ length (calls (restore true failing_env st).2) = 1%nat
  ∧ data (restore true failing_env st).2 = ∅.
Proof. vm_compute. split; [discriminate|done]. Qed.

(** *** The legacy read-modify-write *)

Lemma atReadAPI_readable e st s :
  let resp := vendor e (calls st ++ [atRead_call e]) in
  readable resp = Some s →
  atReadAPI e st = (Ok resp, requested e (atRead_call e) st)
  ∧ (∃ err, prop resp "error" = Ok err ∧ truthy err = false)
  ∧ field (field resp "data") "msg" = JStr s.
Proof.
  intros resp H. unfold atReadAPI. rewrite bind_run. cbn [ask].
  rewrite bind_run, api_run. fold (atRead_call e). fold resp.
  unfold readable in H. rewrite bind_run.
  destruct (prop resp "error") as [err|x]; [|done]. cbn [lift ret].
  destruct (truthy err) eqn:Herr; [done|]. cbn [orb] in H.
  destruct (truthy (field resp "data")); [|done]. cbn [negb orb] in H |- *.
  destruct (is_string (field resp "data")); [done|]. cbn [orb] in H |- *.
  destruct (truthy (field (field resp "data") "msg")); [|done].
  cbn [negb orb] in H |- *.
  destruct (truthy (field (field resp "data") "yuanzhi")); [|done].
  cbn [negb] in H |- *. rewrite bind_run.
  destruct (slice_is (field (field resp "data") "yuanzhi") 4 "fail")
    as [[|]|]; try done.
  cbn [lift ret]. rewrite bind_run.
  destruct (slice_is (field (field resp "data") "yuanzhi") 5 "error")
    as [[|]|]; try done.
  cbn [lift ret].
  destruct (field (field resp "data") "msg"); try done.
  injection H as ->. split_and!; [done| |done]. by exists err.
Qed.

Lemma accepted_error resp :
  accepted resp = true → ∃ err, prop resp "error" = Ok err ∧ truthy err = false.
Proof.
  unfold accepted. destruct (prop resp "error") as [err|x]; [|done].
  intros [H _]%andb_true_iff. exists err. split; [done|].
  by apply negb_true_iff.
Qed.

Lemma legacy_success rewrite_with (push : string → M json) failure
    done_text e st s :
  (∀ text, push text =
           (resp ← controlAPI 4643 (JStr text);
            guarded resp failure (ret resp))) →
  readable (vendor e (calls st ++ [atRead_call e])) = Some s →
  accepted (vendor e (calls st ++ [atRead_call e;
                                   control_call e 4643
                                     (JStr (rewrite_with s))])) = true →
  (legacy rewrite_with push done_text (ret tt) e st).1 = Ok (status done_text)
  ∧ calls (legacy rewrite_with push done_text (ret tt) e st).2
    = calls st ++ [atRead_call e;
                   control_call e 4643 (JStr (rewrite_with s))].
Proof.
  intros Hpush Hread Hacc. unfold legacy. rewrite bind_run.
  destruct (atReadAPI_readable e st s Hread) as (-> & (err & -> & Herr) & Hmsg).
  rewrite bind_run. cbn [lift ret]. rewrite Herr. rewrite bind_run.
  unfold setting_of. rewrite Hmsg. cbn [ret]. rewrite bind_run, Hpush.
  rewrite bind_run, controlAPI_run. cbv beta iota.
  rewrite !calls_requested, <- app_assoc. cbn [app].
  rewrite guarded_run, Hacc. cbn [ret]. rewrite bind_run.
  destruct (accepted_error _ Hacc) as (err2 & -> & Herr2). cbn [lift ret].
  rewrite Herr2, bind_run. cbn [ret fst snd].
  by rewrite !calls_requested, <- app_assoc.
Qed.

(** X17. Under the legacy dialect, with an answer to the read that carries a
    settings string and a vendor that accepts what is pushed, each of the
    bounded operations and the reset makes two calls: the read, and the
    push under cid 4643 of the rewrite of the string that was read; it
    then answers with its status. *)
Theorem legacy_round_trip (e : env) (st : state)
    (fromTimeText toTimeText v s : string) :
  firmwareVersion st = Some v → String.eqb v "post-4B00" = false →
  readable (vendor e (calls st ++ [atRead_call e])) = Some s →
  (∀ text, accepted (vendor e (calls st ++ [atRead_call e;
                                            control_call e 4643 (JStr text)]))
           = true) →
  let pushes (op : M json) (text done_text : string) :=
    (op e st).1 = Ok (status done_text)
    ∧ calls (op e st).2
      = calls st ++ [atRead_call e; control_call e 4643 (JStr text)] in
  pushes (inverterChargeBetween fromTimeText toTimeText)
    (Settings.chargeTimeString (chargeCurrent e) s fromTimeText toTimeText)
    ("Inverter set to charge between " +:+ between fromTimeText toTimeText)
  ∧ pushes (inverterDischargeBetween fromTimeText toTimeText)
      (Settings.dischargeTimeString (dischargeCurrent e) s
         fromTimeText toTimeText)
      ("Inverter set to discharge between "
       +:+ between fromTimeText toTimeText)
  ∧ pushes (inverterGridPowerBetween fromTimeText toTimeText)
      (Settings.gridOnlyTimeString s fromTimeText toTimeText)
      ("Inverter set to only use grid power between "
       +:+ between fromTimeText toTimeText)
  ∧ pushes (inverterResetNow true) (Settings.resetTimeString s)
      "Inverter reset successfully".
Proof.
  intros Hv Hpre Hread Hacc pushes. subst pushes. cbv beta.
  pose proof (getFirmwareVersion_cached e st v Hv) as Hfw.
  split; [|split; [|split]].
  - unfold inverterChargeBetween. rewrite bind_run. cbn [ask].
    rewrite bind_run, Hfw, Hpre.
    by apply (legacy_success
                (λ s, Settings.chargeTimeString (chargeCurrent e) s
                        fromTimeText toTimeText)
                chargeAPI "Solis charge API failed").
  - unfold inverterDischargeBetween. rewrite bind_run. cbn [ask].
    rewrite bind_run, Hfw, Hpre.
    by apply (legacy_success
                (λ s, Settings.dischargeTimeString (dischargeCurrent e) s
                        fromTimeText toTimeText)
                dischargeAPI "Solis discharge API failed").
  - unfold inverterGridPowerBetween. rewrite bind_run, Hfw, Hpre.
    by apply (legacy_success
                (λ s, Settings.gridOnlyTimeString s fromTimeText toTimeText)
                dischargeAPI "Solis discharge API failed").
  - unfold inverterResetNow. rewrite bind_run. cbn [ask negb andb].
    rewrite bind_run, Hfw, Hpre.
    by apply (legacy_success Settings.resetTimeString
                chargeAPI "Solis charge API failed").
Qed.

Lemma legacy_round_trip_witness :
  let e := demo_env 3600000 true true "4A99" [] in
  let st := demo_state (Some "pre-4B00") in
  let s := demo_setting in
  let pushes (op : M json) (text done_text : string) :=
    (op e st).1 = Ok (status done_text)
    ∧ calls (op e st).2
      = calls st ++ [atRead_call e; control_call e 4643 (JStr text)] in
  pushes (inverterChargeBetween "16:00" "16:30")
    (Settings.chargeTimeString (chargeCurrent e) s "16:00" "16:30")
    ("Inverter set to charge between " +:+ between "16:00" "16:30")
  ∧ pushes (inverterDischargeBetween "16:00" "16:30")
      (Settings.dischargeTimeString (dischargeCurrent e) s "16:00" "16:30")
      ("Inverter set to discharge between " +:+ between "16:00" "16:30")
  ∧ pushes (inverterGridPowerBetween "16:00" "16:30")
      (Settings.gridOnlyTimeString s "16:00" "16:30")
      ("Inverter set to only use grid power between "
       +:+ between "16:00" "16:30")
  ∧ pushes (inverterResetNow true) (Settings.resetTimeString s)
      "Inverter reset successfully".
Proof.
  intros e st s.
  apply (legacy_round_trip e st "16:00" "16:30" "pre-4B00" s);
    [reflexivity..|]. intros text. reflexivity.
Defined.

(** *** The discharge control flag *)

Lemma legacy_modify (R : relation state) `{!PreOrder R}
    rewrite_with (push : string → M json) done_text f e st :
  keeps R atReadAPI → (∀ text, keeps R (push text)) →
  R st (legacy rewrite_with push done_text (modify f) e st).2
  ∨ ∃ st1, R st st1
           ∧ legacy rewrite_with push done_text (modify f) e st
             = (Ok (status done_text), f st1).
Proof.
  intros Hread Hpush. unfold legacy. rewrite bind_run.
  pose proof (Hread e st) as H1.
  destruct (atReadAPI e st) as [[resp|x] st1]; cbn [snd] in H1; [|by left].
  rewrite bind_run. destruct (prop resp "error") as [err|x]; [|by left].
  cbn [lift ret]. destruct (truthy err); [by left|].
  rewrite bind_run. unfold setting_of.
  destruct (field (field resp "data") "msg"); try by left.
  cbn [ret]. rewrite bind_run.
  pose proof (Hpush (rewrite_with s) e st1) as H2.
  destruct (push (rewrite_with s) e st1) as [[resp2|x] st2]; cbn [snd] in H2.
  2:{ left. by etrans. }
  rewrite bind_run. destruct (prop resp2 "error") as [err2|x].
  2:{ left. by etrans. }
  cbn [lift ret]. destruct (truthy err2).
  { left. by etrans. }
  rewrite bind_run. cbn [modify ret]. right. exists st2.
  split; [by etrans|done].
Qed.

(** X18. [inverterDischarge] clears the discharge control flag only on the
    legacy path and only when it answers with its success status. With
    the post-4B00 dialect cached it never touches the flag, whatever the
    outcome; on every other path the flag is as it was. *)
Theorem discharge_flag (e : env) (st : state) (override : bool) :
  let r := (inverterDischarge override e st).1 in
  let st' := (inverterDischarge override e st).2 in
  (firmwareVersion st = Some "post-4B00" →
   dischargeControlFlag st' = dischargeControlFlag st)
  ∧ (dischargeControlFlag st' = dischargeControlFlag st
     ∨ dischargeControlFlag st' = false
       ∧ ∃ window, r = Ok (status ("Inverter set to discharge between "
                                   +:+ window))).
Proof.
  intros r st'. subst r st'.
  assert (∀ st c, same_flag st (set_calls (calls st ++ c) st)) as Hc by done.
  assert (∀ st l, same_flag st (set_log (log st ++ l) st)) as Hl by done.
  assert (keeps same_flag getFirmwareVersion) as Hfw.
  { by apply (keeps_getFirmwareVersion same_flag). }
  split.
  - intros Hv. unfold inverterDischarge. rewrite bind_run. cbn [ask].
    destruct (negb override && negb (dischargingEnabled e)); [done|].
    rewrite bind_run, (getFirmwareVersion_cached e st _ Hv).
    cbn [String.eqb Ascii.eqb Bool.eqb].
    exact (keeps_post4B00Discharge same_flag Hc Hl _ _ _ e st).
  - unfold inverterDischarge. rewrite bind_run. cbn [ask].
    destruct (negb override && negb (dischargingEnabled e)); [by left|].
    rewrite bind_run. pose proof (Hfw e st) as H1.
    destruct (getFirmwareVersion e st) as [[v|x] st1]; cbn [snd] in H1;
      [|by left].
    destruct (String.eqb v "post-4B00").
    + left. etrans; [|exact H1].
      exact (keeps_post4B00Discharge same_flag Hc Hl _ _ _ e st1).
    + match goal with
      | |- context [legacy ?rw ?push ?txt (modify ?f) e st1] =>
          destruct (legacy_modify same_flag rw push txt f e st1)
            as [H2|(st2 & H2 & ->)]
      end.
      * exact (keeps_atReadAPI same_flag Hc Hl).
      * intros text. exact (keeps_dischargeAPI same_flag Hc Hl text).
      * left. etrans; [exact H2|exact H1].
      * right. split; [done|]. by eexists.
Qed.

(** *** The sample of the moment *)

Lemma lastChild_None {A} (m : gmap Z A) : lastChild m = None → m = ∅.
Proof.
  unfold lastChild, keys. intros H%max_key_None.
  apply elements_empty_inv in H. apply leibniz_equiv in H.
  by apply dom_empty_inv_L.
Qed.

Lemma dataNow_outcome e st :
  let now := DateUtil.now (date e) in
  let t := timeIndex now in
  let today := default ∅ (data st !! dateIndex now) in
  let yesterday :=
    default ∅ (data st !! dateIndex (atMidnight (date e) (-1))) in
  let none_so_far := ∀ j, is_Some (today !! j) → t < j in
  (dataNow e st).2 = st
  ∧ match (dataNow e st).1 with
    | Ok (Some d) =>
        (∃ k, today !! k = Some d ∧ k ≤ t
              ∧ ∀ j, is_Some (today !! j) → j ≤ t → j ≤ k)
        ∨ (none_so_far ∧ slotTimeText now = "00:00"
           ∧ ∃ k, yesterday !! k = Some d
                  ∧ ∀ j, is_Some (yesterday !! j) → j ≤ k)
    | Ok None => none_so_far ∧ slotTimeText now ≠ "00:00"
    | Throw x =>
        x = TypeError "document of undefined"
        ∧ none_so_far ∧ slotTimeText now = "00:00" ∧ yesterday = ∅
    end.
Proof.
  intros now t today yesterday none_so_far.
  unfold dataNow. rewrite bind_run. cbn [ask]. rewrite bind_run. cbn [get].
  cbv zeta. fold now. fold t. fold today. fold yesterday.
  destruct (today !! t) as [d|] eqn:Ht.
  { cbn [ret fst snd]. split; [done|]. left. exists t.
    split_and!; [done|lia|done]. }
  destruct (childBefore today t) as [b|] eqn:Hb.
  { pose proof Hb as (Hlt & [d Hd] & Hmax)%childBefore_Some.
    rewrite Hd. cbn [ret fst snd]. split; [done|]. left. exists b.
    split_and!; [done|lia|]. intros j Hj Hjt.
    destruct (decide (j = t)) as [->|Hne].
    - rewrite Ht in Hj. by destruct Hj.
    - apply Hmax; [done|lia]. }
  assert (none_so_far) as Hnone.
  { intros j Hj. pose proof (childBefore_None today t j Hb Hj).
    destruct (decide (j = t)) as [->|Hne]; [|lia].
    rewrite Ht in Hj. by destruct Hj. }
  destruct (String.eqb (slotTimeText now) "00:00") eqn:Hslot.
  - apply String.eqb_eq in Hslot.
    destruct (lastChild yesterday) as [k|] eqn:Hlast; cbn [mbind option_bind].
    + unfold lastChild in Hlast. apply max_key_Some in Hlast as [Hin Hmax].
      apply elem_of_keys in Hin as [d Hd]. rewrite Hd.
      cbn [ret fst snd]. split; [done|]. right. split_and!; [done..|].
      exists k. split; [done|]. intros j Hj. apply Hmax.
      by apply elem_of_keys.
    + cbn [throw fst snd]. split; [done|]. split_and!; [done..|].
      by apply lastChild_None.
  - apply String.eqb_neq in Hslot. cbn [ret fst snd]. by split.
Qed.

(** X19. [dataNow] never answers with a later sample: it gives the sample of
    today stored at the current time or, failing that, the latest before
    it. When today has none up to now, it gives the last sample of
    yesterday during the first half hour of the day, and nothing at any
    other time; during that first half hour it raises a [TypeError] when
    yesterday has no sample either, the store giving no last child for a
    day without samples. It changes nothing. *)
Theorem dataNow_latest (e : env) (st : state) :
  let now := DateUtil.now (date e) in
  let t := timeIndex now in
  let today := default ∅ (data st !! dateIndex now) in
  let yesterday :=
    default ∅ (data st !! dateIndex (atMidnight (date e) (-1))) in
  let none_so_far := ∀ j, is_Some (today !! j) → t < j in
  (dataNow e st).2 = st
  ∧ match (dataNow e st).1 with
    | Ok (Some d) =>
        (∃ k, today !! k = Some d ∧ k ≤ t
              ∧ ∀ j, is_Some (today !! j) → j ≤ t → j ≤ k)
        ∨ (none_so_far ∧ slotTimeText now = "00:00"
           ∧ ∃ k, yesterday !! k = Some d
                  ∧ ∀ j, is_Some (yesterday !! j) → j ≤ k)
    | Ok None => none_so_far ∧ slotTimeText now ≠ "00:00"
    | Throw x =>
        x = TypeError "document of undefined"
        ∧ none_so_far ∧ slotTimeText now = "00:00" ∧ yesterday = ∅
    end.
Proof. exact (dataNow_outcome e st). Qed.

Lemma dataNow_throws e st :
  let now := DateUtil.now (date e) in
  slotTimeText now = "00:00" →
  (∀ j, is_Some (default ∅ (data st !! dateIndex now) !! j) →
        timeIndex now < j) →
  default ∅ (data st !! dateIndex (atMidnight (date e) (-1))) = ∅ →
  dataNow e st = (Throw (TypeError "document of undefined"), st).
Proof.
  intros now Hslot Hnone Hy.
  pose proof (dataNow_outcome e st) as [H2 H1]. cbv zeta in H1.
  fold now in H1.
  destruct (dataNow e st) as [[[d|]|x] st']; cbn [fst snd] in H1, H2;
    subst st'.
  - exfalso. destruct H1 as [(k & Hk & Hle & _)|(_ & _ & k & Hk & _)].
    + assert (timeIndex now < k) by (apply Hnone; eauto). lia.
    + rewrite Hy, lookup_empty in Hk. done.
  - by destruct H1 as [_ H1].
  - by destruct H1 as [-> _].
Qed.

(** X20. During the first half hour of a day, with no sample stored for today
    up to now and none for yesterday, as on a fresh installation,
    [inverterCharge] past its gate throws a [TypeError] while opening the
    charge history record, the store giving no last child for a day
    without samples: no call is made and nothing is changed. *)
Theorem inverterCharge_needs_sample (e : env) (st : state) (override : bool) :
  let now := DateUtil.now (date e) in
  override || chargingEnabled e = true →
  slotTimeText now = "00:00" →
  (∀ j, is_Some (default ∅ (data st !! dateIndex now) !! j) →
        timeIndex now < j) →
  default ∅ (data st !! dateIndex (atMidnight (date e) (-1))) = ∅ →
  inverterCharge override e st
  = (Throw (TypeError "document of undefined"), st).
Proof.
  intros now Hgate Hslot Hnone Hy. unfold inverterCharge.
  rewrite bind_run. cbn [ask].
  assert (negb override && negb (chargingEnabled e) = false) as ->.
  { destruct override, (chargingEnabled e); done. }
  rewrite bind_run. unfold startNewChargeHistoryRecord.
  rewrite bind_run. unfold batteryLevelNow. rewrite bind_run.
  by rewrite (dataNow_throws e st Hslot Hnone Hy).
Qed.

Lemma inverterCharge_needs_sample_witness :
  let e := demo_env (86400000 + 600000) true true "4B10" [] in
  let st := demo_state (Some "post-4B00") in
  inverterCharge false e st = (Throw (TypeError "document of undefined"), st).
Proof.
  intros e st. apply (inverterCharge_needs_sample e st false).
  - reflexivity.
  - reflexivity.
  - intros j [d Hd]. exfalso. revert Hd. subst st. unfold demo_state.
    cbn [data]. rewrite lookup_empty. cbn [default]. by rewrite lookup_empty.
  - reflexivity.
Defined.

(** *** The charge history *)

Lemma batteryLevelNow_run e st :
  batteryLevelNow e st =
  match dataNow e st with
  | (Ok d, st') => (Ok (batteryLevel <$> d), st')
  | (Throw x, st') => (Throw x, st')
  end.
Proof.
  unfold batteryLevelNow. rewrite bind_run.
  by destruct (dataNow e st) as [[d|x] st'].
Qed.

Lemma dataNow_reads_data e st st' :
  data st' = data st → (dataNow e st').1 = (dataNow e st).1.
Proof.
  intros H. unfold dataNow. rewrite !bind_run. cbn [ask].
  rewrite !bind_run. cbn [get]. rewrite H.
  repeat match goal with
         | |- context [match ?x with _ => _ end] => destruct x; try done
         end.
Qed.

(** X21. A charge event is opened at the current slot with the battery level
    and the minute of the moment, and closed from the slot after it:
    [endChargeHistoryRecord], run in the slot that follows, adds the
    level of its own moment as the end of that event and keeps its start.
    It never creates an event, and neither operation writes an event of
    another slot. *)
Theorem charge_event_round_trip (e1 e2 : env) (st : state) (d1 d2 : doc) :
  (dataNow e1 st).1 = Ok (Some d1) → (dataNow e2 st).1 = Ok (Some d2) →
  level_truthy (Some (batteryLevel d1)) = true →
  level_truthy (Some (batteryLevel d2)) = true →
  previousSlotTimeIndex (now (date e2)) = slotTimeIndex (now (date e1)) →
  let slot := slotTimeIndex (now (date e1)) in
  let st1 := (startNewChargeHistoryRecord e1 st).2 in
  let st2 := (endChargeHistoryRecord e2 st1).2 in
  chargeHistory st2 !! slot
  = Some {| start := Some (batteryLevel d1);
            startMinute := Some (minute (now (date e1)));
            end_ := Some (batteryLevel d2) |}
  ∧ (∀ k, k ≠ slot → chargeHistory st2 !! k = chargeHistory st !! k)
  ∧ dom (chargeHistory (endChargeHistoryRecord e2 st).2)
    = dom (chargeHistory st).
Proof.
  intros H1 H2 Hl1 Hl2 Hslot slot st1 st2.
  pose proof (dataNow_outcome e1 st) as [Hs1 _].
  assert (startNewChargeHistoryRecord e1 st
          = (Ok tt,
             set_chargeHistory
               (<[slot := {| start := Some (batteryLevel d1);
                             startMinute := Some (minute (now (date e1)));
                             end_ := chargeHistory st !! slot ≫= end_ |}]>
                  (chargeHistory st)) st)) as Hstart.
  { unfold startNewChargeHistoryRecord. rewrite bind_run, batteryLevelNow_run.
    destruct (dataNow e1 st) as [[d|x] st']; cbn [fst snd] in H1, Hs1;
      [|done].
    injection H1 as ->. subst st'. cbn [fmap option_fmap option_map].
    rewrite Hl1. rewrite bind_run. cbn [ask]. reflexivity. }
  assert (∀ st0, data st0 = data st →
            endChargeHistoryRecord e2 st0
            = (Ok tt,
               match chargeHistory st0 !! slot with
               | Some old =>
                   set_chargeHistory
                     (<[slot := {| start := start old;
                                   startMinute := startMinute old;
                                   end_ := Some (batteryLevel d2) |}]>
                        (chargeHistory st0)) st0
               | None => st0
               end)) as Hend.
  { intros st0 Hdata. unfold endChargeHistoryRecord.
    rewrite bind_run, batteryLevelNow_run.
    pose proof (dataNow_reads_data e2 st st0 Hdata) as Hsame.
    pose proof (dataNow_outcome e2 st0) as [Hs2 _].
    destruct (dataNow e2 st0) as [[d|x] st']; cbn [fst snd] in Hsame, Hs2;
      rewrite H2 in Hsame; [|done].
    injection Hsame as ->. subst st'. cbn [fmap option_fmap option_map].
    rewrite Hl2. rewrite bind_run. cbn [ask]. rewrite Hslot. reflexivity. }
  assert (st1 = set_chargeHistory
                  (<[slot := {| start := Some (batteryLevel d1);
                                startMinute := Some (minute (now (date e1)));
                                end_ := chargeHistory st !! slot ≫= end_ |}]>
                     (chargeHistory st)) st) as Hst1.
  { subst st1. by rewrite Hstart. }
  assert (st2 = match chargeHistory st1 !! slot with
                | Some old =>
                    set_chargeHistory
                      (<[slot := {| start := start old;
                                    startMinute := startMinute old;
                                    end_ := Some (batteryLevel d2) |}]>
                         (chargeHistory st1)) st1
                | None => st1
                end) as Hst2.
  { subst st2. rewrite (Hend st1); [done|]. by rewrite Hst1. }
  clearbody st1 st2. subst st2 st1.
  cbn [chargeHistory set_chargeHistory]. rewrite lookup_insert_eq.
  cbn [chargeHistory set_chargeHistory start startMinute].
  split_and!.
  - by rewrite lookup_insert_eq.
  - intros k Hk. by rewrite !lookup_insert_ne.
  - rewrite (Hend st eq_refl). cbn [snd].
    destruct (chargeHistory st !! slot) as [old|] eqn:Hold; [|done].
    cbn [chargeHistory set_chargeHistory]. rewrite dom_insert_L.
    apply elem_of_dom_2 in Hold.
    by apply subseteq_union_1_L, singleton_subseteq_l.
Qed.

Lemma charge_event_round_trip_witness :
  let e1 := demo_env (sample_day + 1800000) true true "4B10" [] in
  let e2 := demo_env (sample_day + 3600000) true true "4B10" [] in
  let st := set_data sample_store (demo_state None) in
  let d1 := doc_of sample_date
              (sample_row (sample_day + 1800000) 1 2 (32 # 10) 0) in
  let d2 := doc_of sample_date
              (sample_row (sample_day + 3600000) (15 # 10) (25 # 10)
                 (34 # 10) 0) in
  let slot := slotTimeIndex (now (date e1)) in
  let st1 := (startNewChargeHistoryRecord e1 st).2 in
  let st2 := (endChargeHistoryRecord e2 st1).2 in
  chargeHistory st2 !! slot
  = Some {| start := Some (batteryLevel d1);
            startMinute := Some (minute (now (date e1)));
            end_ := Some (batteryLevel d2) |}
  ∧ (∀ k, k ≠ slot → chargeHistory st2 !! k = chargeHistory st !! k)
  ∧ dom (chargeHistory (endChargeHistoryRecord e2 st).2)
    = dom (chargeHistory st).
Proof.
  intros e1 e2 st d1 d2.
  apply (charge_event_round_trip e1 e2 st d1 d2); vm_compute; reflexivity.
Defined.


Lemma post4B00_first e st fromTimeText toTimeText current :
  (∃ rest, calls (post4B00Charge fromTimeText toTimeText current e st).2
           = calls st ++
             control_call e 5948
               (JNum (or_current current (chargeCurrent e))) :: rest)
  ∧ (∃ rest, calls (post4B00Discharge fromTimeText toTimeText current e st).2
             = calls st ++
               control_call e 5967
                 (JNum (or_current current (dischargeCurrent e))) :: rest).
Proof.
  destruct (post4B00_steps e st fromTimeText toTimeText current)
    as [[-> _] [-> _]].
  split;
    repeat match goal with
           | |- context [if ?b then _ else _] => destruct b
           end; eauto.
Qed.

(** X22. With the post-4B00 dialect cached, the grid-only operations and the
    reset, which pass the current 0 to [post4B00Discharge] and
    [post4B00Charge], first send the configured discharge current under
    cid 5967, respectively the configured charge current under cid 5948:
    a current of 0 counts as no current given. *)
Theorem zero_current_falls_back (e : env) (st : state)
    (fromTimeText toTimeText : string) :
  firmwareVersion st = Some "post-4B00" →
  let first_call (op : M json) (c : call) :=
    ∃ rest, calls (op e st).2 = calls st ++ c :: rest in
  first_call (inverterGridPowerBetween fromTimeText toTimeText)
    (control_call e 5967 (JNum (dischargeCurrent e)))
  ∧ first_call (inverterGridOnly true)
      (control_call e 5967 (JNum (dischargeCurrent e)))
  ∧ first_call (inverterResetNow true)
      (control_call e 5948 (JNum (chargeCurrent e))).
Proof.
  intros Hv first_call. subst first_call. cbv beta.
  pose proof (getFirmwareVersion_cached e st _ Hv) as Hfw.
  split_and!.
  - unfold inverterGridPowerBetween. rewrite bind_run, Hfw.
    cbn [String.eqb Ascii.eqb Bool.eqb].
    apply (post4B00_first e st fromTimeText toTimeText (Some 0)).
  - unfold inverterGridOnly. rewrite bind_run. cbn [ask negb andb].
    rewrite bind_run, Hfw. cbn [String.eqb Ascii.eqb Bool.eqb].
    apply (post4B00_first e st _ _ (Some 0)).
  - unfold inverterResetNow. rewrite bind_run. cbn [ask negb andb].
    rewrite bind_run, Hfw. cbn [String.eqb Ascii.eqb Bool.eqb].
    apply (post4B00_first e st "00:00" "00:00" (Some 0)).
Qed.

Lemma zero_current_falls_back_witness :
  let e := demo_env 3600000 true true "4B10" [] in
  let st := demo_state (Some "post-4B00") in
  let first_call (op : M json) (c : call) :=
    ∃ rest, calls (op e st).2 = calls st ++ c :: rest in
  first_call (inverterGridPowerBetween "16:00" "16:30")
    (control_call e 5967 (JNum (dischargeCurrent e)))
  ∧ first_call (inverterGridOnly true)
      (control_call e 5967 (JNum (dischargeCurrent e)))
  ∧ first_call (inverterResetNow true)
      (control_call e 5948 (JNum (chargeCurrent e))).
Proof.
  intros e st.
  apply (zero_current_falls_back e st "16:00" "16:30"). reflexivity.
Defined.

(** On the example configuration, with a discharge current of 40 and the
    default charge current: the grid-only operation sends 40 and the
    reset sends 50. *)
Example zero_current_sample :
  let e := demo_env 3600000 true true "4B10" [] in
  let st := demo_state (Some "post-4B00") in
  c_body <$> head (calls (inverterGridOnly true e st).2)
  = Some (JObj [("inverterSn", JStr "SN1"); ("cid", JNum 5967);
                ("value", JNum 40)])
  ∧ c_body <$> head (calls (inverterResetNow true e st).2)
    = Some (JObj [("inverterSn", JStr "SN1"); ("cid", JNum 5948);
                  ("value", JNum 50)]).
Proof. vm_compute. by split. Qed.

(** *** Slot operations *)

Lemma startNewChargeHistoryRecord_run e st :
  startNewChargeHistoryRecord e st =
  match dataNow e st with
  | (Ok d, st') =>
      let levelNow := batteryLevel <$> d in
      if level_truthy levelNow then
        let slot := slotTimeIndex (now (date e)) in
        (Ok tt,
         set_chargeHistory
           (<[slot := {| start := levelNow;
                         startMinute := Some (minute (now (date e)));
                         end_ := chargeHistory st' !! slot ≫= end_ |}]>
              (chargeHistory st')) st')
      else (Ok tt, st')
  | (Throw x, st') => (Throw x, st')
  end.
Proof.
  unfold startNewChargeHistoryRecord. rewrite bind_run, batteryLevelNow_run.
  destruct (dataNow e st) as [[d|x] st']; [|done]. cbv zeta.
  destruct (level_truthy (batteryLevel <$> d)); [|done].
  rewrite bind_run. reflexivity.
Qed.

(** X23. Past its gate [inverterCharge] is the bounded charge from the
    current time to the end of the current slot, run after the charge
    history record has been opened; [inverterGridOnly] is the bounded
    grid-power operation for the same window. The charge event is
    written before the first remote call and stays whatever the vendor
    answers: with a battery level that is known and not zero the event of
    the current slot holds that level and the current minute. *)
Theorem slot_operations (e : env) (st : state) (override : bool) :
  let now := DateUtil.now (date e) in
  let fromTimeText := timeText now in
  let toTimeText := timeText (at_ (date e) (slotEndTimeIndex now)) in
  override || chargingEnabled e = true →
  inverterCharge override e st
  = (startNewChargeHistoryRecord;;
     inverterChargeBetween fromTimeText toTimeText) e st
  ∧ inverterGridOnly override e st
    = inverterGridPowerBetween fromTimeText toTimeText e st
  ∧ ∀ d, (dataNow e st).1 = Ok (Some d) →
         level_truthy (Some (batteryLevel d)) = true →
         chargeHistory (inverterCharge override e st).2
         = <[slotTimeIndex now :=
               {| start := Some (batteryLevel d);
                  startMinute := Some (minute now);
                  end_ := chargeHistory st !! slotTimeIndex now ≫= end_ |}]>
             (chargeHistory st).
Proof.
  intros now fromTimeText toTimeText Hgate.
  assert (negb override && negb (chargingEnabled e) = false) as Hopen.
  { destruct override, (chargingEnabled e); done. }
  assert (inverterCharge override e st
          = (startNewChargeHistoryRecord;;
             inverterChargeBetween fromTimeText toTimeText) e st) as Hcharge.
  { unfold inverterCharge, inverterChargeBetween.
    rewrite !bind_run. cbn [ask]. rewrite Hopen. rewrite !bind_run.
    destruct (startNewChargeHistoryRecord e st) as [[[]|x] st1]; [|done].
    rewrite !bind_run. reflexivity. }
  split_and!.
  - exact Hcharge.
  - unfold inverterGridOnly, inverterGridPowerBetween.
    rewrite bind_run. cbn [ask]. by rewrite Hopen.
  - intros d Hd Hlevel. rewrite Hcharge, bind_run.
    rewrite startNewChargeHistoryRecord_run.
    pose proof (dataNow_outcome e st) as [Hst _].
    destruct (dataNow e st) as [[d'|x] st']; cbn [fst snd] in Hd, Hst;
      [|done].
    injection Hd as ->. subst st'. cbv zeta.
    cbn [fmap option_fmap option_map]. rewrite Hlevel.
    match goal with
    | |- chargeHistory (?m e ?s).2 = _ =>
        assert (keeps same_history m) as Hk
    end.
    { apply (keeps_inverterChargeBetween same_history); try done.
      by apply (keeps_getFirmwareVersion same_history). }
    rewrite (Hk e _). reflexivity.
Qed.

Lemma slot_operations_witness :
  let e := demo_env (sample_day + 1800000) true true "4B10" [] in
  let st := set_data sample_store (demo_state None) in
  let now := DateUtil.now (date e) in
  let fromTimeText := timeText now in
  let toTimeText := timeText (at_ (date e) (slotEndTimeIndex now)) in
  inverterCharge false e st
  = (startNewChargeHistoryRecord;;
     inverterChargeBetween fromTimeText toTimeText) e st
  ∧ inverterGridOnly false e st
    = inverterGridPowerBetween fromTimeText toTimeText e st
  ∧ ∀ d, (dataNow e st).1 = Ok (Some d) →
         level_truthy (Some (batteryLevel d)) = true →
         chargeHistory (inverterCharge false e st).2
         = <[slotTimeIndex now :=
               {| start := Some (batteryLevel d);
                  startMinute := Some (minute now);
                  end_ := chargeHistory st !! slotTimeIndex now ≫= end_ |}]>
             (chargeHistory st).
Proof.
  intros e st. apply (slot_operations e st false). reflexivity.
Defined.

End ControlFacts.
